(** * PS2JPMod launcher/updater: update checking, asset download, settings

    A shallow embedding of the core logic of [src/main.py]:
    - [JsonConfigManager]           (settings persistence),
    - [GitHubReleaseScraper]        (repository reference parsing, highest tag),
    - [GitHubResourceManager]       (repository reference parsing, asset download),
    - [VersionInfo]                 (update-available test),
    - [DownloadWorker] / [UIManager] (background download run and its guard flag),
    - [MainManager._check_single_entity_update].

    The second part adds [get_config_value], [check_repository_connection],
    [FileIntegrityChecker] and, of [MainManager], the start of an update
    download, the completion callbacks, the start-up version
    synchronisation, the developer-mode change detection, the application
    of the translation and the launch of the game.

    Python [str] values are modelled by [string]: a sequence of 8-bit code
    units.  Case conversion acts on the ASCII letters only, which is exact
    for every comparison the program makes (all literals it compares with
    are ASCII). *)

From Stdlib Require Import ZArith NArith Ascii String List Bool Lia Sorted.
From stdpp Require Import base option list strings gmap lexico orders.

Local Open Scope stdpp_scope.

(** ** Python string primitives *)

Module PyStr.

Definition code (c : ascii) : nat := nat_of_ascii c.

Definition in_range (lo hi : nat) (c : ascii) : bool :=
  Nat.leb lo (code c) && Nat.leb (code c) hi.

Definition is_digit (c : ascii) : bool := in_range 48 57 c.
Definition is_upper (c : ascii) : bool := in_range 65 90 c.
Definition is_lower (c : ascii) : bool := in_range 97 122 c.
Definition is_alpha (c : ascii) : bool := is_upper c || is_lower c.
Definition is_alnum (c : ascii) : bool := is_alpha c || is_digit c.
Definition is_ascii (c : ascii) : bool := Nat.leb (code c) 127.

(** [c.lower()] on an ASCII letter; other code units are left alone. *)
Definition lower_char (c : ascii) : ascii :=
  if is_upper c then ascii_of_nat (code c + 32) else c.

Definition eqc (a b : ascii) : bool := Ascii.eqb a b.

(** [not s]: the empty string is the only falsy string. *)
Definition truthy (s : string) : bool :=
  match s with EmptyString => false | String _ _ => true end.

Fixpoint lower (s : string) : string :=
  match s with
  | EmptyString => EmptyString
  | String c r => String (lower_char c) (lower r)
  end.

Fixpoint all (p : ascii -> bool) (s : string) : bool :=
  match s with
  | EmptyString => true
  | String c r => p c && all p r
  end.

(** [c in s] for a single character [c]. *)
Fixpoint contains (c : ascii) (s : string) : bool :=
  match s with
  | EmptyString => false
  | String x r => eqc x c || contains c r
  end.

(** [s.replace(c, "")] for a single character [c]. *)
Fixpoint remove (c : ascii) (s : string) : string :=
  match s with
  | EmptyString => EmptyString
  | String x r => if eqc x c then remove c r else String x (remove c r)
  end.

(** [s.lstrip(chars)], with [chars] given as a predicate. *)
Fixpoint lstrip (p : ascii -> bool) (s : string) : string :=
  match s with
  | EmptyString => EmptyString
  | String c r => if p c then lstrip p r else s
  end.

Fixpoint rstrip (p : ascii -> bool) (s : string) : string :=
  match s with
  | EmptyString => EmptyString
  | String c r =>
      match rstrip p r with
      | EmptyString => if p c then EmptyString else String c EmptyString
      | r' => String c r'
      end
  end.

Definition strip (p : ascii -> bool) (s : string) : string :=
  rstrip p (lstrip p s).

(** Longest prefix whose characters satisfy [p], and what follows it. *)
Fixpoint span (p : ascii -> bool) (s : string) : string * string :=
  match s with
  | EmptyString => (EmptyString, EmptyString)
  | String c r =>
      if p c then let '(a, b) := span p r in (String c a, b)
      else (EmptyString, s)
  end.

(** [i = s.find(c)]: [Some (s[:i], s[i+1:])] when [i >= 0], [None] when
    [c] does not occur. *)
Fixpoint partition (c : ascii) (s : string) : option (string * string) :=
  match s with
  | EmptyString => None
  | String x r =>
      if eqc x c then Some (EmptyString, r)
      else match partition c r with
           | Some (a, b) => Some (String x a, b)
           | None => None
           end
  end.

(** [i = s.rfind(c)]: [Some (s[:i], s[i+1:])] when [i >= 0]. *)
Fixpoint rpartition (c : ascii) (s : string) : option (string * string) :=
  match s with
  | EmptyString => None
  | String x r =>
      match rpartition c r with
      | Some (a, b) => Some (String x a, b)
      | None => if eqc x c then Some (EmptyString, r) else None
      end
  end.

(** [s.split(c)]: never empty; [''.split('/') == ['']]. *)
Fixpoint split (c : ascii) (s : string) : list string :=
  match s with
  | EmptyString => [EmptyString]
  | String x r =>
      if eqc x c then EmptyString :: split c r
      else match split c r with
           | h :: t => String x h :: t
           | [] => [String x EmptyString]
           end
  end.

(** [s.startswith(p)], returning the remainder of [s] after [p]. *)
Fixpoint strip_prefix (p s : string) : option string :=
  match p, s with
  | EmptyString, _ => Some s
  | String a p', String b s' => if eqc a b then strip_prefix p' s' else None
  | String _ _, EmptyString => None
  end.

Definition startswith (p s : string) : bool :=
  match strip_prefix p s with Some _ => true | None => false end.

(** [s.endswith(p)], returning [s] without that suffix ([s[:-len(p)]]). *)
Fixpoint strip_suffix (p s : string) : option string :=
  if String.eqb s p then Some EmptyString
  else match s with
       | EmptyString => None
       | String c r =>
           match strip_suffix p r with
           | Some r' => Some (String c r')
           | None => None
           end
       end.

Definition endswith (p s : string) : bool :=
  match strip_suffix p s with Some _ => true | None => false end.

(** [s[:n]] *)
Fixpoint take (n : nat) (s : string) : string :=
  match n, s with
  | S n', String c r => String c (take n' r)
  | _, _ => EmptyString
  end.

(** [s[:-n]] for [0 < n <= len(s)]. *)
Definition drop_last (n : nat) (s : string) : string :=
  take (String.length s - n) s.

(** [p in s] for a substring [p]. *)
Fixpoint has_substring (p s : string) : bool :=
  startswith p s ||
  match s with
  | EmptyString => false
  | String _ r => has_substring p r
  end.

(** [int(s)] for a string of decimal digits. *)
Definition digit_value (c : ascii) : N := N.of_nat (code c - 48).

Fixpoint int_of_digits_from (acc : N) (s : string) : N :=
  match s with
  | EmptyString => acc
  | String c r => int_of_digits_from (10 * acc + digit_value c)%N r
  end.

Definition int_of_digits (s : string) : N := int_of_digits_from 0%N s.

Definition codes (s : string) : list N :=
  List.map N_of_ascii (list_ascii_of_string s).

End PyStr.

(** ** The version library ([packaging.version])

    The program uses three things of the library: [version.parse], which
    either yields a [Version] or raises [InvalidVersion]; the comparisons
    [!=] and [>] of two [Version]s; and the property [is_prerelease].  The
    comparisons only look at the comparison key of a version, so a
    [Version] is modelled up to that key and [!=] is disequality.
    Limits of the interpreter (such as the bound on the number of digits
    of an integer literal) are not part of the model. *)

Class VersionLib := {
  Version : Type;
  Version_eq_dec :: EqDecision Version;
  (** [version.parse(s)]; [None] stands for [InvalidVersion]. *)
  parse : string -> option Version;
  (** [a > b] *)
  version_gt : Version -> Version -> bool;
  is_prerelease : Version -> bool
}.

(** What the program's reasoning relies on: [>] is a strict total order
    on comparison keys and the empty string is not a version. *)
Class VersionLaws (L : VersionLib) : Prop := {
  version_gt_irrefl : forall a, version_gt a a = false;
  version_gt_trans : forall a b c,
    version_gt a b = true -> version_gt b c = true -> version_gt a c = true;
  version_gt_connected : forall a b,
    a <> b -> version_gt a b = true \/ version_gt b a = true;
  parse_empty : parse "" = None
}.

(** *** A model of the library: PEP 440 version strings

    The grammar and the comparison key follow [packaging.version]
    ([VERSION_PATTERN], [_parse_letter_version], [_parse_local_version],
    [_cmpkey]) on strings of ASCII characters. *)

Module Pep440.
Import PyStr.

Inductive pre_letter := PreA | PreB | PreRC.

Inductive local_part :=
| LInt (n : N)
| LStr (s : string).

(** A parsed version, up to its comparison key: [release] is stored
    without its trailing zeros, and an absent local segment is the
    empty list (a present one has at least one part). *)
Record version := MkVersion {
  epoch : N;
  release : list N;
  pre : option (pre_letter * N);
  post : option N;
  dev : option N;
  local_ : list local_part
}.

(** [\s] on ASCII characters. *)
Definition is_space (c : ascii) : bool :=
  in_range 9 13 c || in_range 28 32 c.

(** [[._-]] *)
Definition is_sep (c : ascii) : bool :=
  eqc c "." || eqc c "_" || eqc c "-".

(** [[._-]?] *)
Definition drop_sep (s : string) : string :=
  match s with
  | String c r => if is_sep c then r else s
  | EmptyString => s
  end.

(** [[0-9]+], as an integer. *)
Definition take_number (s : string) : option (N * string) :=
  let '(d, r) := span is_digit s in
  if truthy d then Some (int_of_digits d, r) else None.

(** Ordered alternation of literal words: the first that is a prefix. *)
Fixpoint first_word {A} (alts : list (string * A)) (s : string)
  : option (A * string) :=
  match alts with
  | [] => None
  | (w, a) :: rest =>
      match strip_prefix w s with
      | Some r => Some (a, r)
      | None => first_word rest s
      end
  end.

(** [(?:\.[0-9]+)*] *)
Fixpoint release_tail (fuel : nat) (s : string) : list N * string :=
  match fuel with
  | O => ([], s)
  | S fuel' =>
      match s with
      | String "." r =>
          match take_number r with
          | Some (n, r') =>
              let '(ns, r'') := release_tail fuel' r' in (n :: ns, r'')
          | None => ([], s)
          end
      | _ => ([], s)
      end
  end.

Definition pre_words : list (string * pre_letter) :=
  [("alpha", PreA); ("a", PreA); ("beta", PreB); ("b", PreB);
   ("preview", PreRC); ("pre", PreRC); ("c", PreRC); ("rc", PreRC)].

(** A letter word, an optional separator and an optional number; an
    absent number counts as 0 ([_parse_letter_version]). *)
Definition letter_number {A} (words : list (string * A)) (s : string)
  : option (A * N * string) :=
  match first_word words (drop_sep s) with
  | Some (a, r) =>
      let r1 := drop_sep r in
      match take_number r1 with
      | Some (n, r2) => Some (a, n, r2)
      | None => Some (a, 0%N, r1)
      end
  | None => None
  end.

Definition pre_group (s : string) : option (pre_letter * N) * string :=
  match letter_number pre_words s with
  | Some (l, n, r) => (Some (l, n), r)
  | None => (None, s)
  end.

Definition post_words : list (string * unit) :=
  [("post", tt); ("rev", tt); ("r", tt)].

Definition post_word_group (s : string) : option N * string :=
  match letter_number post_words s with
  | Some (_, n, r) => (Some n, r)
  | None => (None, s)
  end.

(** Either [-N] or a post word. *)
Definition post_group (s : string) : option N * string :=
  match s with
  | String "-" r =>
      match take_number r with
      | Some (n, r') => (Some n, r')
      | None => post_word_group s
      end
  | _ => post_word_group s
  end.

Definition dev_group (s : string) : option N * string :=
  match letter_number [("dev", tt)] s with
  | Some (_, n, r) => (Some n, r)
  | None => (None, s)
  end.

Definition local_of_text (part : string) : local_part :=
  if all is_digit part then LInt (int_of_digits part) else LStr part.

(** [(?:[._-][a-z0-9]+)*] *)
Fixpoint local_tail (fuel : nat) (s : string) : list local_part * string :=
  match fuel with
  | O => ([], s)
  | S fuel' =>
      match s with
      | String c r =>
          if is_sep c then
            let '(w, r') := span is_alnum r in
            if truthy w then
              let '(ps, r'') := local_tail fuel' r' in
              (local_of_text w :: ps, r'')
            else ([], s)
          else ([], s)
      | EmptyString => ([], s)
      end
  end.

(** [\+[a-z0-9]+(?:[._-][a-z0-9]+)*]; [None] when a [+] is not followed
    by a local version. *)
Definition local_group (s : string) : option (list local_part * string) :=
  match s with
  | String "+" r =>
      let '(w, r') := span is_alnum r in
      if truthy w then
        let '(ps, r'') := local_tail (String.length r') r' in
        Some (local_of_text w :: ps, r'')
      else None
  | _ => Some ([], s)
  end.

(** Trailing zeros of the release do not count ([_cmpkey]). *)
Fixpoint trim_release (rel : list N) : list N :=
  match rel with
  | [] => []
  | n :: r =>
      match trim_release r with
      | [] => if N.eqb n 0 then [] else [n]
      | r' => n :: r'
      end
  end.

Definition parse_version (text : string) : option version :=
  let s := lower (strip is_space text) in
  let s := match s with String "v" r => r | _ => s end in
  match take_number s with
  | None => None
  | Some (n0, r0) =>
      let with_epoch :=
        match r0 with
        | String "!" r =>
            match take_number r with
            | Some (n1, r1) => Some (n0, n1, r1)
            | None => None
            end
        | _ => Some (0%N, n0, r0)
        end in
      match with_epoch with
      | None => None
      | Some (ep, first, r1) =>
          let '(more, r2) := release_tail (String.length r1) r1 in
          let '(pre_, r3) := pre_group r2 in
          let '(post_, r4) := post_group r3 in
          let '(dev_, r5) := dev_group r4 in
          match local_group r5 with
          | Some (loc, EmptyString) =>
              Some (MkVersion ep (trim_release (first :: more))
                              pre_ post_ dev_ loc)
          | _ => None
          end
      end
  end.

Definition pre_rank (l : pre_letter) : Z :=
  match l with PreA => 0 | PreB => 1 | PreRC => 2 end%Z.

(** The flat suffix [(pre_rank, pre_n, post_rank, post_n, dev_rank,
    dev_n)]: a dev-only release sorts before every pre-release, a
    release without pre-release after them. *)
Definition suffix (v : version) : list Z :=
  let '(prk, pn) :=
    match pre v, post v, dev v with
    | None, None, Some _ => (-1, 0)
    | None, _, _ => (3, 0)
    | Some (l, n), _, _ => (pre_rank l, Z.of_N n)
    end%Z in
  let '(pork, pon) :=
    match post v with None => (0, 0) | Some n => (1, Z.of_N n) end%Z in
  let '(drk, dn) :=
    match dev v with None => (1, 0) | Some n => (0, Z.of_N n) end%Z in
  [prk; pn; pork; pon; drk; dn].

(** In a local segment a word sorts before every number. *)
Definition local_key (p : local_part) : Z * list N :=
  match p with
  | LInt n => (Z.of_N n, [])
  | LStr s => ((-1)%Z, codes s)
  end.

Definition cmpkey (v : version)
  : N * (list N * (list Z * list (Z * list N))) :=
  (epoch v, (release v, (suffix v, List.map local_key (local_ v)))).

Definition gt (a b : version) : bool :=
  match trichotomyT lexico (cmpkey b) (cmpkey a) with
  | inleft (left _) => true
  | _ => false
  end.

Definition prerelease (v : version) : bool :=
  match dev v, pre v with
  | None, None => false
  | _, _ => true
  end.

#[global] Instance pre_letter_eq_dec : EqDecision pre_letter.
Proof. solve_decision. Defined.

#[global] Instance local_part_eq_dec : EqDecision local_part.
Proof. solve_decision. Defined.

#[global] Instance version_eq_dec : EqDecision version.
Proof. solve_decision. Defined.

End Pep440.

#[global] Instance pep440 : VersionLib := {|
  Version := Pep440.version;
  parse := Pep440.parse_version;
  version_gt := Pep440.gt;
  is_prerelease := Pep440.prerelease
|}.

(** ** URL splitting ([urllib.parse.urlparse])

    The steps of [urlsplit] and [urlparse] of CPython 3.12 with the
    default arguments ([scheme=''], [allow_fragments=True]), on a [str]
    argument.  Two validations of the network
    location that the library delegates (the content of a bracketed host,
    and the NFKC test of a non-ASCII location) are taken as an interface. *)

Module Url.
Import PyStr.

Record ParseResult := MkParseResult {
  scheme : string;
  netloc : string;
  path : string;
  params : string;
  query : string;
  fragment : string
}.

(** [urlparse] returns or raises [ValueError]. *)
Inductive outcome (A : Type) :=
| Ok (a : A)
| ValueError.
Arguments Ok {A} a.
Arguments ValueError {A}.

Class NetlocChecks := {
  (** does a location holding both brackets pass the bracket validation *)
  check_bracketed_netloc : string -> bool;
  (** does a non-ASCII location pass [_checknetloc] *)
  checknetloc_non_ascii : string -> bool
}.

(** [_WHATWG_C0_CONTROL_OR_SPACE] *)
Definition is_c0_control_or_space (c : ascii) : bool := Nat.leb (code c) 32.

(** [scheme_chars] *)
Definition is_scheme_char (c : ascii) : bool :=
  is_alnum c || eqc c "+" || eqc c "-" || eqc c ".".

(** [uses_params] *)
Definition uses_params : list string :=
  [""; "ftp"; "hdl"; "prospero"; "http"; "imap"; "https"; "shttp"; "rtsp";
   "rtspu"; "sip"; "sips"; "mms"; "sftp"; "tel"].

(** The scheme is split off at the first colon when the text before it
    starts with an ASCII letter and holds scheme characters only. *)
Definition split_scheme (url : string) : string * string :=
  match partition ":" url with
  | Some (String c0 r0, after) =>
      if is_ascii c0 && is_alpha c0 && all is_scheme_char (String c0 r0)
      then (lower (String c0 r0), after)
      else (EmptyString, url)
  | _ => (EmptyString, url)
  end.

Definition is_netloc_delim (c : ascii) : bool :=
  eqc c "/" || eqc c "?" || eqc c "#".

(** [_splitnetloc(url, 2)] on the text after the two slashes. *)
Definition splitnetloc (after_slashes : string) : string * string :=
  span (fun c => negb (is_netloc_delim c)) after_slashes.

(** [url[:2] == '//'], with [url[2:]]. *)
Definition after_double_slash (url : string) : option string :=
  match url with
  | String "/" (String "/" r) => Some r
  | _ => None
  end.

Definition netloc_brackets_ok `{NetlocChecks} (nl : string) : bool :=
  match contains "[" nl, contains "]" nl with
  | true, true => check_bracketed_netloc nl
  | false, false => true
  | _, _ => false
  end.

Definition checknetloc `{NetlocChecks} (nl : string) : bool :=
  if negb (truthy nl) || all is_ascii nl then true
  else checknetloc_non_ascii nl.

(** [url.split(c, 1)] when [c in url]. *)
Definition split_once (c : ascii) (url : string) : string * string :=
  match partition c url with
  | Some (a, b) => (a, b)
  | None => (url, EmptyString)
  end.

Definition urlsplit `{NetlocChecks} (url : string)
  : outcome (string * string * string * string * string) :=
  let url := lstrip is_c0_control_or_space url in
  let url := remove "010" (remove "013" (remove "009" url)) in
  let '(sch, url) := split_scheme url in
  let '(nl, url, brackets) :=
    match after_double_slash url with
    | Some r =>
        let '(nl, rest) := splitnetloc r in (nl, rest, netloc_brackets_ok nl)
    | None => (EmptyString, url, true)
    end in
  if negb brackets then ValueError
  else
    let '(url, frag) := split_once "#" url in
    let '(url, qry) := split_once "?" url in
    if checknetloc nl then Ok (sch, nl, url, qry, frag) else ValueError.

(** [_splitparams] *)
Definition splitparams (url : string) : string * string :=
  match rpartition "/" url with
  | Some (head, tail) =>
      match partition ";" tail with
      | Some (a, b) => (head +:+ String "/" a, b)
      | None => (url, EmptyString)
      end
  | None =>
      match partition ";" url with
      | Some (a, b) => (a, b)
      | None => (drop_last 1 url, url)
      end
  end.

Definition urlparse `{NetlocChecks} (url : string) : outcome ParseResult :=
  match urlsplit url with
  | ValueError => ValueError
  | Ok (sch, nl, url, qry, frag) =>
      let '(url, prm) :=
        if bool_decide (sch ∈ uses_params) && contains ";" url
        then splitparams url
        else (url, EmptyString) in
      Ok (MkParseResult sch nl url prm qry frag)
  end.

(** A library in which every bracketed host and every non-ASCII
    location is refused; used to evaluate the parsers on concrete
    inputs (none of which has such a location). *)
Definition strict_checks : NetlocChecks :=
  {| check_bracketed_netloc := fun _ => false;
     checknetloc_non_ascii := fun _ => false |}.

End Url.

(** ** Repository references *)

Record RepoInfo := MkRepoInfo { owner : string; repo : string }.

(** Truthiness of an [Optional[str]]. *)
Definition truthy_opt (o : option string) : bool :=
  match o with Some s => PyStr.truthy s | None => false end.

Definition is_slash (c : ascii) : bool := PyStr.eqc c "/".

(** [len(l) == 2] and [len(l) >= 2], with the first two items. *)
Definition exactly_two (l : list string) : option (string * string) :=
  match l with [a; b] => Some (a, b) | _ => None end.

Definition at_least_two (l : list string) : option (string * string) :=
  match l with a :: b :: _ => Some (a, b) | _ => None end.

Module GitHubReleaseScraper.
Import PyStr Url.

(** [[part for part in parsed.path.strip("/").split("/") if part]] *)
Definition path_parts (parsed : ParseResult) : list string :=
  List.filter truthy (split "/" (strip is_slash (path parsed))).

(** The two candidates picked from the parsed URL; both stay [None]
    when neither branch applies or the number of parts is wrong. *)
Definition candidates (parsed : ParseResult)
  : option string * option string :=
  let parts := path_parts parsed in
  if negb (truthy (scheme parsed)) && negb (truthy (netloc parsed)) then
    match exactly_two parts with
    | Some (a, b) => (Some a, Some b)
    | None => (None, None)
    end
  else if String.eqb (lower (netloc parsed)) "github.com" then
    match at_least_two parts with
    | Some (a, b) => (Some a, Some b)
    | None => (None, None)
    end
  else (None, None).

(** [raw[:-4] if raw.lower().endswith(".git") else raw] *)
Definition strip_git (raw : string) : string :=
  if endswith ".git" (lower raw) then drop_last 4 raw else raw.

Definition _parse_github_repo_url `{NetlocChecks} (url_str : string)
  : outcome (option RepoInfo) :=
  if negb (truthy url_str) then Ok None
  else
    match urlparse url_str with
    | ValueError => ValueError
    | Ok parsed =>
        match candidates parsed with
        | (Some owner_candidate, Some repo_candidate_raw) =>
            if negb (truthy owner_candidate)
               || negb (truthy repo_candidate_raw)
            then Ok None
            else
              let repo := strip_git repo_candidate_raw in
              if negb (truthy owner_candidate) || negb (truthy repo)
              then Ok None
              else Ok (Some (MkRepoInfo owner_candidate repo))
        | _ => Ok None
        end
    end.

End GitHubReleaseScraper.

Module GitHubResourceManager.
Import PyStr Url.

(** [parsed.path.strip("/").split("/")], empty parts included *)
Definition path_parts (parsed : ParseResult) : list string :=
  split "/" (strip is_slash (path parsed)).

Definition _parse_github_repo_url `{NetlocChecks} (url_str : string)
  : outcome (option RepoInfo) :=
  match urlparse url_str with
  | ValueError => ValueError
  | Ok parsed =>
      let parts := path_parts parsed in
      if (String.eqb (netloc parsed) "github.com"
          && Nat.leb 2 (length parts))
         || (negb (truthy (scheme parsed)) && negb (truthy (netloc parsed))
             && Nat.eqb (length parts) 2)
      then
        match at_least_two parts with
        | Some (a, b) => Ok (Some (MkRepoInfo a b))
        | None => Ok None
        end
      else Ok None
  end.

End GitHubResourceManager.

(** ** Releases and the highest version tag *)

Record Release := MkRelease {
  tag_name : string;
  is_latest : bool;
  html_url : string
}.

Module HighestTag.
Section WithLib.
Context `{L : VersionLib}.

(** The loop state: [highest_version], [highest_version_tag_name]. *)
Definition state : Type := option Version * option string.

(** One iteration of [for release in releases_info]. *)
Definition step (include_prerelease : bool) (st : state) (release : Release)
  : state :=
  match parse (tag_name release) with
  | None => st
  | Some parsed_version =>
      if negb include_prerelease && is_prerelease parsed_version then st
      else
        match fst st with
        | None => (Some parsed_version, Some (tag_name release))
        | Some highest_version =>
            if version_gt parsed_version highest_version
            then (Some parsed_version, Some (tag_name release))
            else st
        end
  end.

Definition _get_highest_version_tag
    (releases_info : list Release) (include_prerelease : bool)
  : option string :=
  match snd (fold_left (step include_prerelease) releases_info (None, None)) with
  | Some name => if PyStr.truthy name then Some name else None
  | None => None
  end.

(** In the words of the specification: the candidates are the entries
    whose tag parses and, when pre-releases are excluded, is not a
    pre-release. *)
Definition candidate (include_prerelease : bool) (release : Release)
  : option Version :=
  match parse (tag_name release) with
  | Some v =>
      if negb include_prerelease && is_prerelease v then None else Some v
  | None => None
  end.

(** [tag] is the tag of a candidate that no candidate exceeds and that
    strictly exceeds every candidate before it. *)
Definition first_greatest (releases : list Release) (include_prerelease : bool)
    (tag : string) : Prop :=
  exists i r v,
    releases !! i = Some r /\ tag_name r = tag /\
    candidate include_prerelease r = Some v /\
    forall j r' v',
      releases !! j = Some r' ->
      candidate include_prerelease r' = Some v' ->
      version_gt v' v = false /\ (j < i -> version_gt v v' = true).

Definition highest_version_tag_spec (releases : list Release)
    (include_prerelease : bool) (result : option string) : Prop :=
  match result with
  | Some tag => first_greatest releases include_prerelease tag
  | None => forall r, r ∈ releases -> candidate include_prerelease r = None
  end.
End WithLib.
End HighestTag.

(** ** Version descriptor *)

Record VersionInfo := MkVersionInfo {
  current : string;
  latest_available : string;
  server_url : option string
}.

Module VersionInfoM.
Section WithLib.
Context `{L : VersionLib}.

(** [__init__]: a missing or empty [latest_available] is [current]. *)
Definition init (current : string) (latest : option string)
    (server : option string) : VersionInfo :=
  MkVersionInfo current
    (match latest with
     | Some s => if PyStr.truthy s then s else current
     | None => current
     end)
    server.

(** The property: both strings are parsed, [latest_available] first;
    [InvalidVersion] from either is caught and gives [False]. *)
Definition is_update_available (vi : VersionInfo) : bool :=
  match parse (latest_available vi) with
  | None => false
  | Some latest =>
      match parse (current vi) with
      | None => false
      | Some cur => bool_decide (latest <> cur)
      end
  end.
End WithLib.
End VersionInfoM.

(** ** Exceptions *)

Inductive exc_class :=
| ValueErrorC
| AttributeErrorC
| HTTPErrorC
| TimeoutC
| ConnectionErrorC
| RequestExceptionC
| FileNotFoundErrorC
| PermissionErrorC
| OSErrorC
| OtherErrorC (name : string).

(** The text of an exception: what the library or the operating system
    says, or one of the two messages [download_release_asset] builds. *)
Inductive exc_text :=
| LibraryText (s : string)
| InvalidRepositoryText (repo_url_or_path : string)
| AssetNotFoundText (asset_filename tag_name : string) (repo_info : RepoInfo).

(** An exception object: its class, the status code of its response
    (an [HTTPError] of [raise_for_status] has one), its text, and the
    exception it was raised [from]. *)
Inductive exception :=
| Exc (cls : exc_class) (status : option Z) (text : exc_text)
| ExcFrom (cls : exc_class) (status : option Z) (text : exc_text)
          (cause : exception).

Definition exc_cls (e : exception) : exc_class :=
  match e with Exc c _ _ | ExcFrom c _ _ _ => c end.
Definition exc_status (e : exception) : option Z :=
  match e with Exc _ s _ | ExcFrom _ s _ _ => s end.
Definition exc_cause (e : exception) : option exception :=
  match e with Exc _ _ _ => None | ExcFrom _ _ _ c => Some c end.

Inductive result (A : Type) :=
| Returns (a : A)
| Raises (e : exception).
Arguments Returns {A} a.
Arguments Raises {A} e.

(** ** Asset download *)

Module AssetFetcher.
Import PyStr Url.

(** The [content-length] header as [int(headers.get(..., 0))] sees it. *)
Inductive length_header :=
| NoLength
| LengthInt (n : Z)
| LengthNotInt (err : exception).

(** What the server answers: the status, the length header, the chunks
    [iter_content] yields (by their length; an empty chunk is a
    keep-alive) and the failure that ends the stream early, if any
    (raised by the iterator or by writing to the file). *)
Record response := MkResponse {
  status_code : Z;
  reason : string;
  content_length : length_header;
  chunks : list N;
  stream_error : option exception
}.

(** What the network and the disk do during one call. *)
Record environment := MkEnvironment {
  get_result : exception + response;
  mkdir_error : option exception;
  open_error : option exception
}.

(** [Path(destination_directory) / asset_filename] *)
Record file_path := MkPath { directory : string; file_name : string }.

(** [response.raise_for_status()] raises for 4xx and 5xx. *)
Definition is_error_status (code : Z) : bool :=
  ((400 <=? code) && (code <? 600))%Z.

Definition http_error (resp : response) : exception :=
  Exc HTTPErrorC (Some (status_code resp)) (LibraryText (reason resp)).

(** The body loop: [(total, downloaded)] at each call of the progress
    callback and the final [downloaded_size]. *)
Fixpoint receive (total_size downloaded_size : Z) (cs : list N)
  : list (Z * Z) * Z :=
  match cs with
  | [] => ([], downloaded_size)
  | chunk :: rest =>
      if N.eqb chunk 0 then receive total_size downloaded_size rest
      else
        let downloaded_size := (downloaded_size + Z.of_N chunk)%Z in
        let '(calls, final) := receive total_size downloaded_size rest in
        ((if (0 <? total_size)%Z then [(total_size, downloaded_size)] else [])
           ++ calls, final)
  end.

(** The [try] block.  [with_callback] tells whether a progress callback
    was passed. *)
Definition try_block (env : environment) (with_callback : bool)
    (destination : file_path)
  : list (Z * Z) * result file_path :=
  match get_result env with
  | inl e => ([], Raises e)
  | inr resp =>
      if is_error_status (status_code resp) then ([], Raises (http_error resp))
      else
        match mkdir_error env with
        | Some e => ([], Raises e)
        | None =>
            match content_length resp with
            | LengthNotInt e => ([], Raises e)
            | (NoLength | LengthInt _) as h =>
                let total_size :=
                  match h with LengthInt n => n | _ => 0%Z end in
                match open_error env with
                | Some e => ([], Raises e)
                | None =>
                    let '(calls, downloaded_size) :=
                      receive total_size 0 (chunks resp) in
                    let calls := if with_callback then calls else [] in
                    match stream_error resp with
                    | Some e => (calls, Raises e)
                    | None =>
                        let last :=
                          if with_callback && (total_size =? 0)%Z
                             && (0 <? downloaded_size)%Z
                          then [(downloaded_size, downloaded_size)] else [] in
                        (calls ++ last, Returns destination)
                    end
                end
            end
        end
  end.

(** The [except] clauses: an [HTTPError] with status 404 becomes a
    [FileNotFoundError] raised from it; every other clause logs and
    re-raises, and what no clause names propagates as it is. *)
Definition handler (asset_filename tag_name : string) (repo_info : RepoInfo)
    (e : exception) : exception :=
  match exc_cls e with
  | HTTPErrorC =>
      match exc_status e with
      | Some code =>
          if (code =? 404)%Z
          then ExcFrom FileNotFoundErrorC None
                       (AssetNotFoundText asset_filename tag_name repo_info) e
          else e
      | None =>
          Exc AttributeErrorC None (LibraryText "status_code")
      end
  | _ => e
  end.

Definition download_release_asset `{NetlocChecks} (env : environment)
    (repo_url_or_path tag_name asset_filename destination_directory : string)
    (with_callback : bool)
  : list (Z * Z) * result file_path :=
  match GitHubResourceManager._parse_github_repo_url repo_url_or_path with
  | ValueError =>
      ([], Raises (Exc ValueErrorC None (LibraryText "urlparse")))
  | Ok None =>
      ([], Raises (Exc ValueErrorC None
                       (InvalidRepositoryText repo_url_or_path)))
  | Ok (Some repo_info) =>
      let destination := MkPath destination_directory asset_filename in
      match try_block env with_callback destination with
      | (calls, Returns p) => (calls, Returns p)
      | (calls, Raises e) =>
          (calls, Raises (handler asset_filename tag_name repo_info e))
      end
  end.

End AssetFetcher.

(** ** Background download run *)

Inductive error_message :=
| CancelledMessage
| DownloadErrorMessage (e : exception).

(** [progress_signal], [finished_signal], [error_signal]. *)
Inductive signal :=
| ProgressSignal (filename : string) (file_number total_files : nat)
                 (total_size downloaded_size : Z)
| FinishedSignal (paths : list AssetFetcher.file_path)
| ErrorSignal (message : error_message).

Module DownloadWorker.

(** What one call of [_download_function] does for a file name: the
    calls of the progress callback, then a path or an exception. *)
Definition download_function : Type :=
  string -> list (Z * Z) * result AssetFetcher.file_path.

Section Run.
Variable download : download_function.

(** [cancel_download] is called from another thread.  The run only
    observes it when it reads [_is_cancelled]; [cancel_at = Some t]
    says that the first [t] reads still see [False] and every later
    one sees [True]; [None] that no cancellation is requested. *)
Variable cancel_at : option nat.

Definition is_cancelled (clock : nat) : bool :=
  match cancel_at with
  | Some t => Nat.leb t clock
  | None => false
  end.

(** [_file_progress_callback], once per call made by the download. *)
Fixpoint progress (filename : string) (file_number total_files : nat)
    (calls : list (Z * Z)) (clock : nat) : list signal * nat :=
  match calls with
  | [] => ([], clock)
  | (total_size, downloaded_size) :: rest =>
      let emitted :=
        if is_cancelled clock then []
        else [ProgressSignal filename file_number total_files
                             total_size downloaded_size] in
      let '(more, clock') :=
        progress filename file_number total_files rest (S clock) in
      (emitted ++ more, clock')
  end.

(** The loop over [enumerate(self._filenames)] from index [i] on, and
    what follows it. *)
Fixpoint run_from (i total_files : nat) (filenames : list string)
    (downloaded_file_paths : list AssetFetcher.file_path) (clock : nat)
  : list signal :=
  match filenames with
  | [] =>
      if is_cancelled clock then []
      else [FinishedSignal downloaded_file_paths]
  | filename :: rest =>
      if is_cancelled clock then [ErrorSignal CancelledMessage]
      else
        let '(calls, outcome) := download filename in
        let '(signals, clock') :=
          progress filename (i + 1) total_files calls (S clock) in
        match outcome with
        | Returns file_path =>
            signals ++ run_from (S i) total_files rest
                         (downloaded_file_paths ++ [file_path]) clock'
        | Raises e =>
            signals ++
            (if is_cancelled clock' then []
             else [ErrorSignal (DownloadErrorMessage e)])
        end
  end.

Definition run (filenames : list string) : list signal :=
  run_from 0 (length filenames) filenames [] 0.
End Run.

(** The number of reads of [_is_cancelled] made before the per-file
    check of the file at index [k], when the files before it download. *)
Fixpoint reads_before (download : download_function) (filenames : list string)
    (k : nat) : nat :=
  match k, filenames with
  | S k', filename :: rest =>
      S (length (fst (download filename))) + reads_before download rest k'
  | _, _ => 0
  end.

(** The progress signals of a file when nothing is cancelled. *)
Definition progress_of (filename : string) (file_number total_files : nat)
    (calls : list (Z * Z)) : list signal :=
  List.map (fun '(t, d) => ProgressSignal filename file_number total_files t d)
           calls.

(** The progress signals of the files from index [i] on. *)
Fixpoint all_progress (download : download_function) (i total_files : nat)
    (filenames : list string) : list signal :=
  match filenames with
  | [] => []
  | filename :: rest =>
      progress_of filename (i + 1) total_files (fst (download filename))
        ++ all_progress download (S i) total_files rest
  end.

Definition succeeds (download : download_function) (filename : string) : Prop :=
  exists p, snd (download filename) = Returns p.

Definition is_progress (s : signal) : bool :=
  match s with ProgressSignal _ _ _ _ _ => true | _ => false end.
Definition is_finished (s : signal) : bool :=
  match s with FinishedSignal _ => true | _ => false end.
Definition is_error (s : signal) : bool :=
  match s with ErrorSignal _ => true | _ => false end.
Definition is_terminal (s : signal) : bool := is_finished s || is_error s.

Definition file_number_of (s : signal) : option nat :=
  match s with ProgressSignal _ n _ _ _ => Some n | _ => None end.

End DownloadWorker.

(** ** The download guard of the UI manager *)

Module UIManager.

Inductive status :=
| AnotherDownloadRunning
| PreparingDownload (first_filename : string)
| Downloading (filename : string) (file_number total_files : nat)
              (total_size downloaded_size : Z)
| DownloadCompleted (count : nat)
| DownloadFailed (message : error_message)
| AfterDownloadFailed (e : exception).

(** The fields of [UIManager] that take part: the guard flag, whether a
    worker is referenced, and the status messages emitted so far. *)
Record state := MkState {
  _is_download_in_progress : bool;
  _download_worker : bool;
  emitted : list status
}.

Definition initial : state := MkState false false [].

Definition emit (s : status) (ui : state) : state :=
  MkState (_is_download_in_progress ui) (_download_worker ui)
          (emitted ui ++ [s]).

(** What [start_background_download] does: rejects, fails on
    [filenames[0]] of an empty list, or starts a worker on the list. *)
Inductive start_result :=
| Rejected
| IndexErrorRaised
| Started (filenames : list string).

Definition start_background_download (filenames : list string) (ui : state)
  : state * start_result :=
  if _is_download_in_progress ui then
    (emit AnotherDownloadRunning ui, Rejected)
  else
    match filenames with
    | [] => (ui, IndexErrorRaised)
    | first :: _ =>
        let ui := emit (PreparingDownload first) ui in
        let ui := MkState true (_download_worker ui) (emitted ui) in
        let ui := MkState (_is_download_in_progress ui) true (emitted ui) in
        (ui, Started filenames)
    end.

Definition _on_download_progress_updated (filename : string)
    (file_number total_files : nat) (total_size downloaded_size : Z)
    (ui : state) : state :=
  emit (Downloading filename file_number total_files total_size
                    downloaded_size) ui.

(** [user_callback] is run last; an exception it raises is caught and
    reported.  [callback_error] is that exception, if any. *)
Definition _on_download_process_finished
    (downloaded_files : list AssetFetcher.file_path)
    (callback_error : option exception) (ui : state) : state :=
  let ui := emit (DownloadCompleted (length downloaded_files)) ui in
  let ui := MkState false false (emitted ui) in
  match callback_error with
  | Some e => emit (AfterDownloadFailed e) ui
  | None => ui
  end.

Definition _on_download_process_error (message : error_message) (ui : state)
  : state :=
  let ui := emit (DownloadFailed message) ui in
  MkState false false (emitted ui).

(** The slot connected to each signal. *)
Definition deliver (callback_error : option exception) (ui : state)
    (s : signal) : state :=
  match s with
  | ProgressSignal f n t ts ds => _on_download_progress_updated f n t ts ds ui
  | FinishedSignal paths => _on_download_process_finished paths callback_error ui
  | ErrorSignal m => _on_download_process_error m ui
  end.

(** A request to download, the run of the worker it starts, and the
    delivery of that run's signals. *)
Definition download_session (download : DownloadWorker.download_function)
    (cancel_at : option nat) (callback_error : option exception)
    (filenames : list string) (ui : state) : state * start_result :=
  match start_background_download filenames ui with
  | (ui', Started names) =>
      (fold_left (deliver callback_error)
                 (DownloadWorker.run download cancel_at names) ui',
       Started names)
  | other => other
  end.

End UIManager.

(** ** Per-entity update check *)

Module MainManager.
Section WithLib.
Context `{L : VersionLib}.

(** The status messages of [_check_single_entity_update] (each names
    the entity in the program's text). *)
Inductive status_message :=
| ServerUnreachable
| NewVersionAvailable (latest_tag : string)
| AlreadyLatest
| MalformedVersionTag (latest_tag : string)
| NoVersionInformation.

(** What the update source does for the entity's [server_url] when
    [check_repository_connection], [get_latest_release_tag] and
    [get_all_releases_info] are called.  The three calls are made
    outside any [try], and each of them parses the reference before
    its own [try]: what a call raises leaves the update check. *)
Record source := MkSource {
  check_repository_connection : result bool;
  get_latest_release_tag : result (option string);
  get_all_releases_info : result (option (list Release))
}.

Definition set_latest (vi : VersionInfo) (latest : string) : VersionInfo :=
  MkVersionInfo (current vi) latest (server_url vi).

(** The tag obtained: the latest release in normal mode, the highest
    version among all releases, pre-releases included, in developer
    mode. *)
Definition obtain_tag (src : source) (is_developer_mode : bool)
  : result (option string) :=
  if negb is_developer_mode then get_latest_release_tag src
  else
    match get_all_releases_info src with
    | Raises e => Raises e
    | Returns (Some (r :: rs)) =>
        Returns (HighestTag._get_highest_version_tag (r :: rs) true)
    | Returns _ => Returns None
    end.

(** The check returns its status message or raises; the second
    component is the descriptor it leaves behind (untouched when a
    call of the update source raises, since every assignment to it
    comes after those calls). *)
Definition _check_single_entity_update (src : source) (vi : VersionInfo)
    (is_developer_mode : bool) : result status_message * VersionInfo :=
  match check_repository_connection src with
  | Raises e => (Raises e, vi)
  | Returns reachable =>
      if negb reachable then
        (Returns ServerUnreachable, set_latest vi (current vi))
      else
        match obtain_tag src is_developer_mode with
        | Raises e => (Raises e, vi)
        | Returns (Some latest_tag) =>
            if PyStr.truthy latest_tag then
              match parse latest_tag with
              | Some _ =>
                  let vi := set_latest vi latest_tag in
                  if VersionInfoM.is_update_available vi
                  then (Returns (NewVersionAvailable latest_tag), vi)
                  else (Returns AlreadyLatest, vi)
              | None =>
                  (Returns (MalformedVersionTag latest_tag),
                   set_latest vi (current vi))
              end
            else (Returns NoVersionInformation, set_latest vi (current vi))
        | Returns None =>
            (Returns NoVersionInformation, set_latest vi (current vi))
        end
  end.

(** The invariant of a descriptor. *)
Definition latest_ok (vi : VersionInfo) : Prop :=
  is_Some (parse (latest_available vi)) \/ latest_available vi = current vi.
End WithLib.
End MainManager.

(** ** Settings store *)

Module Config.
Import PyStr.

(** A stored value.  [JOther] stands for any value that is not a
    string, a boolean, an integer or null (a float, a nested array or
    object), by its text. *)
Inductive json :=
| JNull
| JBool (b : bool)
| JInt (n : Z)
| JStr (s : string)
| JOther (text : string).

#[global] Instance json_eq_dec : EqDecision json.
Proof. solve_decision. Defined.

(** What [json.loads] returns for the whole file. *)
Inductive document :=
| DObject (m : gmap string json)
| DArray (items : list json)
| DScalar (v : json).

Inductive file_state :=
| FileMissing
| FileUnreadable
| FileCorrupt
| FileJson (d : document).

(** A write either replaces the file by the serialised mapping or fails
    and leaves something behind. *)
Inductive write_outcome :=
| WriteOk
| WriteFails (left_behind : file_state).

Record world := MkWorld { file : file_state; writes_done : nat }.

Record manager := MkManager {
  config : document;
  _initial_config_flag : bool
}.

(** The entries of [AppConstants] whose names start with [CONFIG_KEY_]
    or [DEFAULT_], in the order of the class body.  The default launch
    mode is [LaunchMode.STEAM], an integer enumeration member equal to
    1. *)
Definition AppConstants : list (string * json) :=
  [("CONFIG_KEY_APP_VERSION", JStr "app_version");
   ("CONFIG_KEY_TRANSLATION_VERSION", JStr "translation_version");
   ("CONFIG_KEY_LAUNCH_MODE", JStr "launch_mode");
   ("CONFIG_KEY_LOCAL_PATH", JStr "local_path");
   ("CONFIG_KEY_APP_UPDATE_SERVER_URL", JStr "app_server_url");
   ("CONFIG_KEY_TRANSLATION_UPDATE_SERVER_URL", JStr "translation_server_url");
   ("CONFIG_KEY_DEVELOPER_MODE", JStr "developer_mode");
   ("DEFAULT_APP_VERSION", JStr "1.0.0");
   ("DEFAULT_TRANSLATION_VERSION", JStr "0.0.0");
   ("DEFAULT_LAUNCH_MODE", JInt 1);
   ("DEFAULT_LOCAL_PATH", JStr "");
   ("DEFAULT_APP_UPDATE_SERVER_URL",
    JStr "PS2-Localization-JP/PlanetSide2-nihongo-mod-ui/");
   ("DEFAULT_TRANSLATION_UPDATE_SERVER_URL",
    JStr "PS2-Localization-JP/PlanetSide2-nihongo-mod-api/");
   ("DEFAULT_DEVELOPER_MODE", JBool false)].

(** [type(CONST).__dict__.get(name)] *)
Fixpoint class_get (table : list (string * json)) (name : string) : json :=
  match table with
  | [] => JNull
  | (k, v) :: rest => if String.eqb k name then v else class_get rest name
  end.

(** The mapping written by [_create_default_config]. *)
Definition default_config : gmap string json :=
  list_to_map
    [("app_version", JStr "1.0.0");
     ("translation_version", JStr "0.0.0");
     ("launch_mode", JInt 1);
     ("local_path", JStr "");
     ("app_server_url", JStr "PS2-Localization-JP/PlanetSide2-nihongo-mod-ui/");
     ("translation_server_url",
      JStr "PS2-Localization-JP/PlanetSide2-nihongo-mod-api/");
     ("developer_mode", JBool false)].

(** [name in self.config]; [None] is a [TypeError]. *)
Definition contains_key (d : document) (name : string) : option bool :=
  match d with
  | DObject m => Some (bool_decide (is_Some (m !! name)))
  | DArray items => Some (bool_decide (JStr name ∈ items))
  | DScalar (JStr s) => Some (has_substring name s)
  | DScalar _ => None
  end.

(** [self.config[name] = v]; [None] is a [TypeError]. *)
Definition set_item (d : document) (name : string) (v : json)
  : option document :=
  match d with
  | DObject m => Some (DObject (<[name := v]> m))
  | _ => None
  end.

Section Disk.
(** What the [k]-th write to the settings file does. *)
Variable disk : nat -> write_outcome.

Definition _save_config (cfg : document) (w : world) : bool * world :=
  match disk (writes_done w) with
  | WriteOk => (true, MkWorld (FileJson cfg) (S (writes_done w)))
  | WriteFails left_behind =>
      (false, MkWorld left_behind (S (writes_done w)))
  end.

(** One iteration of the loop over the class entries.  The state is
    the mapping, or [None] once an exception was raised. *)
Definition backfill_step (st : option document * world)
    (entry : string * json) : option document * world :=
  match st with
  | (None, _) => st
  | (Some cfg, w) =>
      let '(key, value) := entry in
      match strip_prefix "CONFIG_KEY_" key, value with
      | Some suffix, JStr name =>
          match contains_key cfg name with
          | None => (None, w)
          | Some true => st
          | Some false =>
              match set_item cfg name
                      (class_get AppConstants ("DEFAULT_" +:+ suffix)) with
              | None => (None, w)
              | Some cfg' => (Some cfg', snd (_save_config cfg' w))
              end
          end
      | _, _ => st
      end
  end.

Definition _create_default_config (w : world) : manager * world :=
  let cfg := DObject default_config in
  let '(saved, w') := _save_config cfg w in
  (MkManager cfg saved, w').

(** [_load_config], called once by [__init__] (the flag starts
    [False]). *)
Definition _load_config (w : world) : manager * world :=
  match file w with
  | FileJson d =>
      match fold_left backfill_step AppConstants (Some d, w) with
      | (Some cfg, w') => (MkManager cfg false, w')
      | (None, w') => _create_default_config w'
      end
  | _ => _create_default_config w
  end.

(** [set_config_value] with a value that is not a [LaunchMode]. *)
Definition set_config_value (key : string) (value : json) (mgr : manager)
    (w : world) : option (manager * world) :=
  match set_item (config mgr) key value with
  | Some cfg =>
      Some (MkManager cfg (_initial_config_flag mgr),
            snd (_save_config cfg w))
  | None => None
  end.

(** The stored value of a key, [self.config.get(key)]. *)
Definition stored (mgr : manager) (key : string) : option json :=
  match config mgr with
  | DObject m => m !! key
  | _ => None
  end.
End Disk.

(** The backfilled mapping in the words of the specification: the keys
    present keep their value, the recognized keys that are missing get
    their default. *)
Definition backfilled (m : gmap string json) : gmap string json :=
  m ∪ default_config.

Definition always_ok : nat -> write_outcome := fun _ => WriteOk.

End Config.

(** * Properties *)

(** ** The version library model satisfies the laws *)

Module Pep440Facts.
Import Pep440.

Lemma codes_inj (s t : string) : PyStr.codes s = PyStr.codes t -> s = t.
Proof.
  unfold PyStr.codes. intros H.
  rewrite <- (string_of_list_ascii_of_string s),
          <- (string_of_list_ascii_of_string t).
  f_equal. revert H.
  generalize (list_ascii_of_string s) (list_ascii_of_string t).
  intros l1. induction l1 as [|a l1 IH]; intros [|b l2] Hl;
    simpl in Hl; try discriminate; [reflexivity|].
  injection Hl as Ha Hr. f_equal; [|auto].
  rewrite <- (ascii_N_embedding a), <- (ascii_N_embedding b).
  now rewrite Ha.
Qed.

Lemma local_key_inj (p q : local_part) : local_key p = local_key q -> p = q.
Proof.
  destruct p as [n|s], q as [m|t]; simpl; intros H.
  - injection H as H1. f_equal. now apply N2Z.inj.
  - injection H as H1 _. lia.
  - injection H as H1 _. lia.
  - injection H as H1. f_equal. now apply codes_inj.
Qed.

Lemma map_local_key_inj (l1 l2 : list local_part) :
  List.map local_key l1 = List.map local_key l2 -> l1 = l2.
Proof.
  revert l2. induction l1 as [|p l1 IH]; intros [|q l2] H;
    simpl in H; try discriminate; [reflexivity|].
  inversion H as [[Hp Hl]]. f_equal; auto using local_key_inj.
Qed.

Lemma suffix_inj (a b : version) :
  suffix a = suffix b ->
  pre a = pre b /\ post a = post b /\ dev a = dev b.
Proof.
  unfold suffix.
  destruct (pre a) as [[[] ?]|], (post a), (dev a),
           (pre b) as [[[] ?]|], (post b), (dev b);
    simpl; intros H; inversion H; repeat split; try reflexivity;
    try (repeat f_equal; lia); try lia.
Qed.

Lemma cmpkey_inj (a b : version) : cmpkey a = cmpkey b -> a = b.
Proof.
  unfold cmpkey. intros H. inversion H as [[He Hr Hs Hl]].
  apply suffix_inj in Hs. destruct Hs as (Hp & Hq & Hd).
  apply map_local_key_inj in Hl.
  destruct a, b; simpl in *; congruence.
Qed.

Lemma gt_true (a b : version) :
  gt a b = true <-> lexico (cmpkey b) (cmpkey a).
Proof.
  unfold gt. destruct (trichotomyT lexico (cmpkey b) (cmpkey a)) as [[Hlt|Heq]|Hgt].
  - tauto.
  - split; [discriminate|]. intros Hlt. rewrite Heq in Hlt.
    now apply (irreflexivity lexico) in Hlt.
  - split; [discriminate|]. intros Hlt.
    exfalso. apply (irreflexivity lexico (cmpkey a)). now transitivity (cmpkey b).
Qed.

Lemma parse_version_empty : parse_version "" = None.
Proof. reflexivity. Qed.

End Pep440Facts.

#[global] Instance pep440_laws : VersionLaws pep440.
Proof.
  split; simpl.
  - intros a. destruct (Pep440.gt a a) eqn:E; [|reflexivity].
    apply Pep440Facts.gt_true in E. now apply (irreflexivity lexico) in E.
  - intros a b c Hab Hbc. apply Pep440Facts.gt_true.
    apply Pep440Facts.gt_true in Hab, Hbc. now transitivity (Pep440.cmpkey b).
  - intros a b Hne.
    destruct (trichotomyT lexico (Pep440.cmpkey a) (Pep440.cmpkey b))
      as [[Hlt|Heq]|Hgt].
    + right. now apply Pep440Facts.gt_true.
    + exfalso. apply Hne. now apply Pep440Facts.cmpkey_inj.
    + left. now apply Pep440Facts.gt_true.
  - apply Pep440Facts.parse_version_empty.
Qed.

(** ** Version descriptor: update available *)

Module VersionInfoFacts.
Import VersionInfoM.

(** C1.  When both strings of a descriptor parse, [is_update_available]
    is true exactly when the parsed latest version differs from the
    parsed current one, whichever is greater; when either string does
    not parse, it returns false (no exception leaves the property). *)
Theorem is_update_available_iff_versions_differ
    (L : VersionLib) (vi : VersionInfo) :
  (forall latest cur,
     parse (latest_available vi) = Some latest ->
     parse (current vi) = Some cur ->
     (is_update_available vi = true <-> latest <> cur)) /\
  (parse (latest_available vi) = None \/ parse (current vi) = None ->
   is_update_available vi = false).
Proof.
  unfold is_update_available. split.
  - intros latest cur -> ->. apply bool_decide_eq_true.
  - intros [-> | Hc]; [reflexivity|].
    destruct (parse (latest_available vi)); [now rewrite Hc | reflexivity].
Qed.

(** A newer tag, a downgrade and a malformed tag, for PEP 440 versions. *)
Lemma is_update_available_iff_versions_differ_witness :
  (@is_update_available pep440 (MkVersionInfo "1.0.0" "v1.2.0" None) = true <->
     Pep440.parse_version "v1.2.0" <> Pep440.parse_version "1.0.0") /\
  @is_update_available pep440 (MkVersionInfo "1.0.0" "not-a-version" None)
    = false.
Proof.
  pose proof (is_update_available_iff_versions_differ pep440
                (MkVersionInfo "1.0.0" "v1.2.0" None)) as [H _].
  pose proof (is_update_available_iff_versions_differ pep440
                (MkVersionInfo "1.0.0" "not-a-version" None)) as [_ H'].
  split.
  - specialize (H _ _ eq_refl eq_refl). simpl in H.
    split.
    + intros Hu. vm_compute. discriminate.
    + intros _. apply H. vm_compute. discriminate.
  - apply H'. left. vm_compute. reflexivity.
Defined.

(** Equal up to formatting: a leading [v], trailing zeros, case. *)
Example same_version_other_spelling :
  @is_update_available pep440 (MkVersionInfo "1.0.0" "v1.0" None) = false /\
  @is_update_available pep440 (MkVersionInfo "1.0rc1" " V1.0.0-RC.1 " None)
    = false.
Proof. split; vm_compute; reflexivity. Qed.

(** A downgrade counts as an update. *)
Example downgrade_is_update :
  @is_update_available pep440 (MkVersionInfo "2.0.0" "1.9.0" None) = true.
Proof. vm_compute. reflexivity. Qed.

End VersionInfoFacts.

(** ** Highest version tag *)

Module HighestTagFacts.
Import HighestTag.

Section WithLaws.
Context `{L : VersionLib} {laws : VersionLaws L}.

Lemma version_gt_asym (a b : Version) :
  version_gt a b = true -> version_gt b a = false.
Proof.
  intros Hab. destruct (version_gt b a) eqn:Hba; [|reflexivity].
  pose proof (version_gt_trans _ _ _ Hab Hba) as Haa.
  now rewrite version_gt_irrefl in Haa.
Qed.

(** Whoever exceeds the best so far exceeds all it was not exceeded by. *)
Lemma version_gt_over (new best other : Version) :
  version_gt new best = true ->
  version_gt other best = false ->
  version_gt new other = true.
Proof.
  intros Hnb Hob. destruct (decide (other = best)) as [->|Hne]; [exact Hnb|].
  destruct (version_gt_connected _ _ Hne) as [H|H]; [congruence|].
  exact (version_gt_trans _ _ _ Hnb H).
Qed.

(** The loop invariant, over the releases seen so far. *)
Definition invariant (incl : bool) (seen : list Release) (st : state) : Prop :=
  match st with
  | (None, None) => forall r, r ∈ seen -> candidate incl r = None
  | (Some v, Some t) =>
      exists i r,
        seen !! i = Some r /\ tag_name r = t /\ candidate incl r = Some v /\
        forall j r' v',
          seen !! j = Some r' -> candidate incl r' = Some v' ->
          version_gt v' v = false /\ (j < i -> version_gt v v' = true)
  | _ => False
  end.

Lemma step_skips (incl : bool) (st : state) (r : Release) :
  candidate incl r = None -> step incl st r = st.
Proof.
  unfold candidate, step. destruct (parse (tag_name r)); [|reflexivity].
  destruct (negb incl && is_prerelease v); [reflexivity|discriminate].
Qed.

Lemma step_takes (incl : bool) (st : state) (r : Release) (v : Version) :
  candidate incl r = Some v ->
  step incl st r =
    match fst st with
    | None => (Some v, Some (tag_name r))
    | Some best =>
        if version_gt v best then (Some v, Some (tag_name r)) else st
    end.
Proof.
  unfold candidate, step. destruct (parse (tag_name r)); [|discriminate].
  destruct (negb incl && is_prerelease v0); [discriminate|].
  now intros [= ->].
Qed.

Lemma invariant_step (incl : bool) (seen : list Release) (st : state)
    (r : Release) :
  invariant incl seen st -> invariant incl (seen ++ [r]) (step incl st r).
Proof.
  intros Hinv. destruct (candidate incl r) as [v|] eqn:Hc.
  - rewrite (step_takes _ _ _ _ Hc).
    destruct st as [[best|] [t|]]; simpl in *; try contradiction.
    + destruct Hinv as (i & r0 & Hi & Ht & Hbest & Hall).
      destruct (version_gt v best) eqn:Hgt.
      * exists (length seen), r. repeat split.
        -- now rewrite lookup_app_r, Nat.sub_diag by lia.
        -- exact Hc.
        -- apply lookup_snoc_Some in H as [[Hj Hl]|[-> <-]].
           ++ destruct (Hall _ _ _ Hl H0) as [Hle _].
              apply version_gt_asym. eauto using version_gt_over.
           ++ rewrite Hc in H0. injection H0 as <-. apply version_gt_irrefl.
        -- intros Hlt. apply lookup_snoc_Some in H as [[Hj Hl]|[-> <-]]; [|lia].
           destruct (Hall _ _ _ Hl H0) as [Hle _].
           eauto using version_gt_over.
      * exists i, r0. repeat split.
        -- now apply lookup_app_l_Some.
        -- exact Ht.
        -- exact Hbest.
        -- apply lookup_snoc_Some in H as [[Hj Hl]|[-> <-]].
           ++ now destruct (Hall _ _ _ Hl H0).
           ++ rewrite Hc in H0. now injection H0 as <-.
        -- intros Hlt. apply lookup_snoc_Some in H as [[Hj Hl]|[-> <-]].
           ++ destruct (Hall _ _ _ Hl H0) as [_ Hs]. auto.
           ++ apply lookup_lt_Some in Hi. lia.
    + exists (length seen), r. repeat split.
      * now rewrite lookup_app_r, Nat.sub_diag by lia.
      * exact Hc.
      * apply lookup_snoc_Some in H as [[Hj Hl]|[-> <-]].
        -- apply list_elem_of_lookup_2 in Hl. apply Hinv in Hl. congruence.
        -- rewrite Hc in H0. injection H0 as <-. apply version_gt_irrefl.
      * intros Hlt. apply lookup_snoc_Some in H as [[Hj Hl]|[-> <-]]; [|lia].
        apply list_elem_of_lookup_2 in Hl. apply Hinv in Hl. congruence.
  - rewrite (step_skips _ _ _ Hc).
    destruct st as [[best|] [t|]]; simpl in *; try contradiction.
    + destruct Hinv as (i & r0 & Hi & Ht & Hbest & Hall).
      exists i, r0. repeat split; try assumption.
      * now apply lookup_app_l_Some.
      * apply lookup_snoc_Some in H as [[Hj Hl]|[-> <-]]; [|congruence].
        now destruct (Hall _ _ _ Hl H0).
      * intros Hlt. apply lookup_snoc_Some in H as [[Hj Hl]|[-> <-]];
          [|congruence].
        destruct (Hall _ _ _ Hl H0) as [_ Hs]. auto.
    + intros r' [Hr'| ->%list_elem_of_singleton]%elem_of_app; auto.
Qed.

Lemma invariant_fold (incl : bool) (releases : list Release) :
  invariant incl releases (fold_left (step incl) releases (None, None)).
Proof.
  induction releases as [|r seen IH] using rev_ind.
  - simpl. intros r Hr. now apply elem_of_nil in Hr.
  - rewrite fold_left_app. simpl. now apply invariant_step.
Qed.

Lemma candidate_tag_truthy (incl : bool) (r : Release) (v : Version) :
  candidate incl r = Some v -> PyStr.truthy (tag_name r) = true.
Proof.
  unfold candidate. destruct (tag_name r) eqn:Ht; [|reflexivity].
  now rewrite parse_empty.
Qed.

Lemma highest_tag_meets_spec (releases : list Release) (incl : bool) :
  highest_version_tag_spec releases incl
    (_get_highest_version_tag releases incl).
Proof.
  unfold _get_highest_version_tag.
  pose proof (invariant_fold incl releases) as Hinv.
  destruct (fold_left (step incl) releases (None, None)) as [[v|] [t|]];
    simpl in *; try contradiction.
  - destruct Hinv as (i & r & Hi & Ht & Hc & Hall).
    rewrite <- Ht, (candidate_tag_truthy _ _ _ Hc), Ht.
    simpl. exists i, r, v. auto.
  - exact Hinv.
Qed.
End WithLaws.

Definition tagged (t : string) : Release := MkRelease t false "".

(** C2.  For every version library obeying the laws, every list of
    releases and either flag value, [_get_highest_version_tag] returns
    the tag of the first greatest candidate (entries that do not parse
    are skipped, pre-releases are left out unless included), and none
    when there is no candidate; and for PEP 440 versions it returns the
    tags of the specification's four examples. *)
Theorem highest_version_tag_correct :
  (forall (L : VersionLib), VersionLaws L ->
     forall releases incl,
       highest_version_tag_spec releases incl
         (_get_highest_version_tag releases incl)) /\
  @_get_highest_version_tag pep440
    [tagged "v1.0.0"; tagged "v1.2.0"; tagged "v1.1.0-beta"] false
    = Some "v1.2.0" /\
  @_get_highest_version_tag pep440
    [tagged "v1.0.0"; tagged "v1.2.0"; tagged "v1.1.0-beta"] true
    = Some "v1.2.0" /\
  @_get_highest_version_tag pep440
    [tagged "v1.0.0"; tagged "v1.2.0-beta"] false = Some "v1.0.0" /\
  @_get_highest_version_tag pep440
    [tagged "v1.0.0"; tagged "v1.2.0-beta"] true = Some "v1.2.0-beta".
Proof.
  split; [|repeat split; vm_compute; reflexivity].
  intros L laws releases incl. apply highest_tag_meets_spec.
Qed.

Lemma highest_version_tag_correct_witness :
  @highest_version_tag_spec pep440
    [tagged "v1.0"; tagged "junk"; tagged "1.0.0"; tagged "v0.9"] false
    (Some "v1.0").
Proof.
  exact (proj1 highest_version_tag_correct pep440 pep440_laws
           [tagged "v1.0"; tagged "junk"; tagged "1.0.0"; tagged "v0.9"]
           false).
Defined.

(** Ties keep the first tag; unparseable tags alone give nothing. *)
Example ties_keep_first :
  @_get_highest_version_tag pep440 [tagged "v1.0"; tagged "1.0.0"] true
    = Some "v1.0" /\
  @_get_highest_version_tag pep440 [tagged "latest"; tagged "nightly"] true
    = None /\
  @_get_highest_version_tag pep440 [tagged "1.0rc1"; tagged "2.0.dev3"] false
    = None.
Proof. repeat split; vm_compute; reflexivity. Qed.

End HighestTagFacts.

(** ** Facts about the string primitives *)

Module PyStrFacts.
Import PyStr.

Lemma app_cons (c : ascii) (a b : string) :
  String c a +:+ b = String c (a +:+ b).
Proof. reflexivity. Qed.

Lemma app_empty (b : string) : EmptyString +:+ b = b.
Proof. reflexivity. Qed.

Lemma eqc_refl (c : ascii) : eqc c c = true.
Proof. apply Ascii.eqb_refl. Qed.

Lemma all_app (p : ascii -> bool) (a b : string) :
  all p (a +:+ b) = all p a && all p b.
Proof.
  induction a as [|c a IH]; [reflexivity|].
  rewrite app_cons. simpl. now rewrite IH, andb_assoc.
Qed.

Lemma all_impl (p q : ascii -> bool) (s : string) :
  (forall c, p c = true -> q c = true) -> all p s = true -> all q s = true.
Proof.
  intros Hpq. induction s as [|c s IH]; [reflexivity|]. simpl.
  intros [Hc Hs]%andb_true_iff. now rewrite (Hpq _ Hc), IH.
Qed.

(** A string whose characters all differ from [c] does not hold [c]. *)
Lemma contains_none (q : ascii -> bool) (c : ascii) (s : string) :
  (forall x, q x = true -> eqc x c = false) ->
  all q s = true -> contains c s = false.
Proof.
  intros Hq. induction s as [|x s IH]; [reflexivity|]. simpl.
  intros [Hx Hs]%andb_true_iff. now rewrite (Hq _ Hx), IH.
Qed.

Lemma remove_none (c : ascii) (s : string) :
  contains c s = false -> remove c s = s.
Proof.
  induction s as [|x s IH]; [reflexivity|]. simpl.
  intros [Hx Hs]%orb_false_iff. now rewrite Hx, IH.
Qed.

Lemma partition_none (c : ascii) (s : string) :
  contains c s = false -> partition c s = None.
Proof.
  induction s as [|x s IH]; [reflexivity|]. simpl.
  intros [Hx Hs]%orb_false_iff. now rewrite Hx, IH.
Qed.

Lemma split_none (c : ascii) (s : string) :
  contains c s = false -> split c s = [s].
Proof.
  induction s as [|x s IH]; [reflexivity|]. simpl.
  intros [Hx Hs]%orb_false_iff. now rewrite Hx, IH.
Qed.

Lemma split_app (c : ascii) (a b : string) :
  contains c a = false -> split c (a +:+ String c b) = a :: split c b.
Proof.
  induction a as [|x a IH].
  - intros _. rewrite app_empty. simpl. now rewrite eqc_refl.
  - intros [Hx Ha]%orb_false_iff.
    rewrite app_cons. simpl. now rewrite Hx, IH.
Qed.

Lemma split_not_nil (c : ascii) (s : string) : split c s <> [].
Proof.
  induction s as [|x s IH]; [discriminate|]. simpl.
  destruct (eqc x c); [discriminate|]. now destruct (split c s).
Qed.

Lemma lstrip_keep (p : ascii -> bool) (c : ascii) (s : string) :
  p c = false -> lstrip p (String c s) = String c s.
Proof. intros H. simpl. now rewrite H. Qed.

Lemma rstrip_keep (p : ascii -> bool) (s : string) :
  all (fun c => negb (p c)) s = true -> rstrip p s = s.
Proof.
  induction s as [|c s IH]; [reflexivity|]. simpl.
  intros [Hc Hs]%andb_true_iff. rewrite (IH Hs).
  apply negb_true_iff in Hc. rewrite Hc. now destruct s.
Qed.

(** Trailing characters are only stripped from the end. *)
Lemma rstrip_app_keep (p : ascii -> bool) (a b : string) :
  truthy b = true -> rstrip p b = b -> rstrip p (a +:+ b) = a +:+ b.
Proof.
  intros Hb Hr. induction a as [|c a IH].
  - now rewrite app_empty.
  - rewrite app_cons. simpl. rewrite IH.
    destruct a; [rewrite app_empty; now destruct b | now rewrite app_cons].
Qed.

Lemma length_app (a b : string) :
  String.length (a +:+ b) = String.length a + String.length b.
Proof.
  induction a as [|c a IH]; [reflexivity|].
  rewrite app_cons. simpl. now rewrite IH.
Qed.

Lemma take_app (a b : string) : take (String.length a) (a +:+ b) = a.
Proof.
  induction a as [|c a IH]; [now destruct b|].
  rewrite app_cons. simpl. now rewrite IH.
Qed.

Lemma drop_last_app (a b : string) :
  drop_last (String.length b) (a +:+ b) = a.
Proof.
  unfold drop_last. rewrite length_app.
  replace (String.length a + String.length b - String.length b)
    with (String.length a) by lia.
  apply take_app.
Qed.

Lemma lower_app (a b : string) : lower (a +:+ b) = lower a +:+ lower b.
Proof.
  induction a as [|c a IH]; [reflexivity|].
  rewrite !app_cons. simpl. now rewrite IH, app_cons.
Qed.

Lemma strip_suffix_cons (p : string) (c : ascii) (r : string) :
  strip_suffix p (String c r) =
    if String.eqb (String c r) p then Some EmptyString
    else match strip_suffix p r with
         | Some r' => Some (String c r')
         | None => None
         end.
Proof. reflexivity. Qed.

Lemma endswith_app (a p : string) : endswith p (a +:+ p) = true.
Proof.
  unfold endswith. induction a as [|c a IH].
  - rewrite app_empty. destruct p as [|x p]; [reflexivity|].
    now rewrite strip_suffix_cons, String.eqb_refl.
  - rewrite app_cons, strip_suffix_cons.
    destruct (String.eqb (String c (a +:+ p)) p); [reflexivity|].
    now destruct (strip_suffix p (a +:+ p)).
Qed.

(** Dropping the empty parts makes stripping the separator from both
    ends redundant. *)
Definition non_empty (l : list string) : list string := List.filter truthy l.

Lemma lstrip_parts (c : ascii) (s : string) :
  non_empty (split c (lstrip (fun x => eqc x c) s)) = non_empty (split c s).
Proof.
  induction s as [|x s IH]; [reflexivity|]. simpl.
  destruct (eqc x c) eqn:Hx; [exact IH|]. simpl. now rewrite Hx.
Qed.

Lemma rstrip_parts_aux (c : ascii) (s : string) :
  hd EmptyString (split c (rstrip (fun x => eqc x c) s))
    = hd EmptyString (split c s) /\
  non_empty (tl (split c (rstrip (fun x => eqc x c) s)))
    = non_empty (tl (split c s)).
Proof.
  induction s as [|x s [IHh IHt]]; [split; reflexivity|]. simpl.
  pose proof (split_not_nil c s) as Hs.
  destruct (rstrip (fun x => eqc x c) s) as [|y r'] eqn:Hr.
  - simpl in IHh, IHt. destruct (split c s) as [|h t]; [contradiction|].
    simpl in IHh, IHt. subst h.
    destruct (eqc x c) eqn:Hx; simpl; rewrite ?Hx; simpl; auto.
  - remember (String y r') as R eqn:HR. simpl.
    pose proof (split_not_nil c R) as Hs'.
    destruct (split c R) as [|h' t']; [contradiction|].
    destruct (split c s) as [|h t]; [contradiction|].
    simpl in IHh, IHt. subst h'.
    destruct (eqc x c) eqn:Hx; simpl; [|auto].
    split; [reflexivity|]. unfold non_empty in *. simpl. now rewrite IHt.
Qed.

Lemma rstrip_parts (c : ascii) (s : string) :
  non_empty (split c (rstrip (fun x => eqc x c) s)) = non_empty (split c s).
Proof.
  destruct (rstrip_parts_aux c s) as [Hh Ht].
  pose proof (split_not_nil c s) as Hs.
  pose proof (split_not_nil c (rstrip (fun x => eqc x c) s)) as Hs'.
  destruct (split c s) as [|h t]; [contradiction|].
  destruct (split c (rstrip (fun x => eqc x c) s)) as [|h' t']; [contradiction|].
  simpl in Hh, Ht. subst h'. unfold non_empty in *. simpl. now rewrite Ht.
Qed.

Lemma strip_parts (c : ascii) (s : string) :
  non_empty (split c (strip (fun x => eqc x c) s)) = non_empty (split c s).
Proof. unfold strip. now rewrite rstrip_parts, lstrip_parts. Qed.

End PyStrFacts.

(** ** Facts about URL splitting *)

Module UrlFacts.
Import PyStr PyStrFacts Url.

(** The characters of owner and repository names. *)
Definition name_char (c : ascii) : bool :=
  is_alnum c || eqc c "-" || eqc c "_" || eqc c ".".

Definition is_name (s : string) : bool := truthy s && all name_char s.

(** Names separated by slashes. *)
Definition path_char (c : ascii) : bool := name_char c || eqc c "/".

Lemma path_char_plain (c : ascii) :
  path_char c = true ->
  is_c0_control_or_space c = false /\ eqc c ":" = false /\
  eqc c "?" = false /\ eqc c "#" = false /\ eqc c ";" = false /\
  eqc c "009" = false /\ eqc c "010" = false /\ eqc c "013" = false.
Proof.
  destruct c as [[] [] [] [] [] [] [] []]; vm_compute; intros H;
    try discriminate H; repeat split.
Qed.

Lemma name_char_path_char (c : ascii) : name_char c = true -> path_char c = true.
Proof. unfold path_char. now intros ->. Qed.

Lemma name_char_not_slash (c : ascii) : name_char c = true -> eqc c "/" = false.
Proof.
  destruct c as [[] [] [] [] [] [] [] []]; vm_compute; intros H;
    try discriminate H; reflexivity.
Qed.

Lemma after_double_slash_none (c : ascii) (s : string) :
  eqc c "/" = false -> after_double_slash (String c s) = None.
Proof.
  destruct c as [[] [] [] [] [] [] [] []]; vm_compute; intros H;
    try discriminate H; reflexivity.
Qed.

Lemma partition_app (c : ascii) (a b : string) :
  contains c a = false -> partition c (a +:+ String c b) = Some (a, b).
Proof.
  induction a as [|x a IH].
  - intros _. rewrite app_empty. simpl. now rewrite eqc_refl.
  - intros [Hx Ha]%orb_false_iff. rewrite app_cons. simpl.
    now rewrite Hx, IH.
Qed.

Lemma span_app (p : ascii -> bool) (a : string) (c : ascii) (b : string) :
  all p a = true -> p c = false -> span p (a +:+ String c b) = (a, String c b).
Proof.
  intros Ha Hc. induction a as [|x a IH].
  - rewrite app_empty. simpl. now rewrite Hc.
  - simpl in Ha. apply andb_true_iff in Ha as [Hx Ha].
    rewrite app_cons. simpl. now rewrite Hx, IH.
Qed.

Section WithChecks.
Context `{NC : NetlocChecks}.

Lemma urlparse_empty :
  urlparse "" = Ok (MkParseResult "" "" "" "" "" "").
Proof. reflexivity. Qed.

(** A relative path of names has neither scheme nor host. *)
Lemma urlparse_plain (c : ascii) (s : string) :
  name_char c = true -> all path_char s = true ->
  urlparse (String c s) = Ok (MkParseResult "" "" (String c s) "" "" "").
Proof.
  intros Hc Hs.
  assert (Hall : all path_char (String c s) = true).
  { simpl. now rewrite (name_char_path_char _ Hc), Hs. }
  pose proof (path_char_plain c (name_char_path_char _ Hc))
    as (Hc0 & _).
  unfold urlparse, urlsplit.
  rewrite (lstrip_keep _ _ _ Hc0).
  rewrite (remove_none "009"), (remove_none "013"), (remove_none "010");
    try (eapply contains_none; [|exact Hall]; intros x Hx;
         now destruct (path_char_plain x Hx) as (?&?&?&?&?&?&?&?)).
  unfold split_scheme. rewrite partition_none
    by (eapply contains_none; [|exact Hall]; intros x Hx;
        now destruct (path_char_plain x Hx) as (?&?&?&?&?&?&?&?)).
  rewrite (after_double_slash_none _ _ (name_char_not_slash _ Hc)).
  unfold split_once. rewrite !partition_none
    by (eapply contains_none; [|exact Hall]; intros x Hx;
        now destruct (path_char_plain x Hx) as (?&?&?&?&?&?&?&?)).
  change (checknetloc "") with true.
  cbv beta iota zeta delta [negb].
  replace (contains ";" (String c s)) with false
    by (symmetry; eapply contains_none; [|exact Hall]; intros x Hx;
        now destruct (path_char_plain x Hx) as (?&?&?&?&?&?&?&?)).
  rewrite andb_false_r. reflexivity.
Qed.

(** A full URL of the hosting service. *)
Lemma urlparse_github (s : string) :
  all path_char s = true ->
  urlparse ("https://github.com/" +:+ s)
    = Ok (MkParseResult "https" "github.com" (String "/" s) "" "" "").
Proof.
  intros Hs.
  set (q := fun x => path_char x || eqc x ":").
  assert (Hq : forall x, q x = true ->
            is_c0_control_or_space x = false /\ eqc x "?" = false /\
            eqc x "#" = false /\ eqc x ";" = false /\
            eqc x "009" = false /\ eqc x "010" = false /\ eqc x "013" = false).
  { intros x. unfold q, path_char, name_char.
    destruct x as [[] [] [] [] [] [] [] []]; vm_compute; intros Hx;
      try discriminate Hx; repeat split. }
  assert (Hall : all q ("https://github.com/" +:+ s) = true).
  { rewrite all_app. apply andb_true_iff. split; [reflexivity|].
    eapply all_impl; [|exact Hs]. intros x Hx. unfold q. now rewrite Hx. }
  assert (Htail : all path_char (String "/" s) = true).
  { simpl. now rewrite Hs. }
  unfold urlparse, urlsplit.
  change ("https://github.com/" +:+ s)
    with (String "h" ("ttps://github.com/" +:+ s)) at 1.
  rewrite (lstrip_keep _ "h") by reflexivity.
  change (String "h" ("ttps://github.com/" +:+ s))
    with ("https://github.com/" +:+ s).
  rewrite (remove_none "009"), (remove_none "013"), (remove_none "010");
    try (eapply contains_none; [|exact Hall]; intros x Hx;
         now destruct (Hq x Hx) as (?&?&?&?&?&?&?)).
  unfold split_scheme.
  change ("https://github.com/" +:+ s)
    with ("https" +:+ String ":" ("//github.com/" +:+ s)).
  rewrite partition_app by reflexivity.
  cbv beta iota zeta delta [after_double_slash splitnetloc].
  change (is_ascii "h" && is_alpha "h" && all is_scheme_char "https")
    with true.
  cbv iota.
  change ("//github.com/" +:+ s)
    with (String "/" (String "/" ("github.com" +:+ String "/" s))).
  cbv beta iota.
  rewrite span_app by reflexivity.
  cbv beta iota zeta.
  change (netloc_brackets_ok "github.com") with true.
  cbv beta iota zeta delta [negb].
  unfold split_once. rewrite !partition_none
    by (eapply contains_none; [|exact Htail]; intros x Hx;
        now destruct (path_char_plain x Hx) as (?&?&?&?&?&?&?&?)).
  change (checknetloc "github.com") with true.
  cbv beta iota zeta.
  replace (contains ";" (String "/" s)) with false
    by (symmetry; eapply contains_none; [|exact Htail]; intros x Hx;
        now destruct (path_char_plain x Hx) as (?&?&?&?&?&?&?&?)).
  rewrite andb_false_r. reflexivity.
Qed.

End WithChecks.
End UrlFacts.

(** ** Repository reference parser of the release scraper *)

Module RepoParserFacts.
Import PyStr PyStrFacts Url UrlFacts.

(** The non-empty segments of a path. *)
Definition segments (path : string) : list string :=
  non_empty (split "/" path).

(** Shape (a): no scheme, no host, exactly two non-empty segments. *)
Definition shape_a (p : ParseResult) : Prop :=
  scheme p = "" /\ netloc p = "" /\ length (segments (path p)) = 2.

(** Shape (b): the network location (all that stands between [//]
    and the path: user information, host and port) reads [github.com]
    in any letter case, and there are at least two non-empty
    segments. *)
Definition shape_b (p : ParseResult) : Prop :=
  lower (netloc p) = "github.com" /\ 2 <= length (segments (path p)).

(** The rule as the specification states it: a pair is returned exactly
    when the input has shape (a) or (b). *)
Definition stated_rule `{NetlocChecks} (s : string) : Prop :=
  forall p, urlparse s = Ok p ->
    ((exists info, GitHubReleaseScraper._parse_github_repo_url s = Ok (Some info))
     <-> (shape_a p \/ shape_b p)).

(** What the parser makes of a parsed URL. *)
Definition accepted (p : ParseResult) : option RepoInfo :=
  match GitHubReleaseScraper.candidates p with
  | (Some o, Some raw) =>
      if negb (truthy o) || negb (truthy raw) then None
      else
        let repo := GitHubReleaseScraper.strip_git raw in
        if negb (truthy o) || negb (truthy repo) then None
        else Some (MkRepoInfo o repo)
  | _ => None
  end.

Lemma truthy_false (s : string) : truthy s = false <-> s = "".
Proof. destruct s; simpl; split; congruence. Qed.

Lemma truthy_true (s : string) : truthy s = true <-> s <> "".
Proof. destruct s; simpl; split; congruence. Qed.

Lemma scraper_path_parts (p : ParseResult) :
  GitHubReleaseScraper.path_parts p = segments (path p).
Proof. apply (strip_parts "/"). Qed.

Lemma segments_truthy (path x : string) :
  In x (segments path) -> truthy x = true.
Proof. unfold segments, non_empty. now intros [_ H]%filter_In. Qed.

Section WithChecks.
Context `{NC : NetlocChecks}.

Lemma scraper_unfold (s : string) :
  GitHubReleaseScraper._parse_github_repo_url s =
    if negb (truthy s) then Ok None
    else match urlparse s with
         | ValueError => ValueError
         | Ok p => Ok (accepted p)
         end.
Proof.
  unfold GitHubReleaseScraper._parse_github_repo_url, accepted.
  destruct (negb (truthy s)); [reflexivity|].
  destruct (urlparse s) as [p|]; [|reflexivity].
  destruct (GitHubReleaseScraper.candidates p) as [[o|] [raw|]]; try reflexivity.
  destruct (negb (truthy o) || negb (truthy raw)); [reflexivity|].
  now destruct (negb (truthy o) || negb (truthy (GitHubReleaseScraper.strip_git raw))).
Qed.

End WithChecks.

(** The first two segments decide; the repository name must survive the
    removal of a [.git] suffix. *)
Lemma accepted_iff (p : ParseResult) (info : RepoInfo) :
  accepted p = Some info <->
  (shape_a p \/ shape_b p) /\
  exists o raw rest,
    segments (path p) = o :: raw :: rest /\
    GitHubReleaseScraper.strip_git raw <> "" /\
    info = MkRepoInfo o (GitHubReleaseScraper.strip_git raw).
Proof.
  unfold accepted, GitHubReleaseScraper.candidates, shape_a, shape_b.
  rewrite scraper_path_parts.
  pose proof (segments_truthy (path p)) as Hne.
  destruct (segments (path p)) as [|o [|raw rest]] eqn:Hseg.
  - (* no segment *)
    destruct (negb (truthy (scheme p)) && negb (truthy (netloc p)));
      [|destruct (String.eqb (lower (netloc p)) "github.com")]; simpl;
      (split; [discriminate|]); intros [_ (?&?&?&?&_)]; discriminate.
  - (* one segment *)
    destruct (negb (truthy (scheme p)) && negb (truthy (netloc p)));
      [|destruct (String.eqb (lower (netloc p)) "github.com")]; simpl;
      (split; [discriminate|]); intros [_ (?&?&?&?&_)]; discriminate.
  - assert (Ho : truthy o = true) by (apply Hne; simpl; auto).
    assert (Hraw : truthy raw = true) by (apply Hne; simpl; auto).
    assert (Hfinal :
      (if negb (truthy o) || negb (truthy raw) then None
       else if negb (truthy o)
               || negb (truthy (GitHubReleaseScraper.strip_git raw))
            then None
            else Some (MkRepoInfo o (GitHubReleaseScraper.strip_git raw)))
        = Some info <->
      exists o' raw' rest',
        o :: raw :: rest = o' :: raw' :: rest' /\
        GitHubReleaseScraper.strip_git raw' <> "" /\
        info = MkRepoInfo o' (GitHubReleaseScraper.strip_git raw')).
    { rewrite Ho, Hraw. cbn [negb orb].
      destruct (truthy (GitHubReleaseScraper.strip_git raw)) eqn:Hrepo;
        cbn [negb].
      - apply truthy_true in Hrepo. split.
        + intros [= <-]. exists o, raw, rest. auto.
        + intros (o' & raw' & rest' & [= <- <- <-] & _ & ->). reflexivity.
      - apply truthy_false in Hrepo. split; [discriminate|].
        intros (o' & raw' & rest' & [= <- <- <-] & Hn & _). contradiction. }
    destruct (truthy (scheme p)) eqn:Hsch; cbn [negb andb].
    + (* a scheme *)
      apply truthy_true in Hsch.
      destruct (String.eqb (lower (netloc p)) "github.com") eqn:Hhost.
      * apply String.eqb_eq in Hhost. cbn [at_least_two].
        rewrite Hfinal. split; [intros H; split; [right; split; [assumption|simpl; lia]|exact H] | now intros [_ H]].
      * apply String.eqb_neq in Hhost.
        split; [discriminate|]. intros [[(Hs & _)|(Hh & _)] _]; congruence.
    + apply truthy_false in Hsch.
      destruct (truthy (netloc p)) eqn:Hnl; cbn [negb].
      * (* a host *)
        apply truthy_true in Hnl.
        destruct (String.eqb (lower (netloc p)) "github.com") eqn:Hhost.
        -- apply String.eqb_eq in Hhost. cbn [at_least_two].
           rewrite Hfinal. split; [intros H; split; [right; split; [assumption|simpl; lia]|exact H] | now intros [_ H]].
        -- apply String.eqb_neq in Hhost.
           split; [discriminate|]. intros [[(_ & Hn & _)|(Hh & _)] _]; congruence.
      * (* neither scheme nor host *)
        apply truthy_false in Hnl.
        destruct rest as [|x rest]; cbn [exactly_two].
        -- rewrite Hfinal. split; [intros H; split; [left; auto|exact H] | now intros [_ H]].
        -- split; [discriminate|]. intros [[(_ & _ & Hl)|(Hh & _)] _].
           ++ simpl in Hl. lia.
           ++ rewrite Hnl in Hh. discriminate.
Qed.

Lemma strip_git_suffix (x : string) :
  GitHubReleaseScraper.strip_git (x +:+ ".git") = x /\
  GitHubReleaseScraper.strip_git (x +:+ ".GIT") = x.
Proof.
  unfold GitHubReleaseScraper.strip_git. rewrite !lower_app.
  change (lower ".git") with ".git". change (lower ".GIT") with ".git".
  rewrite endswith_app.
  split; [apply (drop_last_app x ".git") | apply (drop_last_app x ".GIT")].
Qed.

(** The segments of [owner/repo], with or without a leading slash. *)
Lemma segments_of_names (o r : string) :
  is_name o = true -> is_name r = true ->
  segments (o +:+ String "/" r) = [o; r] /\
  segments (String "/" (o +:+ String "/" r)) = [o; r].
Proof.
  unfold is_name. intros [Ho1 Ho2]%andb_true_iff [Hr1 Hr2]%andb_true_iff.
  assert (Hco : contains "/" o = false).
  { eapply contains_none; [|exact Ho2]. apply name_char_not_slash. }
  assert (Hcr : contains "/" r = false).
  { eapply contains_none; [|exact Hr2]. apply name_char_not_slash. }
  assert (H1 : segments (o +:+ String "/" r) = [o; r]).
  { unfold segments, non_empty. rewrite split_app, split_none by assumption.
    simpl. now rewrite Ho1, Hr1. }
  split; [exact H1|].
  unfold segments, non_empty in *. simpl. exact H1.
Qed.

End RepoParserFacts.

Module RepoReference.
Import PyStr PyStrFacts Url UrlFacts RepoParserFacts.

Section WithChecks.
Context {NC : NetlocChecks}.

Lemma scraper_of_parsed (s : string) (p : ParseResult) :
  urlparse s = Ok p ->
  GitHubReleaseScraper._parse_github_repo_url s = Ok (accepted p).
Proof.
  intros Hp. rewrite scraper_unfold. destruct s as [|c s].
  - rewrite urlparse_empty in Hp. injection Hp as <-. reflexivity.
  - cbn [truthy negb]. now rewrite Hp.
Qed.

(** With exactly the two segments [o] and [r], shape (a) or (b) decides. *)
Lemma accepted_two (p : ParseResult) (o r : string) :
  segments (path p) = [o; r] -> shape_a p \/ shape_b p ->
  accepted p =
    if truthy (GitHubReleaseScraper.strip_git r)
    then Some (MkRepoInfo o (GitHubReleaseScraper.strip_git r)) else None.
Proof.
  intros Hseg Hshape.
  destruct (truthy (GitHubReleaseScraper.strip_git r)) eqn:Hrepo.
  - apply accepted_iff. split; [exact Hshape|].
    exists o, r, []. apply truthy_true in Hrepo. auto.
  - destruct (accepted p) as [info|] eqn:Ha; [|reflexivity].
    apply accepted_iff in Ha as [_ (o0 & raw & rest & Hs & Hn & _)].
    rewrite Hseg in Hs. injection Hs as <- <- <-.
    apply truthy_false in Hrepo. contradiction.
Qed.

Lemma scraper_names (o r : string) :
  is_name o = true -> is_name r = true ->
  let result :=
    Ok (if truthy (GitHubReleaseScraper.strip_git r)
        then Some (MkRepoInfo o (GitHubReleaseScraper.strip_git r))
        else None) in
  GitHubReleaseScraper._parse_github_repo_url (o +:+ "/" +:+ r) = result /\
  GitHubReleaseScraper._parse_github_repo_url
    ("https://github.com/" +:+ o +:+ "/" +:+ r) = result.
Proof.
  intros Ho Hr result.
  destruct (segments_of_names o r Ho Hr) as [Hseg1 Hseg2].
  unfold is_name in Ho, Hr.
  apply andb_true_iff in Ho as [Ho1 Ho2]. apply andb_true_iff in Hr as [Hr1 Hr2].
  assert (Hall : all path_char (o +:+ String "/" r) = true).
  { rewrite all_app. cbn [all]. apply andb_true_iff. split.
    - eapply all_impl; [|exact Ho2]. apply name_char_path_char.
    - apply andb_true_iff. split; [reflexivity|].
      eapply all_impl; [|exact Hr2]. apply name_char_path_char. }
  change ("/" +:+ r) with (String "/" r).
  split.
  - destruct o as [|c o']; [discriminate|].
    change (String c o' +:+ String "/" r)
      with (String c (o' +:+ String "/" r)) in *.
    cbn [all] in Ho2, Hall.
    apply andb_true_iff in Ho2 as [Hc Ho2]. apply andb_true_iff in Hall as [_ Hall].
    rewrite (scraper_of_parsed _ _ (urlparse_plain c _ Hc Hall)).
    unfold result. f_equal. apply accepted_two; [exact Hseg1|].
    left. unfold shape_a. cbn [scheme netloc path]. rewrite Hseg1. auto.
  - rewrite (scraper_of_parsed _ _ (urlparse_github _ Hall)).
    unfold result. f_equal. apply accepted_two; [exact Hseg2|].
    right. unfold shape_b. cbn [netloc path]. rewrite Hseg2.
    split; [reflexivity|simpl; lia].
Qed.

End WithChecks.

(** The repository name in the words of the rule: [name] is [raw]
    without its last four characters when these read [.git] in any
    letter case, and [raw] itself when [raw] has no such ending. *)
Definition git_suffix_removed (raw name : string) : Prop :=
  (exists ending, raw = name +:+ ending /\ lower ending = ".git") \/
  (name = raw /\ forall x ending, raw = x +:+ ending -> lower ending <> ".git").

Lemma strip_suffix_sound (p s x : string) :
  strip_suffix p s = Some x -> s = x +:+ p.
Proof.
  revert x. induction s as [|c s IH]; intros x.
  - cbn [strip_suffix]. destruct (String.eqb "" p) eqn:E; [|discriminate].
    apply String.eqb_eq in E. intros [= <-]. now rewrite app_empty.
  - rewrite strip_suffix_cons.
    destruct (String.eqb (String c s) p) eqn:E.
    + apply String.eqb_eq in E. intros [= <-]. now rewrite app_empty.
    + destruct (strip_suffix p s) as [r'|]; [|discriminate].
      intros [= <-]. rewrite app_cons. f_equal. now apply IH.
Qed.

Lemma length_lower (s : string) : String.length (lower s) = String.length s.
Proof. induction s as [|c s IH]; [reflexivity|]. simpl. now rewrite IH. Qed.

Lemma app_inj_length (a1 b1 a2 b2 : string) :
  a1 +:+ b1 = a2 +:+ b2 -> String.length a1 = String.length a2 ->
  a1 = a2 /\ b1 = b2.
Proof.
  revert a2. induction a1 as [|c a1 IH]; intros [|d a2]; try discriminate.
  - rewrite !app_empty. auto.
  - rewrite !app_cons. intros [= -> H] [= Hlen].
    destruct (IH a2 H Hlen) as [-> ->]. auto.
Qed.

Lemma take_rest (n : nat) (s : string) :
  exists rest, s = take n s +:+ rest /\
               String.length (take n s) = Nat.min n (String.length s).
Proof.
  revert n. induction s as [|c s IH]; intros [|n]; cbn [take].
  - exists "". auto.
  - exists "". auto.
  - exists (String c s). auto.
  - destruct (IH n) as (rest & Hs & Hl). exists rest.
    rewrite app_cons, <- Hs. simpl. auto.
Qed.

(** The parser's suffix removal is the rule's, and the rule fixes the
    name. *)
Lemma strip_git_rule (raw name : string) :
  GitHubReleaseScraper.strip_git raw = name <-> git_suffix_removed raw name.
Proof.
  unfold GitHubReleaseScraper.strip_git, git_suffix_removed.
  destruct (endswith ".git" (lower raw)) eqn:Hend.
  - unfold endswith in Hend.
    destruct (strip_suffix ".git" (lower raw)) as [x|] eqn:Hx; [|discriminate].
    apply strip_suffix_sound in Hx.
    assert (Hlen : String.length raw = String.length x + 4).
    { rewrite <- (length_lower raw), Hx, length_app. reflexivity. }
    destruct (take_rest (String.length raw - 4) raw) as (ending & Hraw & Htake).
    assert (Hending : lower ending = ".git").
    { rewrite Hraw, lower_app in Hx.
      apply app_inj_length in Hx as [_ Hx]; [exact Hx|].
      rewrite length_lower, Htake. lia. }
    unfold drop_last. split.
    + intros <-. left. exists ending. auto.
    + intros [(ending' & Hraw' & Hending')|[_ Hnone]].
      * assert (Hl' : String.length ending' = 4)
          by (rewrite <- length_lower, Hending'; reflexivity).
        rewrite Hraw' at 1 2. rewrite length_app, Hl'.
        replace (String.length name + 4 - 4) with (String.length name) by lia.
        apply take_app.
      * exfalso. exact (Hnone _ _ Hraw Hending).
  - split.
    + intros <-. right. split; [reflexivity|].
      intros x ending Hraw Hending.
      rewrite Hraw, lower_app, Hending, endswith_app in Hend. discriminate.
    + intros [(ending & Hraw & Hending)|[-> _]]; [|reflexivity].
      rewrite Hraw, lower_app, Hending, endswith_app in Hend. discriminate.
Qed.

(** C3, as stated, fails: ["owner/.git"] has shape (a), yet no pair is
    returned, because nothing remains of the repository name. *)
Lemma stated_rule_fails_on_dot_git :
  ~ @stated_rule strict_checks "owner/.git".
Proof.
  intros H.
  specialize (H (MkParseResult "" "" "owner/.git" "" "" "") eq_refl).
  destruct H as [_ H].
  destruct H as [info Hinfo].
  - left. vm_compute. auto.
  - vm_compute in Hinfo. discriminate Hinfo.
Qed.

(** C3, amended.  Whenever URL splitting returns, the scraper's parser
    returns a pair exactly when the input has shape (a) or (b) and the
    second segment is more than a [.git] ending; the owner is the first
    segment and the repository is the second one without its last four
    characters when these read [.git] in any letter case, and the
    second segment unchanged otherwise (the rule fixes the name); both
    are non-empty; an empty input, fewer than two segments or another
    network location give no result, and the parser itself raises
    nothing.  A bare [owner/repo] and the full URL of the same
    repository give the same result. *)
Theorem repo_reference_parser_rule (NC : NetlocChecks) :
  (forall s p, urlparse s = Ok p ->
     (forall info,
        GitHubReleaseScraper._parse_github_repo_url s = Ok (Some info) <->
        (shape_a p \/ shape_b p) /\
        exists o raw rest,
          segments (path p) = o :: raw :: rest /\
          owner info = o /\
          git_suffix_removed raw (repo info) /\
          repo info <> "") /\
     (forall info,
        GitHubReleaseScraper._parse_github_repo_url s = Ok (Some info) ->
        owner info <> "" /\ repo info <> "") /\
     (length (segments (path p)) < 2 ->
      GitHubReleaseScraper._parse_github_repo_url s = Ok None) /\
     (lower (netloc p) <> "github.com" -> scheme p <> "" \/ netloc p <> "" ->
      GitHubReleaseScraper._parse_github_repo_url s = Ok None) /\
     GitHubReleaseScraper._parse_github_repo_url s <> ValueError) /\
  GitHubReleaseScraper._parse_github_repo_url "" = Ok None /\
  (forall raw name name',
     git_suffix_removed raw name -> git_suffix_removed raw name' ->
     name = name') /\
  (forall o r, is_name o = true -> is_name r = true ->
     GitHubReleaseScraper._parse_github_repo_url (o +:+ "/" +:+ r)
       = GitHubReleaseScraper._parse_github_repo_url
           ("https://github.com/" +:+ o +:+ "/" +:+ r) /\
     (forall name,
        git_suffix_removed r name -> name <> "" ->
        GitHubReleaseScraper._parse_github_repo_url (o +:+ "/" +:+ r)
          = Ok (Some (MkRepoInfo o name)))).
Proof.
  split; [|split; [reflexivity|split]].
  - intros s p Hp. rewrite (scraper_of_parsed _ _ Hp).
    split; [|split; [|split; [|split]]].
    + intros info. split.
      * intros [= Ha].
        apply accepted_iff in Ha as [Hshape (o & raw & rest & Hs & Hn & ->)].
        split; [exact Hshape|]. exists o, raw, rest. cbn [owner repo].
        split; [exact Hs|]. split; [reflexivity|].
        split; [now apply strip_git_rule|exact Hn].
      * intros [Hshape (o & raw & rest & Hs & Ho & Hrule & Hn)].
        f_equal. apply accepted_iff. split; [exact Hshape|].
        exists o, raw, rest. apply strip_git_rule in Hrule.
        rewrite Hrule. split; [exact Hs|]. split; [exact Hn|].
        destruct info as [o' r']. cbn [owner repo] in *. now subst o'.
    + intros info [= Ha].
      apply accepted_iff in Ha as [_ (o & raw & rest & Hs & Hn & ->)].
      split; [|exact Hn].
      cbn [owner]. apply truthy_true, (segments_truthy (path p)).
      rewrite Hs. simpl. auto.
    + intros Hlen.
      destruct (accepted p) as [info|] eqn:Ha; [|reflexivity].
      apply accepted_iff in Ha as [_ (o & raw & rest & Hs & _)].
      rewrite Hs in Hlen. simpl in Hlen. lia.
    + intros Hhost Hsome.
      destruct (accepted p) as [info|] eqn:Ha; [|reflexivity].
      apply accepted_iff in Ha as [[(Hs & Hn & _)|(Hh & _)] _].
      * destruct Hsome; contradiction.
      * contradiction.
    + discriminate.
  - intros raw name name' H H'.
    apply strip_git_rule in H, H'. congruence.
  - intros o r Ho Hr. destruct (scraper_names o r Ho Hr) as [H1 H2]. split.
    + now rewrite H1, H2.
    + intros name Hrule Hn. rewrite H1. apply strip_git_rule in Hrule.
      rewrite Hrule. apply truthy_true in Hn. now rewrite Hn.
Qed.

(** A URL with the host in capitals, an ending [.git] and further
    segments; a bare reference, whose name is kept as it is; an ending
    in capitals; and the bare reference against its full URL. *)
Lemma repo_reference_parser_rule_witness :
  @GitHubReleaseScraper._parse_github_repo_url strict_checks
    "https://GitHub.com/owner/repo.git/releases"
    = Ok (Some (MkRepoInfo "owner" "repo")) /\
  @GitHubReleaseScraper._parse_github_repo_url strict_checks "owner/repo"
    = Ok (Some (MkRepoInfo "owner" "repo")) /\
  @GitHubReleaseScraper._parse_github_repo_url strict_checks "owner/Repo.GIT"
    = Ok (Some (MkRepoInfo "owner" "Repo")) /\
  @GitHubReleaseScraper._parse_github_repo_url strict_checks "owner/repo"
    = @GitHubReleaseScraper._parse_github_repo_url strict_checks
        "https://github.com/owner/repo".
Proof.
  destruct (repo_reference_parser_rule strict_checks) as (H1 & _ & _ & H4).
  split; [|split; [|split]].
  - destruct (H1 "https://GitHub.com/owner/repo.git/releases"
                (MkParseResult "https" "GitHub.com" "/owner/repo.git/releases"
                               "" "" "")
                eq_refl) as (Hiff & _).
    apply Hiff. split.
    + right. split; [reflexivity | vm_compute; lia].
    + exists "owner", "repo.git", ["releases"]. cbn [owner repo].
      split; [reflexivity|]. split; [reflexivity|].
      split; [|discriminate].
      left. exists ".git". split; reflexivity.
  - apply (proj2 (H4 "owner" "repo" eq_refl eq_refl) "repo");
      [|discriminate].
    right. split; [reflexivity|].
    intros x ending Hraw Hending.
    assert (Hl : String.length ending = 4)
      by (rewrite <- length_lower, Hending; reflexivity).
    assert (Hx : String.length x = 0).
    { apply (f_equal String.length) in Hraw. rewrite length_app, Hl in Hraw.
      simpl in Hraw. lia. }
    destruct x; [|discriminate]. rewrite app_empty in Hraw. subst ending.
    discriminate.
  - apply (proj2 (H4 "owner" "Repo.GIT" eq_refl eq_refl) "Repo");
      [|discriminate].
    left. exists ".GIT". split; reflexivity.
  - exact (proj1 (H4 "owner" "repo" eq_refl eq_refl)).
Defined.

(** What the URL library refuses is not caught: the parser raises. *)
Example unmatched_bracket_raises :
  @GitHubReleaseScraper._parse_github_repo_url strict_checks
    "https://[github.com/owner/repo" = ValueError.
Proof. reflexivity. Qed.

(** The network location is compared as a whole: with a port or user
    information in it, the reference is refused. *)
Example network_location_with_port_or_user :
  @GitHubReleaseScraper._parse_github_repo_url strict_checks
    "https://github.com:443/owner/repo" = Ok None /\
  @GitHubReleaseScraper._parse_github_repo_url strict_checks
    "https://user@github.com/owner/repo" = Ok None.
Proof. split; reflexivity. Qed.

Example malformed_inputs :
  @GitHubReleaseScraper._parse_github_repo_url strict_checks "" = Ok None /\
  @GitHubReleaseScraper._parse_github_repo_url strict_checks "owner" = Ok None /\
  @GitHubReleaseScraper._parse_github_repo_url strict_checks
    "https://gitlab.com/owner/repo" = Ok None /\
  @GitHubReleaseScraper._parse_github_repo_url strict_checks
    "github.com/owner/repo" = Ok None.
Proof. repeat split; reflexivity. Qed.

End RepoReference.

(** ** The two repository reference parsers compared *)

Module TwoParsers.
Import PyStr PyStrFacts Url UrlFacts RepoParserFacts RepoReference.

(** C10 as stated, at one input: both parsers give the same result. *)
Definition parsers_agree `{NetlocChecks} (s : string) : Prop :=
  GitHubReleaseScraper._parse_github_repo_url s
    = GitHubResourceManager._parse_github_repo_url s.

(** An input on which the three extra steps of the scraper's parser do
    nothing: between the outer slashes of the path no segment is empty,
    the host is not [github.com] in another letter case, and the second
    segment has no [.git] suffix. *)
Definition tidy (p : ParseResult) : Prop :=
  ((forall x, In x (GitHubResourceManager.path_parts p) -> x <> "")
   \/ GitHubResourceManager.path_parts p = [""]) /\
  (lower (netloc p) = "github.com" -> netloc p = "github.com") /\
  (forall o raw rest,
     GitHubResourceManager.path_parts p = o :: raw :: rest ->
     GitHubReleaseScraper.strip_git raw = raw).

(** What the resource manager's parser makes of a parsed URL. *)
Definition rm_accepted (p : ParseResult) : option RepoInfo :=
  let parts := GitHubResourceManager.path_parts p in
  if (String.eqb (netloc p) "github.com" && Nat.leb 2 (length parts))
     || (negb (truthy (scheme p)) && negb (truthy (netloc p))
         && Nat.eqb (length parts) 2)
  then match at_least_two parts with
       | Some (a, b) => Some (MkRepoInfo a b)
       | None => None
       end
  else None.

Lemma filter_all_truthy (l : list string) :
  (forall x, In x l -> x <> "") -> List.filter truthy l = l.
Proof.
  induction l as [|x l IH]; [reflexivity|]. intros H. simpl.
  assert (Hx : truthy x = true) by (apply truthy_true, H; simpl; auto).
  rewrite Hx, IH; [reflexivity|]. intros y Hy. apply H. simpl. auto.
Qed.

Lemma accepted_tidy (p : ParseResult) : tidy p -> accepted p = rm_accepted p.
Proof.
  intros (Hparts & Hhost & Hgit).
  unfold accepted, rm_accepted, GitHubReleaseScraper.candidates.
  change (GitHubReleaseScraper.path_parts p)
    with (List.filter truthy (GitHubResourceManager.path_parts p)).
  assert (Hhost' : String.eqb (lower (netloc p)) "github.com"
                   = String.eqb (netloc p) "github.com").
  { destruct (String.eqb (netloc p) "github.com") eqn:E.
    - apply String.eqb_eq in E. rewrite E. reflexivity.
    - apply String.eqb_neq in E. apply String.eqb_neq. auto. }
  rewrite Hhost'.
  destruct Hparts as [Hne | Hempty].
  - rewrite (filter_all_truthy _ Hne).
    destruct (GitHubResourceManager.path_parts p) as [|o [|raw rest]] eqn:Hp.
    + cbn [exactly_two at_least_two length Nat.leb Nat.eqb].
      rewrite !andb_false_r. cbn [orb].
      now destruct (negb (truthy (scheme p)) && negb (truthy (netloc p))),
                   (String.eqb (netloc p) "github.com").
    + cbn [exactly_two at_least_two length Nat.leb Nat.eqb].
      rewrite !andb_false_r. cbn [orb].
      now destruct (negb (truthy (scheme p)) && negb (truthy (netloc p))),
                   (String.eqb (netloc p) "github.com").
    + assert (Ho : truthy o = true) by (apply truthy_true, Hne; simpl; auto).
      assert (Hraw : truthy raw = true) by (apply truthy_true, Hne; simpl; auto).
      pose proof (Hgit o raw rest eq_refl) as Hg.
      cbn [at_least_two length Nat.leb]. rewrite andb_true_r.
      destruct (truthy (scheme p)) eqn:Hs; cbn [negb andb].
      * rewrite orb_false_r.
        destruct (String.eqb (netloc p) "github.com"); [|reflexivity].
        now rewrite Hg, Ho, Hraw.
      * destruct (truthy (netloc p)) eqn:Hn; cbn [negb andb].
        -- rewrite orb_false_r.
           destruct (String.eqb (netloc p) "github.com"); [|reflexivity].
           now rewrite Hg, Ho, Hraw.
        -- apply truthy_false in Hn. rewrite Hn.
           change (String.eqb "" "github.com") with false. cbn [orb].
           destruct rest as [|x rest]; cbn [exactly_two length Nat.eqb].
           ++ now rewrite Hg, Ho, Hraw.
           ++ reflexivity.
  - rewrite Hempty.
    cbn [List.filter truthy exactly_two at_least_two length Nat.leb Nat.eqb].
    rewrite !andb_false_r. cbn [orb].
    now destruct (negb (truthy (scheme p)) && negb (truthy (netloc p))),
                 (String.eqb (netloc p) "github.com").
Qed.

Section WithChecks.
Context {NC : NetlocChecks}.

Lemma rm_unfold (s : string) :
  GitHubResourceManager._parse_github_repo_url s =
    match urlparse s with
    | ValueError => ValueError
    | Ok p => Ok (rm_accepted p)
    end.
Proof.
  unfold GitHubResourceManager._parse_github_repo_url, rm_accepted.
  destruct (urlparse s) as [p|]; [|reflexivity].
  destruct ((String.eqb (netloc p) "github.com"
             && Nat.leb 2 (length (GitHubResourceManager.path_parts p)))
            || (negb (truthy (scheme p)) && negb (truthy (netloc p))
                && Nat.eqb (length (GitHubResourceManager.path_parts p)) 2));
    [|reflexivity].
  now destruct (at_least_two (GitHubResourceManager.path_parts p)) as [[a b]|].
Qed.

End WithChecks.

(** The two parsers differ at [owner/repo.git]. *)
Lemma parsers_disagree_on_git_suffix :
  ~ @parsers_agree strict_checks "owner/repo.git".
Proof. unfold parsers_agree. vm_compute. discriminate. Qed.

(** Where the two parsers do agree: they return the same result (the
    same pair, both nothing, or both the URL library's error) on every
    input whose parsed form is tidy. *)
Theorem parsers_agree_on_tidy_inputs (NC : NetlocChecks) (s : string) :
  (forall p, urlparse s = Ok p -> tidy p) -> parsers_agree s.
Proof.
  intros Htidy. unfold parsers_agree. rewrite rm_unfold.
  destruct (urlparse s) as [p|] eqn:Hp.
  - rewrite (scraper_of_parsed _ _ Hp). f_equal. apply accepted_tidy. auto.
  - rewrite scraper_unfold, Hp. destruct s as [|c s]; [|reflexivity].
    rewrite urlparse_empty in Hp. discriminate.
Qed.

Lemma parsers_agree_on_tidy_inputs_witness :
  @parsers_agree strict_checks "https://github.com/owner/repo/releases".
Proof.
  apply parsers_agree_on_tidy_inputs.
  intros p [= <-]. repeat split.
  - left. vm_compute. intros x [<-|[<-|[<-|[]]]]; discriminate.
  - intros o raw rest [= <- <- <-]. reflexivity.
Defined.

(** Each of the three extra steps makes a difference somewhere. *)
Example parsers_differ :
  ~ @parsers_agree strict_checks "owner/.git" /\
  ~ @parsers_agree strict_checks "https://GitHub.com/owner/repo" /\
  ~ @parsers_agree strict_checks "owner//repo" /\
  ~ @parsers_agree strict_checks "https://github.com/owner//repo".
Proof. repeat split; unfold parsers_agree; vm_compute; discriminate. Qed.

Section WithChecks.
Context {NC : NetlocChecks}.

(** The resource manager's parser on [owner/name]: the two names as
    they are. *)
Lemma rm_names (o x : string) :
  is_name o = true -> is_name x = true ->
  GitHubResourceManager._parse_github_repo_url (o +:+ "/" +:+ x)
    = Ok (Some (MkRepoInfo o x)).
Proof.
  intros Ho Hx. unfold is_name in Ho, Hx.
  apply andb_true_iff in Ho as [Ho1 Ho2]. apply andb_true_iff in Hx as [Hx1 Hx2].
  assert (Hco : contains "/" o = false).
  { eapply contains_none; [|exact Ho2]. apply name_char_not_slash. }
  assert (Hcx : contains "/" x = false).
  { eapply contains_none; [|exact Hx2]. apply name_char_not_slash. }
  assert (Hall : all path_char (o +:+ String "/" x) = true).
  { rewrite all_app. cbn [all]. apply andb_true_iff. split.
    - eapply all_impl; [|exact Ho2]. apply name_char_path_char.
    - apply andb_true_iff. split; [reflexivity|].
      eapply all_impl; [|exact Hx2]. apply name_char_path_char. }
  assert (Hrx : rstrip is_slash (String "/" x) = String "/" x).
  { cbn [rstrip]. rewrite rstrip_keep.
    - destruct x; [discriminate|reflexivity].
    - eapply all_impl; [|exact Hx2]. intros c Hc. unfold is_slash.
      now rewrite (name_char_not_slash c Hc). }
  assert (Hparts : split "/" (o +:+ String "/" x) = [o; x])
    by (now rewrite split_app, split_none).
  change ("/" +:+ x) with (String "/" x).
  rewrite rm_unfold.
  destruct o as [|c o']; [discriminate|].
  cbn [all] in Ho2. apply andb_true_iff in Ho2 as [Hc _].
  assert (Hstrip : strip is_slash (String c o' +:+ String "/" x)
                   = String c o' +:+ String "/" x).
  { unfold strip. rewrite app_cons.
    rewrite lstrip_keep by (unfold is_slash; now apply name_char_not_slash).
    rewrite <- app_cons. now apply rstrip_app_keep. }
  rewrite app_cons in Hall. cbn [all] in Hall.
  apply andb_true_iff in Hall as [_ Hall].
  assert (Hp : urlparse (String c o' +:+ String "/" x)
               = Ok (MkParseResult "" "" (String c o' +:+ String "/" x)
                                   "" "" "")).
  { rewrite app_cons. now apply urlparse_plain. }
  rewrite Hp. unfold rm_accepted, GitHubResourceManager.path_parts.
  cbn [scheme netloc path]. rewrite Hstrip, Hparts.
  reflexivity.
Qed.

Lemma is_name_git (r : string) :
  is_name r = true -> is_name (r +:+ ".git") = true.
Proof.
  unfold is_name. intros [Hr1 Hr2]%andb_true_iff.
  apply andb_true_iff. split.
  - destruct r; [discriminate|reflexivity].
  - rewrite all_app, Hr2. reflexivity.
Qed.

End WithChecks.

(** C10.  The two parsers do not return the same result: on every
    reference [owner/name.git] the scraper's parser gives the
    repository [name] and the resource manager's gives [name.git].
    They are used side by side in one update check, which therefore
    probes and downloads under one repository name and reads the
    releases of another. *)
Theorem parsers_diverge_on_git_suffix (NC : NetlocChecks) (o r : string) :
  is_name o = true -> is_name r = true ->
  let reference := o +:+ "/" +:+ r +:+ ".git" in
  GitHubReleaseScraper._parse_github_repo_url reference
    = Ok (Some (MkRepoInfo o r)) /\
  GitHubResourceManager._parse_github_repo_url reference
    = Ok (Some (MkRepoInfo o (r +:+ ".git"))) /\
  ~ parsers_agree reference.
Proof.
  intros Ho Hr reference.
  assert (Hs : GitHubReleaseScraper._parse_github_repo_url reference
               = Ok (Some (MkRepoInfo o r))).
  { unfold reference.
    destruct (scraper_names o (r +:+ ".git") Ho (is_name_git r Hr))
      as [-> _].
    rewrite (proj1 (strip_git_suffix r)).
    unfold is_name in Hr. apply andb_true_iff in Hr as [-> _]. reflexivity. }
  assert (Hrm : GitHubResourceManager._parse_github_repo_url reference
                = Ok (Some (MkRepoInfo o (r +:+ ".git")))).
  { apply rm_names; [exact Ho|now apply is_name_git]. }
  split; [exact Hs|]. split; [exact Hrm|].
  unfold parsers_agree. rewrite Hs, Hrm. intros [= H].
  apply (f_equal String.length) in H. rewrite length_app in H.
  simpl in H. lia.
Qed.

Lemma parsers_diverge_on_git_suffix_witness :
  @GitHubReleaseScraper._parse_github_repo_url strict_checks "owner/repo.git"
    = Ok (Some (MkRepoInfo "owner" "repo")) /\
  @GitHubResourceManager._parse_github_repo_url strict_checks "owner/repo.git"
    = Ok (Some (MkRepoInfo "owner" "repo.git")) /\
  ~ @parsers_agree strict_checks "owner/repo.git".
Proof.
  exact (parsers_diverge_on_git_suffix strict_checks "owner" "repo"
           eq_refl eq_refl).
Defined.

End TwoParsers.

(** ** Asset download: progress reporting and failures *)

Module AssetFetcherFacts.
Import Url AssetFetcher.

(** The lengths of the chunks that carry data. *)
Definition data_chunks (cs : list N) : list Z :=
  List.map Z.of_N (List.filter (fun c => negb (N.eqb c 0)) cs).

Definition total_of (l : list Z) : Z := fold_right Z.add 0%Z l.

(** The expected calls when the total size is known: after the [k]-th
    data chunk, the total and the bytes received so far. *)
Definition calls_per_chunk (total_size start : Z) (data : list Z)
  : list (Z * Z) :=
  List.map (fun k => (total_size, (start + total_of (firstn (S k) data))%Z))
           (seq 0 (length data)).

(** The size [int(response.headers.get("content-length", 0))]. *)
Definition announced_size (resp : response) : Z :=
  match content_length resp with LengthInt n => n | _ => 0%Z end.

Lemma calls_per_chunk_cons (total_size start d : Z) (data : list Z) :
  calls_per_chunk total_size start (d :: data)
    = (total_size, (start + d)%Z)
        :: calls_per_chunk total_size (start + d) data.
Proof.
  unfold calls_per_chunk. cbn [length seq List.map].
  f_equal; [f_equal; simpl; lia|].
  rewrite <- seq_shift, List.map_map. apply List.map_ext.
  intros k. f_equal. unfold total_of. simpl. lia.
Qed.

Lemma receive_spec (total_size start : Z) (cs : list N) :
  receive total_size start cs =
    ((if (0 <? total_size)%Z
      then calls_per_chunk total_size start (data_chunks cs) else []),
     (start + total_of (data_chunks cs))%Z).
Proof.
  revert start. induction cs as [|c cs IH]; intros start.
  - simpl. destruct (0 <? total_size)%Z; f_equal; unfold total_of; simpl; lia.
  - cbn [receive]. unfold data_chunks. cbn [List.filter].
    destruct (N.eqb c 0) eqn:Hc; cbn [negb].
    + apply IH.
    + rewrite IH. cbn [List.map]. fold (data_chunks cs).
      rewrite calls_per_chunk_cons.
      destruct (0 <? total_size)%Z; cbn [app total_of fold_right];
        f_equal; unfold total_of; lia.
Qed.

(** The failure that the network and the disk produce, if any, in the
    order the steps of the [try] block meet them. *)
Definition first_failure (env : environment) : option exception :=
  match get_result env with
  | inl e => Some e
  | inr resp =>
      if is_error_status (status_code resp) then Some (http_error resp)
      else
        match mkdir_error env, content_length resp, open_error env,
              stream_error resp with
        | Some e, _, _, _ => Some e
        | None, LengthNotInt e, _, _ => Some e
        | None, _, Some e, _ => Some e
        | None, _, None, Some e => Some e
        | None, _, None, None => None
        end
  end.

Lemma try_block_outcome (env : environment) (cb : bool) (dest : file_path) :
  snd (try_block env cb dest) =
    match first_failure env with
    | Some e => Raises e
    | None => Returns dest
    end.
Proof.
  unfold try_block, first_failure.
  destruct (get_result env) as [e|resp]; [reflexivity|].
  destruct (is_error_status (status_code resp)); [reflexivity|].
  destruct (mkdir_error env); [reflexivity|].
  destruct (content_length resp); try reflexivity;
    (destruct (open_error env); [reflexivity|];
     destruct (receive _ 0 (chunks resp)) as [calls d];
     now destruct (stream_error resp)).
Qed.

(** An [HTTPError] whose response has status 404. *)
Definition is_http_404 (e : exception) : bool :=
  match exc_cls e, exc_status e with
  | HTTPErrorC, Some code => (code =? 404)%Z
  | _, _ => false
  end.

(** Every [HTTPError] comes with the response it reports. *)
Definition has_response (e : exception) : Prop :=
  exc_cls e = HTTPErrorC -> is_Some (exc_status e).

Definition not_found (asset_filename tag_name : string) (info : RepoInfo)
    (http : exception) : exception :=
  ExcFrom FileNotFoundErrorC None
          (AssetNotFoundText asset_filename tag_name info) http.

Lemma handler_404 (asset tag : string) (info : RepoInfo) (e : exception) :
  is_http_404 e = true -> handler asset tag info e = not_found asset tag info e.
Proof.
  unfold is_http_404, handler, not_found.
  destruct (exc_cls e); try discriminate.
  destruct (exc_status e) as [code|]; [|discriminate]. now intros ->.
Qed.

Lemma handler_other (asset tag : string) (info : RepoInfo) (e : exception) :
  is_http_404 e = false -> has_response e -> handler asset tag info e = e.
Proof.
  unfold is_http_404, handler, has_response.
  destruct (exc_cls e); try reflexivity.
  destruct (exc_status e) as [code|].
  - now intros ->.
  - intros _ H. destruct (H eq_refl) as [x Hx]. discriminate.
Qed.

Section WithChecks.
Context {NC : NetlocChecks}.

Lemma download_outcome (env : environment)
    (url tag asset dest : string) (cb : bool) (info : RepoInfo) :
  GitHubResourceManager._parse_github_repo_url url = Ok (Some info) ->
  snd (download_release_asset env url tag asset dest cb) =
    match first_failure env with
    | Some e => Raises (handler asset tag info e)
    | None => Returns (MkPath dest asset)
    end /\
  fst (download_release_asset env url tag asset dest cb)
    = fst (try_block env cb (MkPath dest asset)).
Proof.
  intros Hinfo. unfold download_release_asset. rewrite Hinfo.
  pose proof (try_block_outcome env cb (MkPath dest asset)) as H.
  destruct (try_block env cb (MkPath dest asset)) as [calls [p|e]];
    simpl in H |- *; destruct (first_failure env); split; congruence.
Qed.

End WithChecks.

(** C8.  For every download that succeeds with a progress callback:
    when the announced size is positive the callback is called once after
    each chunk that carries data, with the announced size and the bytes
    received so far; when no size is announced (no header, or zero) and
    data was received, it is called exactly once, at the end, with the
    bytes received as both arguments. *)
Theorem progress_callback_calls (NC : NetlocChecks) (env : environment)
    (url tag asset dest : string) (calls : list (Z * Z)) (p : file_path) :
  download_release_asset env url tag asset dest true = (calls, Returns p) ->
  exists resp,
    get_result env = inr resp /\
    let data := data_chunks (chunks resp) in
    let received := total_of data in
    ((0 < announced_size resp)%Z ->
     calls = calls_per_chunk (announced_size resp) 0 data) /\
    (announced_size resp = 0%Z -> (0 < received)%Z ->
     calls = [(received, received)]).
Proof.
  unfold download_release_asset.
  destruct (GitHubResourceManager._parse_github_repo_url url) as [[info|]|];
    try discriminate.
  destruct (try_block env true (MkPath dest asset)) as [calls' [p'|e]] eqn:Ht;
    [|discriminate].
  intros [= -> ->]. revert Ht. unfold try_block, announced_size.
  destruct (get_result env) as [e|resp]; [discriminate|].
  destruct (is_error_status (status_code resp)); [discriminate|].
  destruct (mkdir_error env); [discriminate|].
  destruct (content_length resp) as [|n|e] eqn:Hlen; [| |discriminate].
  - destruct (open_error env); [discriminate|].
    rewrite receive_spec. cbn [Z.ltb Z.compare andb]. rewrite Z.add_0_l.
    destruct (stream_error resp); [discriminate|].
    intros [= <- _]. exists resp. split; [reflexivity|]. cbn zeta.
    rewrite Hlen. split.
    + lia.
    + intros _ Hpos. apply Z.ltb_lt in Hpos. now rewrite Hpos.
  - destruct (open_error env); [discriminate|].
    rewrite receive_spec. rewrite Z.add_0_l.
    destruct (stream_error resp); [discriminate|].
    intros [= <- _]. exists resp. split; [reflexivity|]. cbn zeta.
    rewrite Hlen. split.
    + intros Hpos. assert (Hn : (n =? 0)%Z = false) by lia.
      apply Z.ltb_lt in Hpos. rewrite Hpos, Hn. cbn [andb].
      now rewrite app_nil_r.
    + intros -> Hpos. apply Z.ltb_lt in Hpos.
      cbn [Z.ltb Z.compare Z.eqb andb]. now rewrite Hpos.
Qed.

Definition sample_response : response :=
  MkResponse 200 "OK" (LengthInt 20000) [8192%N; 0%N; 8192%N; 3616%N] None.

Definition sample_unsized_response : response :=
  MkResponse 200 "OK" NoLength [8192%N; 100%N] None.

Lemma progress_callback_calls_witness :
  fst (@download_release_asset strict_checks
         (MkEnvironment (inr sample_response) None None)
         "owner/repo" "v1.2.0" "default.txt" "data" true)
    = [(20000, 8192); (20000, 16384); (20000, 20000)]%Z /\
  fst (@download_release_asset strict_checks
         (MkEnvironment (inr sample_unsized_response) None None)
         "owner/repo" "v1.2.0" "default.txt" "data" true)
    = [(8292, 8292)]%Z.
Proof.
  split.
  - destruct (progress_callback_calls strict_checks
                (MkEnvironment (inr sample_response) None None)
                "owner/repo" "v1.2.0" "default.txt" "data"
                _ _ eq_refl) as (resp & [= <-] & H & _).
    cbn [fst]. apply H. reflexivity.
  - destruct (progress_callback_calls strict_checks
                (MkEnvironment (inr sample_unsized_response) None None)
                "owner/repo" "v1.2.0" "default.txt" "data"
                _ _ eq_refl) as (resp & [= <-] & _ & H).
    cbn [fst]. apply H; reflexivity.
Defined.

End AssetFetcherFacts.

Module AssetFailures.
Import Url AssetFetcher AssetFetcherFacts.

(** The kind of a failure is the class of the exception: it is what an
    [except] clause matches on and what the worker reports as
    [type(e).__name__]. *)
Definition kind (r : result file_path) : option exc_class :=
  match r with Raises e => Some (exc_cls e) | Returns _ => None end.

Definition answer_404 : response := MkResponse 404 "Not Found" NoLength [] None.

Definition answer_200 : response :=
  MkResponse 200 "OK" (LengthInt 4) [4%N] None.

(** The server answers 404. *)
Definition asset_missing : environment :=
  MkEnvironment (inr answer_404) None None.

(** The server answers, but the destination cannot be opened because a
    directory of its path does not exist. *)
Definition local_path_missing : environment :=
  MkEnvironment (inr answer_200) None
    (Some (Exc FileNotFoundErrorC None (LibraryText "No such file or directory"))).

(** C4 as stated: the kind of the failure on a 404 answer is shared with
    no failure of another origin. *)
Definition not_found_kind_is_dedicated : Prop :=
  forall (NC : NetlocChecks) (env other : environment)
         (url tag asset dest : string) (resp : response),
    get_result env = inr resp -> status_code resp = 404%Z ->
    (forall e, first_failure other = Some e -> is_http_404 e = false) ->
    is_Some (first_failure other) ->
    kind (snd (download_release_asset env url tag asset dest true))
      <> kind (snd (download_release_asset other url tag asset dest true)).

(** C4, as stated, fails: a local failure to open the destination has
    the kind of the 404 failure. *)
Lemma not_found_kind_is_shared : ~ not_found_kind_is_dedicated.
Proof.
  intros H.
  apply (H strict_checks asset_missing local_path_missing
           "owner/repo" "v1.2.0" "default.txt" "data" answer_404);
    try reflexivity.
  - intros e [= <-]. reflexivity.
  - eexists. reflexivity.
Qed.

(** C4, amended.  With a valid repository reference: a download without
    failure returns the path of the file; a 404 answer raises a
    [FileNotFoundError] whose cause is the HTTP error; every other
    failure is raised unchanged.  The class of the 404 failure differs
    from the class of every failure that is not itself a
    [FileNotFoundError], and the 404 failure differs from every failure
    raised without a cause. *)
Theorem download_failures (NC : NetlocChecks) (env : environment)
    (url tag asset dest : string) (cb : bool) (info : RepoInfo) :
  GitHubResourceManager._parse_github_repo_url url = Ok (Some info) ->
  let outcome := snd (download_release_asset env url tag asset dest cb) in
  (first_failure env = None -> outcome = Returns (MkPath dest asset)) /\
  (forall e, first_failure env = Some e -> is_http_404 e = true ->
     outcome = Raises (not_found asset tag info e)) /\
  (forall e, first_failure env = Some e -> is_http_404 e = false ->
     has_response e -> outcome = Raises e) /\
  (forall http e,
     exc_cls (not_found asset tag info http) = FileNotFoundErrorC /\
     exc_cause (not_found asset tag info http) = Some http /\
     (exc_cls e <> FileNotFoundErrorC ->
      exc_cls (not_found asset tag info http) <> exc_cls e) /\
     (exc_cause e = None -> not_found asset tag info http <> e)).
Proof.
  intros Hinfo outcome.
  destruct (download_outcome env url tag asset dest cb info Hinfo) as [Hout _].
  fold outcome in Hout. repeat split.
  - intros Hnone. now rewrite Hout, Hnone.
  - intros e He H404. now rewrite Hout, He, (handler_404 _ _ _ _ H404).
  - intros e He H404 Hresp. now rewrite Hout, He, (handler_other _ _ _ _ H404 Hresp).
  - intros Hne. simpl. congruence.
  - intros Hnone Heq. rewrite <- Heq in Hnone. discriminate.
Qed.

Definition timed_out : environment :=
  MkEnvironment (inl (Exc TimeoutC None (LibraryText "Read timed out"))) None None.

(** A 404 answer against a timeout, for the repository of the program. *)
Lemma download_failures_witness :
  snd (@download_release_asset strict_checks asset_missing
         "PS2-Localization-JP/PlanetSide2-nihongo-mod-api/" "v1.2.0"
         "ja_jp_data.dat" "data" true)
    = Raises (not_found "ja_jp_data.dat" "v1.2.0"
                (MkRepoInfo "PS2-Localization-JP" "PlanetSide2-nihongo-mod-api")
                (http_error answer_404)) /\
  snd (@download_release_asset strict_checks timed_out
         "PS2-Localization-JP/PlanetSide2-nihongo-mod-api/" "v1.2.0"
         "ja_jp_data.dat" "data" true)
    = Raises (Exc TimeoutC None (LibraryText "Read timed out")) /\
  snd (@download_release_asset strict_checks
         (MkEnvironment (inr answer_200) None None)
         "PS2-Localization-JP/PlanetSide2-nihongo-mod-api/" "v1.2.0"
         "ja_jp_data.dat" "data" true)
    = Returns (MkPath "data" "ja_jp_data.dat").
Proof.
  pose proof (fun env =>
    download_failures strict_checks env
      "PS2-Localization-JP/PlanetSide2-nihongo-mod-api/" "v1.2.0"
      "ja_jp_data.dat" "data" true
      (MkRepoInfo "PS2-Localization-JP" "PlanetSide2-nihongo-mod-api")
      eq_refl) as H.
  split; [|split].
  - destruct (H asset_missing) as (_ & H404 & _).
    apply H404; reflexivity.
  - destruct (H timed_out) as (_ & _ & Hother & _).
    apply Hother; [reflexivity|reflexivity|]. intros Hc. discriminate Hc.
  - destruct (H (MkEnvironment (inr answer_200) None None)) as (Hok & _).
    apply Hok. reflexivity.
Defined.

(** An invalid repository reference is refused before anything is
    fetched. *)
Example invalid_reference_raises :
  snd (@download_release_asset strict_checks asset_missing
         "not-a-reference" "v1.2.0" "default.txt" "data" true)
    = Raises (Exc ValueErrorC None (InvalidRepositoryText "not-a-reference")).
Proof. reflexivity. Qed.

End AssetFailures.

(** ** Background download run: cancellation *)

Module DownloadWorkerFacts.
Import DownloadWorker.

Section Run.
Variable download : download_function.

(** While the cancellation is still to come, every call of the progress
    callback emits its signal. *)
Lemma progress_before_cancel (t : nat) (filename : string) (n total : nat)
    (calls : list (Z * Z)) (clock : nat) :
  clock + length calls <= t ->
  progress (Some t) filename n total calls clock
    = (progress_of filename n total calls, clock + length calls).
Proof.
  revert clock. induction calls as [|[ts ds] calls IH]; intros clock Hle.
  - simpl. f_equal. lia.
  - cbn [progress length] in *. rewrite IH by lia.
    unfold is_cancelled.
    destruct (Nat.leb t clock) eqn:E; [apply Nat.leb_le in E; lia|].
    simpl. f_equal. lia.
Qed.

Lemma progress_never_cancelled (filename : string) (n total : nat)
    (calls : list (Z * Z)) (clock : nat) :
  progress None filename n total calls clock
    = (progress_of filename n total calls, clock + length calls).
Proof.
  revert clock. induction calls as [|[ts ds] calls IH]; intros clock.
  - simpl. f_equal. lia.
  - cbn [progress length]. rewrite IH. simpl. f_equal. lia.
Qed.

(** A run cancelled just before the per-file check of the file at index
    [k], the [k] files before it having downloaded. *)
Lemma run_from_cancelled_before (k : nat) :
  forall (filenames : list string) (i total : nat)
         (paths : list AssetFetcher.file_path) (clock : nat),
    k < length filenames ->
    (forall j f, j < k -> filenames !! j = Some f -> succeeds download f) ->
    run_from download (Some (clock + reads_before download filenames k))
             i total filenames paths clock
      = all_progress download i total (firstn k filenames)
          ++ [ErrorSignal CancelledMessage].
Proof.
  induction k as [|k IH]; intros filenames i total paths clock Hlen Hok.
  - destruct filenames as [|f rest]; [simpl in Hlen; lia|].
    cbn [reads_before firstn all_progress app run_from]. unfold is_cancelled.
    rewrite Nat.add_0_r, Nat.leb_refl. reflexivity.
  - destruct filenames as [|f rest]; [simpl in Hlen; lia|].
    cbn [reads_before firstn all_progress run_from]. unfold is_cancelled.
    destruct (Nat.leb _ clock) eqn:E; [apply Nat.leb_le in E; lia|].
    destruct (Hok 0 f ltac:(lia) eq_refl) as [p Hp].
    destruct (download f) as [calls outcome] eqn:Hd. cbn [fst snd] in *.
    subst outcome.
    rewrite progress_before_cancel by (cbn [length]; lia).
    rewrite <- app_assoc. f_equal.
    replace (clock + (S (length calls) + reads_before download rest k))
      with (S clock + length calls + reads_before download rest k) by lia.
    apply IH.
    + simpl in Hlen. lia.
    + intros j g Hj Hg. apply (Hok (S j) g); [lia|exact Hg].
Qed.

(** The signals of [all_progress] are progress signals of the files up
    to the last one listed. *)
Lemma all_progress_signals (i total : nat) (filenames : list string)
    (s : signal) :
  In s (all_progress download i total filenames) ->
  is_progress s = true /\
  exists n, file_number_of s = Some n /\ i < n <= i + length filenames.
Proof.
  revert i. induction filenames as [|f rest IH]; intros i; [intros []|].
  cbn [all_progress length]. intros [Hs|Hs]%in_app_iff.
  - unfold progress_of in Hs. apply in_map_iff in Hs as ([ts ds] & <- & _).
    split; [reflexivity|]. exists (i + 1). simpl. split; [reflexivity|lia].
  - destruct (IH _ Hs) as (Hp & n & Hn & Hr). split; [exact Hp|].
    exists n. split; [exact Hn|lia].
Qed.

End Run.

Lemma filter_none {A} (p : A -> bool) (l : list A) :
  (forall x, In x l -> p x = false) -> List.filter p l = [].
Proof.
  induction l as [|x l IH]; [reflexivity|]. intros H. simpl.
  rewrite (H x) by (simpl; auto). apply IH. intros y Hy. apply H. simpl. auto.
Qed.

(** C7.  For every download function and every ordered list of file
    names: if the cancellation flag is set after the file at index [i]
    has completed and before the next file starts (the files up to [i]
    having downloaded), the run emits the progress signals of the files
    up to [i], then exactly one cancellation error and nothing else: no
    completion signal and no progress signal of a later file. *)
Theorem cancel_between_files (download : download_function)
    (filenames : list string) (i : nat) :
  i + 1 < length filenames ->
  (forall j f, j <= i -> filenames !! j = Some f -> succeeds download f) ->
  let signals :=
    run download (Some (reads_before download filenames (i + 1))) filenames in
  signals = all_progress download 0 (length filenames) (firstn (i + 1) filenames)
              ++ [ErrorSignal CancelledMessage] /\
  List.filter is_error signals = [ErrorSignal CancelledMessage] /\
  List.filter is_finished signals = [] /\
  (forall s n, In s signals -> file_number_of s = Some n -> n <= i + 1).
Proof.
  intros Hlen Hok signals.
  assert (Hrun : signals
            = all_progress download 0 (length filenames)
                (firstn (i + 1) filenames) ++ [ErrorSignal CancelledMessage]).
  { unfold signals, run.
    apply (run_from_cancelled_before download (i + 1) filenames 0
             (length filenames) [] 0 Hlen).
    intros j f Hj. apply Hok. lia. }
  assert (Hprog : forall s,
            In s (all_progress download 0 (length filenames)
                    (firstn (i + 1) filenames)) ->
            is_progress s = true /\
            exists n, file_number_of s = Some n /\ n <= i + 1).
  { intros s Hs. destruct (all_progress_signals _ _ _ _ _ Hs)
      as (Hp & n & Hn & Hr).
    split; [exact Hp|]. exists n. split; [exact Hn|].
    rewrite length_firstn in Hr. lia. }
  split; [exact Hrun|]. rewrite Hrun. repeat split.
  - rewrite filter_app. cbn [List.filter is_error].
    replace (List.filter is_error (all_progress download 0 (length filenames)
                                     (firstn (i + 1) filenames)))
      with (@nil signal); [reflexivity|].
    symmetry. apply filter_none. intros s Hs.
    destruct (Hprog s Hs) as [Hp _]. now destruct s.
  - rewrite filter_app. cbn [List.filter is_finished app].
    rewrite app_nil_r.
    apply filter_none. intros s Hs.
    destruct (Hprog s Hs) as [Hp _]. now destruct s.
  - intros s n [Hs|[<-|[]]]%in_app_iff Hn; [|discriminate].
    destruct (Hprog s Hs) as (_ & m & Hm & Hr). congruence.
Qed.

Definition three_files : download_function := fun filename =>
  ([(100, 60); (100, 100)]%Z, Returns (AssetFetcher.MkPath "data" filename)).

(** The files [a, b, c], cancelled after [a]. *)
Lemma cancel_between_files_witness :
  run three_files (Some 3) ["a"; "b"; "c"]
    = [ProgressSignal "a" 1 3 100 60; ProgressSignal "a" 1 3 100 100;
       ErrorSignal CancelledMessage].
Proof.
  refine (proj1 (cancel_between_files three_files ["a"; "b"; "c"] 0 _ _)).
  - simpl. lia.
  - intros j f _ _. eexists. reflexivity.
Defined.

End DownloadWorkerFacts.

(** ** The download guard *)

Module UIManagerFacts.
Import DownloadWorker UIManager.

(** A worker is only started on an idle manager, and the flag is set
    when it starts. *)
Lemma start_sets_flag (filenames names : list string) (ui ui' : state) :
  start_background_download filenames ui = (ui', Started names) ->
  _is_download_in_progress ui = false /\
  _is_download_in_progress ui' = true /\ names = filenames.
Proof.
  unfold start_background_download.
  destruct (_is_download_in_progress ui); [discriminate|].
  destruct filenames as [|f rest]; [discriminate|].
  intros [= <- <-]. auto.
Qed.

(** While the flag is set a request is refused with a message and
    changes nothing else. *)
Lemma start_rejected_while_running (filenames : list string) (ui : state) :
  _is_download_in_progress ui = true ->
  start_background_download filenames ui
    = (emit AnotherDownloadRunning ui, Rejected).
Proof. unfold start_background_download. now intros ->. Qed.

Lemma deliver_progress_keeps_flag (cb : option exception) (ui : state)
    (s : signal) :
  is_progress s = true ->
  _is_download_in_progress (deliver cb ui s) = _is_download_in_progress ui.
Proof. destruct s; try discriminate. reflexivity. Qed.

Lemma deliver_terminal_clears_flag (cb : option exception) (ui : state)
    (s : signal) :
  is_terminal s = true -> _is_download_in_progress (deliver cb ui s) = false.
Proof.
  destruct s; try discriminate; intros _; simpl.
  - now destruct cb.
  - reflexivity.
Qed.

Lemma deliver_all_progress (cb : option exception) (signals : list signal)
    (ui : state) :
  (forall s, In s signals -> is_progress s = true) ->
  _is_download_in_progress (fold_left (deliver cb) signals ui)
    = _is_download_in_progress ui.
Proof.
  revert ui. induction signals as [|s signals IH]; intros ui H; [reflexivity|].
  simpl. rewrite IH by (intros x Hx; apply H; simpl; auto).
  apply deliver_progress_keeps_flag. apply H. simpl. auto.
Qed.

(** A run that is never cancelled emits progress signals and then one
    terminal signal. *)
Lemma run_from_uncancelled (download : download_function)
    (filenames : list string) :
  forall (i total : nat) (paths : list AssetFetcher.file_path) (clock : nat),
  exists before last,
    run_from download None i total filenames paths clock = before ++ [last] /\
    (forall s, In s before -> is_progress s = true) /\
    is_terminal last = true.
Proof.
  induction filenames as [|f rest IH]; intros i total paths clock.
  - exists [], (FinishedSignal paths). simpl. auto.
  - cbn [run_from is_cancelled].
    destruct (download f) as [calls outcome].
    rewrite DownloadWorkerFacts.progress_never_cancelled.
    assert (Hp : forall s, In s (progress_of f (i + 1) total calls) ->
                           is_progress s = true).
    { intros s Hs. unfold progress_of in Hs.
      apply in_map_iff in Hs as ([ts ds] & <- & _). reflexivity. }
    destruct outcome as [p|e].
    + destruct (IH (S i) total (paths ++ [p]) (S clock + length calls))
        as (before & last & Hrun & Hb & Hl).
      exists (progress_of f (i + 1) total calls ++ before), last.
      rewrite Hrun, app_assoc. repeat split; [|exact Hl].
      intros s [Hs|Hs]%in_app_iff; auto.
    + exists (progress_of f (i + 1) total calls),
             (ErrorSignal (DownloadErrorMessage e)).
      auto.
Qed.

(** Without cancellation every download session ends with the flag
    cleared. *)
Lemma session_clears_flag (download : download_function)
    (cb : option exception) (filenames : list string) (ui : state) :
  _is_download_in_progress
    (fst (download_session download None cb filenames ui)) = false \/
  snd (download_session download None cb filenames ui) = Rejected.
Proof.
  unfold download_session.
  destruct (start_background_download filenames ui) as [ui' [| |names]] eqn:Hs.
  - right. reflexivity.
  - left. unfold start_background_download in Hs.
    destruct (_is_download_in_progress ui) eqn:Hf; [discriminate|].
    destruct filenames; [|discriminate]. now injection Hs as <-.
  - left. cbn [fst]. unfold run.
    destruct (run_from_uncancelled download names 0 (length names) [] 0)
      as (before & last & Hrun & Hb & Hl).
    rewrite Hrun, fold_left_app. simpl.
    now apply deliver_terminal_clears_flag.
Qed.

Definition one_file : download_function := fun filename =>
  ([(100, 60); (100, 100)]%Z, Returns (AssetFetcher.MkPath "data" filename)).

(** C6 at the failing input.  One file is requested on an idle manager
    and the cancellation arrives while that file is downloading (after
    the per-file check, read number 0).  The worker was started with the
    flag set, but its run emits no signal at all, so neither slot runs:
    the flag stays set and the next request is refused. *)
Theorem flag_left_set_after_late_cancel :
  let session := download_session one_file (Some 1) None ["a"] initial in
  snd session = Started ["a"] /\
  run one_file (Some 1) ["a"] = [] /\
  _is_download_in_progress (fst session) = true /\
  snd (start_background_download ["b"] (fst session)) = Rejected.
Proof. repeat split. Qed.

(** The same happens when the download fails after the cancellation. *)
Example flag_left_set_after_cancelled_failure :
  let failing : download_function := fun _ =>
    ([], Raises (Exc TimeoutC None (LibraryText "Read timed out"))) in
  let session := download_session failing (Some 1) None ["a"] initial in
  run failing (Some 1) ["a"] = [] /\
  _is_download_in_progress (fst session) = true.
Proof. repeat split. Qed.

(** A cancellation seen at a per-file check does clear the flag. *)
Example flag_cleared_after_cancel_between_files :
  _is_download_in_progress
    (fst (download_session one_file (Some 3) None ["a"; "b"] initial)) = false.
Proof. reflexivity. Qed.

End UIManagerFacts.

(** ** Per-entity update check *)

Module MainManagerFacts.
Import MainManager.

Section WithLib.
Context {L : VersionLib}.

Lemma set_latest_current_ok (vi : VersionInfo) :
  latest_ok (set_latest vi (current vi)).
Proof. right. reflexivity. Qed.

(** What a run does along each of its four returning paths and along
    its two raising ones. *)
Lemma check_paths (src : source) (vi : VersionInfo) (dev : bool) :
  let run := _check_single_entity_update src vi dev in
  (check_repository_connection src = Returns false ->
   run = (Returns ServerUnreachable, set_latest vi (current vi))) /\
  (forall tag v,
     check_repository_connection src = Returns true ->
     obtain_tag src dev = Returns (Some tag) -> PyStr.truthy tag = true ->
     parse tag = Some v ->
     snd run = set_latest vi tag /\
     fst run = Returns (if VersionInfoM.is_update_available (set_latest vi tag)
                        then NewVersionAvailable tag else AlreadyLatest)) /\
  (forall tag,
     check_repository_connection src = Returns true ->
     obtain_tag src dev = Returns (Some tag) -> PyStr.truthy tag = true ->
     parse tag = None ->
     run = (Returns (MalformedVersionTag tag), set_latest vi (current vi))) /\
  (forall tag,
     check_repository_connection src = Returns true ->
     obtain_tag src dev = Returns tag -> truthy_opt tag = false ->
     run = (Returns NoVersionInformation, set_latest vi (current vi))) /\
  (forall e,
     check_repository_connection src = Raises e -> run = (Raises e, vi)) /\
  (forall e,
     check_repository_connection src = Returns true ->
     obtain_tag src dev = Raises e -> run = (Raises e, vi)).
Proof.
  unfold _check_single_entity_update.
  split; [|split; [|split; [|split; [|split]]]].
  - now intros ->.
  - intros tag v -> -> -> ->. cbn [negb].
    now destruct (VersionInfoM.is_update_available (set_latest vi tag)).
  - intros tag -> -> -> ->. reflexivity.
  - intros tag -> ->. cbn [negb]. destruct tag as [t|]; [|reflexivity].
    simpl. now intros ->.
  - now intros e ->.
  - now intros e -> ->.
Qed.

(** The descriptor after a run: as it was when the run raised, reset
    to [current] on the three fallback paths, and holding a tag only
    when that tag was obtained and parses. *)
Lemma check_cases (src : source) (vi : VersionInfo) (dev : bool) :
  let run := _check_single_entity_update src vi dev in
  (exists e, run = (Raises e, vi)) \/
  (exists st, fst run = Returns st /\
     (snd run = set_latest vi (current vi) \/
      exists tag v, obtain_tag src dev = Returns (Some tag) /\
                    parse tag = Some v /\ snd run = set_latest vi tag)).
Proof.
  intros run.
  destruct (check_paths src vi dev)
    as (Hdown & Hvalid & Hbad & Hnone & Hraise & Hraise').
  fold run in Hdown, Hvalid, Hbad, Hnone, Hraise, Hraise'.
  destruct (check_repository_connection src) as [[|]|e] eqn:Hc.
  - destruct (obtain_tag src dev) as [[tag|]|e] eqn:Ht.
    + destruct (PyStr.truthy tag) eqn:Htr.
      * destruct (parse tag) as [v|] eqn:Hp.
        -- right. destruct (Hvalid tag v eq_refl eq_refl Htr Hp) as [Hs Hf].
           eexists. split; [exact Hf|]. right. exists tag, v. auto.
        -- right. rewrite (Hbad tag eq_refl eq_refl Htr Hp).
           eexists. split; [reflexivity|]. now left.
      * right. rewrite (Hnone (Some tag) eq_refl eq_refl Htr).
        eexists. split; [reflexivity|]. now left.
    + right. rewrite (Hnone None eq_refl eq_refl eq_refl).
      eexists. split; [reflexivity|]. now left.
    + left. exists e. now apply Hraise'.
  - right. rewrite (Hdown eq_refl). eexists. split; [reflexivity|]. now left.
  - left. exists e. now apply Hraise.
Qed.

End WithLib.

(** Whenever the per-entity update check returns, the descriptor's
    [latest_available] parses as a version or equals [current]: an
    unreachable source, a tag that does not parse and a missing tag
    each reset [latest_available] to [current] with their own message,
    and a tag is stored only when it parses.  [current] is untouched
    on every path, and a run that raises leaves the whole descriptor
    as it was. *)
Lemma returning_check_keeps_latest_ok (L : VersionLib) (src : source)
    (vi : VersionInfo) (dev : bool) :
  let run := _check_single_entity_update src vi dev in
  (forall st, fst run = Returns st -> latest_ok (snd run)) /\
  (forall e, fst run = Raises e -> snd run = vi) /\
  current (snd run) = current vi /\
  (check_repository_connection src = Returns false ->
   run = (Returns ServerUnreachable, set_latest vi (current vi))) /\
  (forall tag,
     check_repository_connection src = Returns true ->
     obtain_tag src dev = Returns (Some tag) -> PyStr.truthy tag = true ->
     parse tag = None ->
     run = (Returns (MalformedVersionTag tag), set_latest vi (current vi))) /\
  (forall tag,
     check_repository_connection src = Returns true ->
     obtain_tag src dev = Returns tag -> truthy_opt tag = false ->
     run = (Returns NoVersionInformation, set_latest vi (current vi))) /\
  (forall st, fst run = Returns st ->
   latest_available (snd run) <> current vi ->
   obtain_tag src dev = Returns (Some (latest_available (snd run))) /\
   is_Some (parse (latest_available (snd run)))).
Proof.
  intros run.
  destruct (check_paths src vi dev) as (Hdown & _ & Hbad & Hnone & _).
  fold run in Hdown, Hbad, Hnone.
  pose proof (check_cases src vi dev) as Hcases. fold run in Hcases.
  split; [|split; [|split; [|split; [|split; [|split]]]]]; try assumption.
  - intros st Hst.
    destruct Hcases as [[e He]|(st' & _ & [Hs|(tag & v & _ & Hp & Hs)])].
    + rewrite He in Hst. discriminate.
    + rewrite Hs. apply set_latest_current_ok.
    + rewrite Hs. left. simpl. rewrite Hp. eauto.
  - intros e He.
    destruct Hcases as [[e' He']|(st' & Hst & _)]; [now rewrite He'|].
    rewrite Hst in He. discriminate.
  - destruct Hcases as [[e He]|(st' & _ & [Hs|(tag & v & _ & _ & Hs)])];
      [now rewrite He | now rewrite Hs..].
  - intros st Hst Hne.
    destruct Hcases as [[e He]|(st' & _ & [Hs|(tag & v & Ht & Hp & Hs)])].
    + rewrite He in Hst. discriminate.
    + rewrite Hs in Hne. simpl in Hne. contradiction.
    + rewrite Hs. simpl. split; [exact Ht|]. rewrite Hp. eauto.
Qed.

Definition unreachable : source :=
  MkSource (Returns false) (Returns (Some "v9.9.9")) (Returns None).

Definition developer_source : source :=
  MkSource (Returns true) (Returns (Some "v1.0.0"))
    (Returns (Some [MkRelease "v1.0.0" true ""; MkRelease "nightly" false "";
                    MkRelease "v1.1.0-beta" false ""])).

Definition malformed_source : source :=
  MkSource (Returns true) (Returns (Some "latest")) (Returns None).

(** The three fallback paths, for PEP 440 versions. *)
Example fallback_paths :
  @_check_single_entity_update pep440 unreachable
     (MkVersionInfo "1.0.0" "1.0.0" None) false
    = (Returns ServerUnreachable, MkVersionInfo "1.0.0" "1.0.0" None) /\
  @_check_single_entity_update pep440 malformed_source
     (MkVersionInfo "1.0.0" "1.0.0" None) false
    = (Returns (MalformedVersionTag "latest"),
       MkVersionInfo "1.0.0" "1.0.0" None) /\
  @_check_single_entity_update pep440 malformed_source
     (MkVersionInfo "1.0.0" "1.0.0" None) true
    = (Returns NoVersionInformation, MkVersionInfo "1.0.0" "1.0.0" None).
Proof. repeat split; vm_compute; reflexivity. Qed.

Example developer_mode_sees_prerelease :
  @_check_single_entity_update pep440 developer_source
     (MkVersionInfo "1.0.0" "1.0.0" None) true
    = (Returns (NewVersionAvailable "v1.1.0-beta"),
       MkVersionInfo "1.0.0" "v1.1.0-beta" None) /\
  @_check_single_entity_update pep440 developer_source
     (MkVersionInfo "1.0.0" "1.0.0" None) false
    = (Returns AlreadyLatest, MkVersionInfo "1.0.0" "v1.0.0" None).
Proof. split; vm_compute; reflexivity. Qed.

End MainManagerFacts.

(** ** Settings store: loading, backfilling, reloading *)

Module ConfigFacts.
Import PyStr Config.

(** The recognized keys with their defaults. *)
Definition known_defaults : list (string * json) :=
  [("app_version", JStr "1.0.0");
   ("translation_version", JStr "0.0.0");
   ("launch_mode", JInt 1);
   ("local_path", JStr "");
   ("app_server_url", JStr "PS2-Localization-JP/PlanetSide2-nihongo-mod-ui/");
   ("translation_server_url",
    JStr "PS2-Localization-JP/PlanetSide2-nihongo-mod-api/");
   ("developer_mode", JBool false)].

Lemma default_config_known : default_config = list_to_map known_defaults.
Proof. reflexivity. Qed.

Section Disk.
Variable disk : nat -> write_outcome.

(** The effect of one recognized key on an object: nothing when the key
    is present; otherwise the default is inserted and the mapping saved. *)
Definition fill_one (st : gmap string json * world) (entry : string * json)
  : gmap string json * world :=
  let '(m, w) := st in
  let '(name, d) := entry in
  if bool_decide (is_Some (m !! name)) then (m, w)
  else (<[name := d]> m, snd (_save_config disk (DObject (<[name := d]> m)) w)).

Lemma step_other_entry (st : option document * world) (key : string) (v : json) :
  strip_prefix "CONFIG_KEY_" key = None ->
  backfill_step disk st (key, v) = st.
Proof. intros H. unfold backfill_step. destruct st as [[cfg|] w]; now rewrite ?H. Qed.

Lemma step_key_entry (st : gmap string json * world)
    (key suffix name : string) :
  strip_prefix "CONFIG_KEY_" key = Some suffix ->
  backfill_step disk (Some (DObject (fst st)), snd st) (key, JStr name) =
    let st' :=
      fill_one st (name, class_get AppConstants ("DEFAULT_" +:+ suffix)) in
    (Some (DObject (fst st')), snd st').
Proof.
  intros H. destruct st as [m w].
  unfold backfill_step, fill_one. rewrite H. cbn [contains_key set_item fst snd].
  now destruct (bool_decide (is_Some (m !! name))).
Qed.

(** On an object the loop over the class entries fills the recognized
    keys one after the other. *)
Lemma backfill_object (m : gmap string json) (w : world) :
  fold_left (backfill_step disk) AppConstants (Some (DObject m), w) =
    let st' := fold_left fill_one known_defaults (m, w) in
    (Some (DObject (fst st')), snd st').
Proof.
  unfold AppConstants, known_defaults. cbn [fold_left].
  repeat (rewrite step_other_entry by reflexivity).
  change (Some (DObject m), w)
    with (Some (DObject (fst (m, w))), snd (m, w)).
  do 7 (erewrite step_key_entry by reflexivity; cbv zeta).
  reflexivity.
Qed.

Lemma fill_one_map (m : gmap string json) (w : world) (name : string)
    (d : json) :
  fst (fill_one (m, w) (name, d)) = m ∪ {[name := d]}.
Proof.
  unfold fill_one. apply map_eq. intros k.
  destruct (bool_decide (is_Some (m !! name))) eqn:E; cbn [fst].
  - apply bool_decide_eq_true in E as [x Hx].
    rewrite lookup_union. destruct (decide (name = k)) as [<-|Hne].
    + rewrite Hx, lookup_singleton_eq. reflexivity.
    + rewrite lookup_singleton_ne by exact Hne. now destruct (m !! k).
  - apply bool_decide_eq_false in E.
    rewrite lookup_union. destruct (decide (name = k)) as [<-|Hne].
    + rewrite lookup_insert_eq, lookup_singleton_eq.
      destruct (m !! name) eqn:Hm; [exfalso; apply E; eauto|reflexivity].
    + rewrite lookup_insert_ne, lookup_singleton_ne by exact Hne.
      now destruct (m !! k).
Qed.

(** Filling in order gives the keys present their value and the others
    their default. *)
Lemma fill_all_map (ds : list (string * json)) :
  forall (m : gmap string json) (w : world),
    fst (fold_left fill_one ds (m, w)) = m ∪ list_to_map ds.
Proof.
  induction ds as [|[name d] ds IH]; intros m w.
  - simpl. now rewrite (right_id_L ∅ (∪)).
  - cbn [fold_left list_to_map foldr].
    destruct (fill_one (m, w) (name, d)) as [m1 w1] eqn:E.
    rewrite IH. pose proof (fill_one_map m w name d) as H.
    rewrite E in H. cbn [fst] in H. rewrite H.
    cbn [uncurry]. rewrite insert_union_singleton_l.
    now rewrite (assoc_L (∪)).
Qed.

(** When every write succeeds the file follows the mapping. *)
Lemma fill_all_file (ds : list (string * json)) :
  (forall n, disk n = WriteOk) ->
  forall (m : gmap string json) (w : world),
    file w = FileJson (DObject m) ->
    file (snd (fold_left fill_one ds (m, w)))
      = FileJson (DObject (fst (fold_left fill_one ds (m, w)))).
Proof.
  intros Hok. induction ds as [|[name d] ds IH]; intros m w Hw; [exact Hw|].
  cbn [fold_left].
  destruct (fill_one (m, w) (name, d)) as [m1 w1] eqn:E.
  apply IH. unfold fill_one in E.
  destruct (bool_decide (is_Some (m !! name))).
  - now injection E as <- <-.
  - injection E as <- <-. unfold _save_config. now rewrite Hok.
Qed.

(** When no recognized key is missing nothing is changed or written. *)
Lemma fill_all_complete (ds : list (string * json)) (m : gmap string json)
    (w : world) :
  (forall name d, In (name, d) ds -> is_Some (m !! name)) ->
  fold_left fill_one ds (m, w) = (m, w).
Proof.
  induction ds as [|[name d] ds IH]; intros H; [reflexivity|].
  cbn [fold_left]. unfold fill_one at 2.
  rewrite bool_decide_eq_true_2 by (apply (H name d); simpl; auto).
  apply IH. intros n' d' Hin. apply (H n' d'). simpl. auto.
Qed.

Lemma load_object (m : gmap string json) (w : world) :
  file w = FileJson (DObject m) ->
  _load_config disk w =
    (MkManager (DObject (fst (fold_left fill_one known_defaults (m, w)))) false,
     snd (fold_left fill_one known_defaults (m, w))).
Proof.
  intros Hw. unfold _load_config. rewrite Hw, backfill_object. reflexivity.
Qed.

Lemma known_present (m : gmap string json) (name : string) (d : json) :
  In (name, d) known_defaults -> is_Some (backfilled m !! name).
Proof.
  intros Hin. unfold backfilled. rewrite lookup_union.
  assert (Hd : is_Some (default_config !! name)).
  { unfold known_defaults in Hin. simpl in Hin.
    repeat (destruct Hin as [[= <- <-]|Hin]; [eexists; reflexivity|]).
    contradiction. }
  destruct Hd as [x Hx]. rewrite Hx. destruct (m !! name); eexists; reflexivity.
Qed.

End Disk.
End ConfigFacts.

Module ConfigStore.
Import PyStr Config ConfigFacts.

(** C9.  For every mapping stored in the settings file, loading keeps
    the value of every key of the file (recognized or not) and gives
    each recognized key that is missing its default; when the writes
    succeed, the file then holds the loaded mapping, loading it again
    changes neither the mapping nor the file (nothing is written), and a
    value written for a key is the value found under that key after a
    reload, the other keys being untouched. *)
Theorem load_backfills_missing_keys (disk : nat -> write_outcome)
    (m : gmap string json) (w : world) :
  file w = FileJson (DObject m) ->
  let mgr := fst (_load_config disk w) in
  let w1 := snd (_load_config disk w) in
  config mgr = DObject (backfilled m) /\
  (forall k v, m !! k = Some v -> stored mgr k = Some v) /\
  (forall k, m !! k = None -> stored mgr k = default_config !! k) /\
  ((forall n, disk n = WriteOk) ->
   file w1 = FileJson (config mgr) /\
   _load_config disk w1 = (mgr, w1) /\
   forall k v,
     exists mgr2 w2,
       set_config_value disk k v mgr w1 = Some (mgr2, w2) /\
       stored (fst (_load_config disk w2)) k = Some v /\
       forall k', k' <> k ->
         stored (fst (_load_config disk w2)) k' = stored mgr k').
Proof.
  intros Hw mgr w1.
  assert (Hmgr : mgr = MkManager (DObject (backfilled m)) false).
  { unfold mgr. rewrite (load_object disk m w Hw). cbn [fst].
    now rewrite fill_all_map, <- default_config_known. }
  assert (Hw1 : w1 = snd (fold_left (fill_one disk) known_defaults (m, w))).
  { unfold w1. now rewrite (load_object disk m w Hw). }
  split; [now rewrite Hmgr|].
  split; [|split].
  - intros k v Hk. rewrite Hmgr. unfold stored, backfilled. cbn [config].
    now apply lookup_union_Some_l.
  - intros k Hk. rewrite Hmgr. unfold stored, backfilled. cbn [config].
    now apply lookup_union_r.
  - intros Hok.
    assert (Hfile : file w1 = FileJson (DObject (backfilled m))).
    { rewrite Hw1, (fill_all_file disk known_defaults Hok m w Hw).
      now rewrite fill_all_map, <- default_config_known. }
    split; [now rewrite Hmgr|]. split.
    + rewrite (load_object disk (backfilled m) w1 Hfile).
      rewrite fill_all_complete by (intros name d; apply known_present).
      now rewrite Hmgr.
    + intros k v.
      set (m2 := <[k := v]> (backfilled m)).
      set (w2 := MkWorld (FileJson (DObject m2)) (S (writes_done w1))).
      exists (MkManager (DObject m2) false), w2.
      assert (Hset : set_config_value disk k v mgr w1
                     = Some (MkManager (DObject m2) false, w2)).
      { rewrite Hmgr. unfold set_config_value, _save_config.
        cbn [config set_item _initial_config_flag]. now rewrite Hok. }
      assert (Hload : _load_config disk w2
                      = (MkManager (DObject m2) false, w2)).
      { rewrite (load_object disk m2 w2 eq_refl).
        rewrite fill_all_complete; [reflexivity|].
        intros name d Hin. unfold m2.
        destruct (decide (k = name)) as [->|Hne].
        - rewrite lookup_insert_eq. eauto.
        - rewrite lookup_insert_ne by exact Hne. now apply (known_present m name d). }
      split; [exact Hset|]. rewrite Hload. cbn [fst]. unfold stored. cbn [config].
      split.
      * unfold m2. apply lookup_insert_eq.
      * intros k' Hne. rewrite Hmgr. cbn [config]. unfold m2.
        now rewrite lookup_insert_ne by congruence.
Qed.

(** A file that lacks all recognized keys but two and has an unknown
    one. *)
Definition old_file : gmap string json :=
  <["app_version" := JStr "2.3.0"]>
    (<["launch_mode" := JInt 0]> (<["theme" := JStr "dark"]> ∅)).

Lemma load_backfills_missing_keys_witness :
  let loaded :=
    _load_config always_ok (MkWorld (FileJson (DObject old_file)) 0) in
  stored (fst loaded) "app_version" = Some (JStr "2.3.0") /\
  stored (fst loaded) "theme" = Some (JStr "dark") /\
  stored (fst loaded) "developer_mode" = Some (JBool false) /\
  _load_config always_ok (snd loaded) = loaded.
Proof.
  intros loaded.
  destruct (load_backfills_missing_keys always_ok old_file
              (MkWorld (FileJson (DObject old_file)) 0) eq_refl)
    as (_ & Hkept & Hfilled & Hdisk).
  destruct (Hdisk (fun _ => eq_refl)) as (_ & Hagain & _).
  split; [|split; [|split]].
  - apply Hkept. reflexivity.
  - apply Hkept. reflexivity.
  - unfold loaded. rewrite Hfilled; reflexivity.
  - unfold loaded. rewrite Hagain. now destruct (_load_config always_ok _).
Defined.

(** A missing, corrupt or non-object file gives the defaults. *)
Example defaults_when_not_loadable :
  _load_config always_ok (MkWorld FileMissing 0)
    = (MkManager (DObject default_config) true,
       MkWorld (FileJson (DObject default_config)) 1) /\
  fst (_load_config always_ok (MkWorld FileCorrupt 0))
    = MkManager (DObject default_config) true /\
  fst (_load_config always_ok (MkWorld (FileJson (DArray [JInt 1])) 0))
    = MkManager (DObject default_config) true /\
  fst (_load_config (fun _ => WriteFails FileMissing) (MkWorld FileMissing 0))
    = MkManager (DObject default_config) false.
Proof. repeat split. Qed.

End ConfigStore.

(** * Further properties *)

(** ** Highest version tag: what the choice depends on *)

Module HighestTagMore.
Import HighestTag HighestTagFacts.

Section WithLaws.
Context `{L : VersionLib} {laws : VersionLaws L}.

(** The version of the chosen tag. *)
Definition chosen_version (releases : list Release) (incl : bool)
  : option Version :=
  match _get_highest_version_tag releases incl with
  | Some tag => parse tag
  | None => None
  end.

(** The chosen version is that of a candidate no candidate exceeds. *)
Lemma chosen_version_some (releases : list Release) (incl : bool) (v : Version) :
  chosen_version releases incl = Some v ->
  (exists r, r ∈ releases /\ candidate incl r = Some v) /\
  (forall r' v', r' ∈ releases -> candidate incl r' = Some v' ->
     version_gt v' v = false).
Proof.
  unfold chosen_version.
  pose proof (highest_tag_meets_spec releases incl) as Hspec.
  destruct (_get_highest_version_tag releases incl) as [t|]; [|discriminate].
  destruct Hspec as (i & r & v0 & Hi & Ht & Hc & Hall).
  intros Hp.
  assert (v0 = v) as ->.
  { unfold candidate in Hc. rewrite Ht, Hp in Hc.
    destruct (negb incl && is_prerelease v); congruence. }
  split.
  - exists r. split; [eapply list_elem_of_lookup_2; eauto | exact Hc].
  - intros r' v' [j Hj]%list_elem_of_lookup_1 Hc'.
    now destruct (Hall j r' v' Hj Hc').
Qed.

Lemma chosen_version_none (releases : list Release) (incl : bool) :
  chosen_version releases incl = None ->
  forall r, r ∈ releases -> candidate incl r = None.
Proof.
  unfold chosen_version.
  pose proof (highest_tag_meets_spec releases incl) as Hspec.
  destruct (_get_highest_version_tag releases incl) as [t|]; [|now intros _].
  destruct Hspec as (i & r & v0 & Hi & Ht & Hc & Hall).
  intros Hp. unfold candidate in Hc. rewrite Ht, Hp in Hc. discriminate.
Qed.

(** When every candidate of one selection is a candidate of another, the
    second selection is not lower. *)
Lemma chosen_version_monotone (l1 l2 : list Release) (incl1 incl2 : bool)
    (v1 : Version) :
  (forall r v, r ∈ l1 -> candidate incl1 r = Some v ->
     r ∈ l2 /\ candidate incl2 r = Some v) ->
  chosen_version l1 incl1 = Some v1 ->
  exists v2, chosen_version l2 incl2 = Some v2 /\ version_gt v1 v2 = false.
Proof.
  intros Hsub H1.
  destruct (chosen_version_some _ _ _ H1) as [(r & Hr & Hc) _].
  destruct (Hsub r v1 Hr Hc) as [Hr2 Hc2].
  destruct (chosen_version l2 incl2) as [v2|] eqn:H2.
  - exists v2. split; [reflexivity|].
    destruct (chosen_version_some _ _ _ H2) as [_ Hmax]. eauto.
  - pose proof (chosen_version_none _ _ H2 r Hr2). congruence.
Qed.

Lemma candidate_included (r : Release) (v : Version) :
  candidate false r = Some v -> candidate true r = Some v.
Proof.
  unfold candidate. destruct (parse (tag_name r)) as [v0|]; [|discriminate].
  simpl. now destruct (is_prerelease v0).
Qed.

End WithLaws.

(** X1.  Including pre-releases never lowers the choice: whenever a tag
    is chosen with pre-releases excluded, a tag is chosen with them
    included and its version is not lower. *)
Theorem prereleases_never_lower_the_choice (L : VersionLib)
    (laws : VersionLaws L) (releases : list Release) (stable : Version) :
  chosen_version releases false = Some stable ->
  exists any, chosen_version releases true = Some any /\
              version_gt stable any = false.
Proof.
  apply chosen_version_monotone.
  intros r v Hr Hc. split; [exact Hr | now apply candidate_included].
Qed.

Lemma prereleases_never_lower_the_choice_witness :
  exists any,
    @chosen_version pep440 [tagged "v1.0.0"; tagged "v1.2.0-beta"] true
      = Some any /\
    Pep440.gt (Pep440.MkVersion 0 [1%N] None None None []) any = false.
Proof.
  apply (prereleases_never_lower_the_choice pep440 pep440_laws
           [tagged "v1.0.0"; tagged "v1.2.0-beta"]).
  vm_compute. reflexivity.
Defined.

(** X2.  More releases never lower the choice: the version chosen from a
    list extended at either end is not lower than the one chosen from
    the list. *)
Theorem more_releases_never_lower_the_choice (L : VersionLib)
    (laws : VersionLaws L) (before releases after : list Release)
    (incl : bool) (v : Version) :
  chosen_version releases incl = Some v ->
  exists v', chosen_version (before ++ releases ++ after) incl = Some v' /\
             version_gt v v' = false.
Proof.
  apply chosen_version_monotone.
  intros r w Hr Hc. split; [|exact Hc].
  apply elem_of_app. right. apply elem_of_app. now left.
Qed.

Lemma more_releases_never_lower_the_choice_witness :
  exists v',
    @chosen_version pep440
      ([tagged "v0.9"] ++ [tagged "v1.0.0"] ++ [tagged "v1.1"]) true = Some v' /\
    Pep440.gt (Pep440.MkVersion 0 [1%N] None None None []) v' = false.
Proof.
  apply (more_releases_never_lower_the_choice pep440 pep440_laws
           [tagged "v0.9"] [tagged "v1.0.0"] [tagged "v1.1"] true).
  vm_compute. reflexivity.
Defined.

(** X3.  The chosen version does not depend on the order of the
    releases (the chosen tag may: among equal versions the first wins). *)
Theorem chosen_version_ignores_order (L : VersionLib) (laws : VersionLaws L)
    (l l' : list Release) (incl : bool) :
  l ≡ₚ l' -> chosen_version l incl = chosen_version l' incl.
Proof.
  intros Hperm.
  assert (Hin : forall r, r ∈ l <-> r ∈ l') by (intros r; now rewrite Hperm).
  destruct (chosen_version l incl) as [v|] eqn:H1,
           (chosen_version l' incl) as [v'|] eqn:H2.
  - destruct (chosen_version_some _ _ _ H1) as [(r & Hr & Hc) Hmax].
    destruct (chosen_version_some _ _ _ H2) as [(r' & Hr' & Hc') Hmax'].
    pose proof (Hmax r' v' (proj2 (Hin r') Hr') Hc') as Hle.
    pose proof (Hmax' r v (proj1 (Hin r) Hr) Hc) as Hle'.
    destruct (decide (v = v')) as [->|Hne]; [reflexivity|].
    destruct (version_gt_connected _ _ Hne); congruence.
  - destruct (chosen_version_some _ _ _ H1) as [(r & Hr & Hc) _].
    pose proof (chosen_version_none _ _ H2 r (proj1 (Hin r) Hr)). congruence.
  - destruct (chosen_version_some _ _ _ H2) as [(r & Hr & Hc) _].
    pose proof (chosen_version_none _ _ H1 r (proj2 (Hin r) Hr)). congruence.
  - reflexivity.
Qed.

Lemma chosen_version_ignores_order_witness :
  @chosen_version pep440 [tagged "v1.0"; tagged "2.0rc1"; tagged "1.0.0"] true
    = @chosen_version pep440 [tagged "1.0.0"; tagged "v1.0"; tagged "2.0rc1"] true.
Proof.
  apply (chosen_version_ignores_order pep440 pep440_laws).
  change [tagged "v1.0"; tagged "2.0rc1"; tagged "1.0.0"]
    with ([tagged "v1.0"; tagged "2.0rc1"] ++ [tagged "1.0.0"]).
  change [tagged "1.0.0"; tagged "v1.0"; tagged "2.0rc1"]
    with ([tagged "1.0.0"] ++ [tagged "v1.0"; tagged "2.0rc1"]).
  apply Permutation_app_comm.
Defined.

End HighestTagMore.

(** ** From an update check to a download and back *)

Module UpdateFlow.
Import Config MainManager.

Section WithLib.
Context `{L : VersionLib}.

(** What [_start_update_download] does: a message that nothing is to be
    downloaded, a message that the source or the tag is unknown, or a
    request to the UI manager with the arguments it passes. *)
Inductive download_request :=
| NothingToDownload
| SourceUnknown
| Requested (repo_url tag_name destination_dir : string)
            (started : UIManager.start_result).

Definition _start_update_download (data_dir : string)
    (version_info_obj : VersionInfo) (filenames_to_download : list string)
    (ui : UIManager.state) : UIManager.state * download_request :=
  if negb (VersionInfoM.is_update_available version_info_obj) then
    (ui, NothingToDownload)
  else
    let latest_tag_name := latest_available version_info_obj in
    match server_url version_info_obj with
    | Some url =>
        if negb (PyStr.truthy url) || negb (PyStr.truthy latest_tag_name)
        then (ui, SourceUnknown)
        else
          let '(ui', started) :=
            UIManager.start_background_download filenames_to_download ui in
          (ui', Requested url latest_tag_name data_dir started)
    | None => (ui, SourceUnknown)
    end.

(** [_internal_download_asset_wrapper], as the worker calls it for one
    file name; [network] is what the network and the disk do for that
    file. *)
Definition _internal_download_asset_wrapper `{Url.NetlocChecks}
    (network : string -> AssetFetcher.environment)
    (repo_url tag dest_dir : string) : DownloadWorker.download_function :=
  fun filename =>
    AssetFetcher.download_release_asset (network filename) repo_url tag
      filename dest_dir true.

Definition set_current (vi : VersionInfo) (new_version : string)
  : VersionInfo :=
  MkVersionInfo new_version (latest_available vi) (server_url vi).

(** What the completion callbacks [on_app_download_completed] and
    [on_translation_download_completed] do to the settings and to the
    descriptor before anything else: nothing when the latest version
    is empty; otherwise the version is stored under the entity's key
    and becomes the current one.  [SettingRaised] is the [TypeError] of
    an item assignment on settings that are not a mapping, which leaves
    the callback before the descriptor is touched. *)
Inductive recorded :=
| VersionLost
| SettingRaised
| Recorded (mgr : manager) (w : world) (vi : VersionInfo).

Definition record_new_version (disk : nat -> write_outcome) (key : string)
    (vi : VersionInfo) (mgr : manager) (w : world) : recorded :=
  let new_version := latest_available vi in
  if negb (PyStr.truthy new_version) then VersionLost
  else
    match set_config_value disk key (JStr new_version) mgr w with
    | None => SettingRaised
    | Some (mgr', w') => Recorded mgr' w' (set_current vi new_version)
    end.

(** The check never reads the previous [latest_available]. *)
Lemma check_after_set_latest (src : source) (vi : VersionInfo) (dev : bool)
    (l : string) :
  fst (_check_single_entity_update src (set_latest vi l) dev)
    = fst (_check_single_entity_update src vi dev) /\
  (forall st, fst (_check_single_entity_update src vi dev) = Returns st ->
   _check_single_entity_update src (set_latest vi l) dev
     = _check_single_entity_update src vi dev).
Proof.
  unfold _check_single_entity_update.
  destruct (check_repository_connection src) as [[|]|e]; cbn [negb];
    [|split; [reflexivity|intros _ _; reflexivity]
     |split; [reflexivity|discriminate]].
  destruct (obtain_tag src dev) as [[t|]|e];
    [|split; [reflexivity|intros _ _; reflexivity]
     |split; [reflexivity|discriminate]].
  destruct (PyStr.truthy t); [|split; [reflexivity|intros _ _; reflexivity]].
  destruct (parse t); [|split; [reflexivity|intros _ _; reflexivity]].
  change (set_latest (set_latest vi l) t) with (set_latest vi t).
  destruct (VersionInfoM.is_update_available (set_latest vi t));
    (split; [reflexivity|intros _ _; reflexivity]).
Qed.

Lemma check_result_is_set_latest (src : source) (vi : VersionInfo)
    (dev : bool) :
  (exists e, _check_single_entity_update src vi dev = (Raises e, vi)) \/
  (exists st l,
     fst (_check_single_entity_update src vi dev) = Returns st /\
     snd (_check_single_entity_update src vi dev) = set_latest vi l).
Proof.
  unfold _check_single_entity_update.
  destruct (check_repository_connection src) as [[|]|e]; cbn [negb];
    [|right; eauto|left; eauto].
  destruct (obtain_tag src dev) as [[t|]|e]; [|right; eauto|left; eauto].
  destruct (PyStr.truthy t); [|right; eauto].
  destruct (parse t); [|right; eauto].
  destruct (VersionInfoM.is_update_available _); right; eauto.
Qed.

Lemma new_version_tag (src : source) (vi : VersionInfo) (dev : bool)
    (t : string) :
  fst (_check_single_entity_update src vi dev)
    = Returns (NewVersionAvailable t) ->
  snd (_check_single_entity_update src vi dev) = set_latest vi t /\
  obtain_tag src dev = Returns (Some t) /\ PyStr.truthy t = true /\
  is_Some (parse t) /\ check_repository_connection src = Returns true.
Proof.
  unfold _check_single_entity_update.
  destruct (check_repository_connection src) as [[|]|e]; try discriminate.
  cbn [negb].
  destruct (obtain_tag src dev) as [[t'|]|e]; try discriminate.
  destruct (PyStr.truthy t') eqn:Ht; [|discriminate].
  destruct (parse t') eqn:Hp; [|discriminate].
  destruct (VersionInfoM.is_update_available _); [|discriminate].
  intros [= <-]. rewrite Hp. eauto 10.
Qed.

End WithLib.

(** X4.  The outcome of an update check does not depend on the
    [latest_available] left by an earlier check, so checking twice
    against the same answers changes nothing.  (A check that raises
    gives the same exception whatever that field holds, and leaves the
    descriptor as it is.) *)
Theorem update_check_is_idempotent (L : VersionLib) (src : source)
    (vi : VersionInfo) (dev : bool) :
  (forall l st,
     fst (_check_single_entity_update src vi dev) = Returns st ->
     _check_single_entity_update src (set_latest vi l) dev
       = _check_single_entity_update src vi dev) /\
  (forall l,
     fst (_check_single_entity_update src (set_latest vi l) dev)
       = fst (_check_single_entity_update src vi dev)) /\
  _check_single_entity_update src
      (snd (_check_single_entity_update src vi dev)) dev
    = _check_single_entity_update src vi dev.
Proof.
  split; [|split].
  - intros l st Hst.
    exact (proj2 (check_after_set_latest src vi dev l) st Hst).
  - intros l. exact (proj1 (check_after_set_latest src vi dev l)).
  - destruct (check_result_is_set_latest src vi dev)
      as [[e He]|(st & l & Hst & Hl)].
    + now rewrite He.
    + rewrite Hl. exact (proj2 (check_after_set_latest src vi dev l) st Hst).
Qed.

(** X5.  After a check announced a new version and its download
    completed, the version is stored under the entity's key, it is the
    current one, no update is pending, and a new check against the
    same answers reports the entity as up to date. *)
Theorem completed_update_is_not_offered_again (L : VersionLib)
    (disk : nat -> write_outcome) (key : string) (src : source)
    (vi : VersionInfo) (dev : bool) (t : string) (m : gmap string json)
    (flag : bool) (w : world) :
  fst (_check_single_entity_update src vi dev)
    = Returns (NewVersionAvailable t) ->
  exists mgr' w' vi',
    record_new_version disk key
        (snd (_check_single_entity_update src vi dev))
        (MkManager (DObject m) flag) w
      = Recorded mgr' w' vi' /\
    stored mgr' key = Some (JStr t) /\
    current vi' = t /\
    VersionInfoM.is_update_available vi' = false /\
    _check_single_entity_update src vi' dev = (Returns AlreadyLatest, vi').
Proof.
  intros Hnew.
  destruct (new_version_tag src vi dev t Hnew)
    as (-> & Htag & Ht & [v Hv] & Hconn).
  unfold record_new_version, set_latest; cbn.
  rewrite Ht; cbn.
  eexists _, _, _. split; [reflexivity|].
  assert (Hno : VersionInfoM.is_update_available
                  (set_current (MkVersionInfo (current vi) t (server_url vi)) t)
                = false).
  { unfold VersionInfoM.is_update_available, set_current; cbn.
    rewrite Hv. apply bool_decide_eq_false. tauto. }
  split; [|split; [reflexivity|split; [exact Hno|]]].
  - unfold stored; cbn. apply lookup_insert_eq.
  - unfold _check_single_entity_update.
    rewrite Hconn, Htag, Ht, Hv; cbn [negb].
    change (set_latest (set_current (MkVersionInfo (current vi) t (server_url vi)) t) t)
      with (set_current (MkVersionInfo (current vi) t (server_url vi)) t).
    now rewrite Hno.
Qed.

Lemma completed_update_is_not_offered_again_witness :
  let src := MkSource (Returns true) (Returns (Some "v1.2.0")) (Returns None) in
  let vi := MkVersionInfo "1.0.0" "1.0.0" (Some "owner/repo") in
  exists mgr' w' vi',
    @record_new_version always_ok "app_version"
        (snd (@_check_single_entity_update pep440 src vi false))
        (MkManager (DObject default_config) false) (MkWorld FileMissing 0)
      = Recorded mgr' w' vi' /\
    stored mgr' "app_version" = Some (JStr "v1.2.0") /\
    current vi' = "v1.2.0" /\
    @VersionInfoM.is_update_available pep440 vi' = false /\
    @_check_single_entity_update pep440 src vi' false
      = (Returns AlreadyLatest, vi').
Proof.
  apply (completed_update_is_not_offered_again pep440 always_ok "app_version"
           (MkSource (Returns true) (Returns (Some "v1.2.0")) (Returns None))
           (MkVersionInfo "1.0.0" "1.0.0" (Some "owner/repo")) false "v1.2.0").
  vm_compute. reflexivity.
Defined.

(** X6.  [_start_update_download] starts a worker exactly when an
    update is available, the descriptor has a non-empty source, no
    download is in progress and the list of files is not empty; the
    worker then gets the descriptor's source and latest tag and the
    data directory.  In every other case the guard flag and the worker
    reference are left as they were.  Since an available update means
    that the latest tag parses, the message about an unknown source or
    tag can only come from a missing source. *)
Theorem update_download_starts_iff (L : VersionLib) (laws : VersionLaws L)
    (data_dir : string) (vi : VersionInfo) (filenames : list string)
    (ui : UIManager.state) :
  let outcome := _start_update_download data_dir vi filenames ui in
  (forall url tag dir names,
     snd outcome = Requested url tag dir (UIManager.Started names) <->
     VersionInfoM.is_update_available vi = true /\
     server_url vi = Some url /\ PyStr.truthy url = true /\
     tag = latest_available vi /\ dir = data_dir /\
     UIManager._is_download_in_progress ui = false /\
     names = filenames /\ filenames <> []) /\
  ((forall url tag dir names,
      snd outcome <> Requested url tag dir (UIManager.Started names)) ->
   UIManager._is_download_in_progress (fst outcome)
     = UIManager._is_download_in_progress ui /\
   UIManager._download_worker (fst outcome) = UIManager._download_worker ui) /\
  (snd outcome = SourceUnknown -> truthy_opt (server_url vi) = false).
Proof.
  assert (Htag : VersionInfoM.is_update_available vi = true ->
                 PyStr.truthy (latest_available vi) = true).
  { unfold VersionInfoM.is_update_available.
    destruct (latest_available vi) as [|c s]; [|reflexivity].
    now rewrite parse_empty. }
  unfold _start_update_download.
  destruct (VersionInfoM.is_update_available vi) eqn:Hup; cbn [negb].
  2:{ cbn [fst snd]. split; [|split]; [|auto|discriminate].
      intros url tag dir names. split; [discriminate|].
      intros (H & _). discriminate. }
  rewrite (Htag eq_refl). cbn [negb orb].
  destruct (server_url vi) as [url0|] eqn:Hurl.
  2:{ cbn [fst snd]. split; [|split]; [|auto|reflexivity].
      intros url tag dir names. split; [discriminate|].
      intros (_ & H & _). discriminate. }
  rewrite orb_false_r.
  destruct (PyStr.truthy url0) eqn:Htr; cbn [negb].
  2:{ cbn [fst snd truthy_opt]. split; [|split]; [|auto|auto].
      intros url tag dir names. split; [discriminate|].
      intros (_ & [= <-] & H & _). congruence. }
  unfold UIManager.start_background_download.
  destruct (UIManager._is_download_in_progress ui) eqn:Hflag.
  { cbn [fst snd]. split; [|split]; [|auto|discriminate].
    intros url tag dir names. split; [discriminate|].
    intros (_ & _ & _ & _ & _ & H & _). discriminate. }
  destruct filenames as [|f rest].
  { cbn [fst snd]. split; [|split]; [|auto|discriminate].
    intros url tag dir names. split; [discriminate|].
    intros (_ & _ & _ & _ & _ & _ & _ & H). congruence. }
  cbn [fst snd]. split; [|split]; [| |discriminate].
  - intros url tag dir names. split.
    + intros [= <- <- <- <-]. repeat split; auto; discriminate.
    + intros (_ & [= <-] & _ & -> & -> & _ & -> & _). reflexivity.
  - intros H. exfalso. eapply H. reflexivity.
Qed.

(** The application files are requested for a newer tag. *)
Lemma update_download_starts_iff_witness :
  snd (@_start_update_download pep440 "data"
         (MkVersionInfo "1.0.0" "v1.2.0" (Some "owner/repo"))
         ["PS2JPMod.exe"; "default.txt"] UIManager.initial)
    = Requested "owner/repo" "v1.2.0" "data"
        (UIManager.Started ["PS2JPMod.exe"; "default.txt"]).
Proof.
  apply (proj1 (update_download_starts_iff pep440 pep440_laws "data"
                  (MkVersionInfo "1.0.0" "v1.2.0" (Some "owner/repo"))
                  ["PS2JPMod.exe"; "default.txt"] UIManager.initial)).
  vm_compute. repeat split; discriminate.
Defined.

End UpdateFlow.

(** ** The signals of a run, for every cancellation moment *)

Module DownloadWorkerMore.
Import DownloadWorker.

Section Run.
Variable download : download_function.

(** The run that is never cancelled: its progress signals and its
    terminal signal. *)
Fixpoint uncancelled (i total_files : nat) (filenames : list string)
    (paths : list AssetFetcher.file_path) : list signal * signal :=
  match filenames with
  | [] => ([], FinishedSignal paths)
  | filename :: rest =>
      let calls := fst (download filename) in
      let here := progress_of filename (i + 1) total_files calls in
      match snd (download filename) with
      | Returns p =>
          let '(later, last) :=
            uncancelled (S i) total_files rest (paths ++ [p]) in
          (here ++ later, last)
      | Raises e => (here, ErrorSignal (DownloadErrorMessage e))
      end
  end.

Lemma run_from_never_cancelled (filenames : list string) :
  forall (i total : nat) (paths : list AssetFetcher.file_path) (clock : nat),
    run_from download None i total filenames paths clock
      = fst (uncancelled i total filenames paths)
          ++ [snd (uncancelled i total filenames paths)].
Proof.
  induction filenames as [|f rest IH]; intros i total paths clock;
    [reflexivity|].
  cbn [run_from uncancelled is_cancelled].
  destruct (download f) as [calls [p|e]]; cbn [fst snd].
  - rewrite DownloadWorkerFacts.progress_never_cancelled.
    rewrite IH.
    destruct (uncancelled (S i) total rest (paths ++ [p])) as [later last].
    cbn [fst snd]. now rewrite app_assoc.
  - now rewrite DownloadWorkerFacts.progress_never_cancelled.
Qed.

Lemma progress_of_is_progress (f : string) (n total : nat)
    (calls : list (Z * Z)) (s : signal) :
  In s (progress_of f n total calls) -> is_progress s = true.
Proof.
  unfold progress_of. intros ([ts ds] & <- & _)%in_map_iff. reflexivity.
Qed.

Lemma uncancelled_shape (filenames : list string) :
  forall (i total : nat) (paths : list AssetFetcher.file_path),
    (forall s, In s (fst (uncancelled i total filenames paths)) ->
               is_progress s = true) /\
    is_terminal (snd (uncancelled i total filenames paths)) = true.
Proof.
  induction filenames as [|f rest IH]; intros i total paths.
  - split; [intros s []|reflexivity].
  - cbn [uncancelled].
    destruct (snd (download f)) as [p|e].
    + specialize (IH (S i) total (paths ++ [p])).
      destruct (uncancelled (S i) total rest (paths ++ [p])) as [later last].
      cbn [fst snd] in *. destruct IH as [IH1 IH2]. split; [|exact IH2].
      intros s [Hs|Hs]%in_app_iff; [|auto].
      eapply progress_of_is_progress; eauto.
    + cbn [fst snd]. split; [|reflexivity].
      intros s Hs. eapply progress_of_is_progress; eauto.
Qed.

(** The signals of the progress callback in closed form: those of the
    calls made before the cancellation is seen. *)
Lemma progress_cancelled_at (t : nat) (f : string) (n total : nat)
    (calls : list (Z * Z)) :
  forall clock,
    progress (Some t) f n total calls clock
      = (take (t - clock) (progress_of f n total calls),
         clock + length calls).
Proof.
  induction calls as [|[ts ds] calls IH]; intros clock.
  - cbn [progress progress_of List.map length]. rewrite take_nil.
    f_equal. lia.
  - cbn [progress length]. rewrite IH. unfold is_cancelled.
    destruct (Nat.leb t clock) eqn:E.
    + apply Nat.leb_le in E.
      replace (t - clock) with 0 by lia. replace (t - S clock) with 0 by lia.
      rewrite !take_0. cbn [app]. f_equal. lia.
    + apply Nat.leb_gt in E.
      replace (t - clock) with (S (t - S clock)) by lia.
      cbn [progress_of List.map take app]. f_equal. lia.
Qed.

(** Once the cancellation is seen, a run only reports it, and only if a
    file is left. *)
Lemma run_from_after_cancel (t : nat) (filenames : list string)
    (i total : nat) (paths : list AssetFetcher.file_path) (clock : nat) :
  t <= clock ->
  run_from download (Some t) i total filenames paths clock
    = match filenames with
      | [] => []
      | _ :: _ => [ErrorSignal CancelledMessage]
      end.
Proof.
  intros Hle. destruct filenames as [|f rest]; cbn [run_from];
    unfold is_cancelled; now rewrite (proj2 (Nat.leb_le t clock) Hle).
Qed.

(** What a cancellation can do to a run: nothing, or cut its progress
    signals short and replace its terminal signal by the cancellation
    error or by nothing. *)
Lemma run_from_cancel_shape (t : nat) (filenames : list string) :
  forall (i total : nat) (paths : list AssetFetcher.file_path) (clock : nat),
    let full := uncancelled i total filenames paths in
    let got := run_from download (Some t) i total filenames paths clock in
    got = fst full ++ [snd full] \/
    exists ps rest,
      fst full = ps ++ rest /\
      (got = ps \/ got = ps ++ [ErrorSignal CancelledMessage]).
Proof.
  induction filenames as [|f rest IH]; intros i total paths clock;
    cbn zeta.
  - cbn [run_from uncancelled fst snd]. destruct (is_cancelled (Some t) clock).
    + right. exists [], []. auto.
    + left. reflexivity.
  - cbn [run_from uncancelled].
    destruct (is_cancelled (Some t) clock) eqn:Hc.
    { right. exists [], (fst (uncancelled i total (f :: rest) paths)).
      split; [reflexivity|]. right. reflexivity. }
    destruct (download f) as [calls outcome]. cbn [fst snd].
    rewrite progress_cancelled_at.
    set (P := progress_of f (i + 1) total calls).
    assert (HP : length P = length calls)
      by (unfold P, progress_of; apply length_map).
    destruct (decide (S clock + length calls <= t)) as [Hlate|Hearly].
    + (* the cancellation is not seen during this file *)
      rewrite take_ge by lia.
      destruct outcome as [p|e].
      * specialize (IH (S i) total (paths ++ [p]) (S clock + length calls)).
        cbn zeta in IH.
        destruct (uncancelled (S i) total rest (paths ++ [p]))
          as [later last]. cbn [fst snd] in *.
        destruct IH as [->|(ps & more & -> & [->| ->])].
        -- left. now rewrite app_assoc.
        -- right. exists (P ++ ps), more. split; [now rewrite app_assoc|].
           left. reflexivity.
        -- right. exists (P ++ ps), more. split; [now rewrite app_assoc|].
           right. now rewrite app_assoc.
      * cbn [fst snd]. unfold is_cancelled.
        destruct (Nat.leb t (S clock + length calls)) eqn:E.
        -- right. exists P, []. rewrite !app_nil_r. auto.
        -- left. reflexivity.
    + (* the cancellation is seen during this file *)
      assert (Hseen : t <= S clock + length calls) by lia.
      right. exists (take (t - S clock) P).
      destruct outcome as [p|e].
      * rewrite run_from_after_cancel by exact Hseen.
        destruct (uncancelled (S i) total rest (paths ++ [p]))
          as [later last]. cbn [fst].
        exists (drop (t - S clock) P ++ later).
        rewrite app_assoc, take_drop. split; [reflexivity|].
        destruct rest; [left; now rewrite app_nil_r | right; reflexivity].
      * cbn [fst]. exists (drop (t - S clock) P).
        rewrite take_drop. split; [reflexivity|].
        unfold is_cancelled. rewrite (proj2 (Nat.leb_le _ _) Hseen).
        left. now rewrite app_nil_r.
Qed.

(** The uncancelled run when every file downloads. *)
Lemma uncancelled_all_succeed (filenames : list string) :
  forall (i total : nat) (paths : list AssetFetcher.file_path),
    (forall f, In f filenames -> succeeds download f) ->
    exists new,
      Forall2 (fun f p => snd (download f) = Returns p) filenames new /\
      uncancelled i total filenames paths
        = (all_progress download i total filenames,
           FinishedSignal (paths ++ new)).
Proof.
  induction filenames as [|f rest IH]; intros i total paths Hok.
  - exists []. split; [constructor|]. cbn. now rewrite app_nil_r.
  - destruct (Hok f (or_introl eq_refl)) as [p Hp].
    destruct (IH (S i) total (paths ++ [p])) as (new & Hnew & Hrest).
    { intros g Hg. apply Hok. now right. }
    exists (p :: new). split; [now constructor|].
    cbn [uncancelled all_progress]. rewrite Hp, Hrest.
    now rewrite <- app_assoc.
Qed.

(** The uncancelled run when the file at index [k] is the first that
    fails. *)
Lemma uncancelled_first_failure (k : nat) :
  forall (filenames : list string) (i total : nat)
         (paths : list AssetFetcher.file_path) (f : string) (e : exception),
    filenames !! k = Some f ->
    (forall j g, j < k -> filenames !! j = Some g -> succeeds download g) ->
    snd (download f) = Raises e ->
    uncancelled i total filenames paths
      = (all_progress download i total (take (S k) filenames),
         ErrorSignal (DownloadErrorMessage e)).
Proof.
  induction k as [|k IH]; intros filenames i total paths f e Hf Hok He;
    destruct filenames as [|g rest]; try discriminate.
  - injection Hf as ->. cbn [uncancelled take all_progress]. rewrite He.
    now rewrite app_nil_r.
  - destruct (Hok 0 g ltac:(lia) eq_refl) as [p Hp].
    cbn [uncancelled all_progress]. rewrite Hp.
    change (take (S (S k)) (g :: rest)) with (g :: take (S k) rest).
    cbn [all_progress].
    rewrite (IH rest (S i) total (paths ++ [p]) f e Hf); [reflexivity| |exact He].
    intros j h Hj Hh. apply (Hok (S j) h); [lia|exact Hh].
Qed.

End Run.

(** X7.  A run that is never cancelled ends with exactly one terminal
    signal.  When every file downloads, it emits the progress signals
    of all files and then the completion signal with one path per file,
    in the order of the files.  When the file at index [k] is the first
    to fail, it emits the progress signals of the files up to that one
    and then the error of that file: no later file is downloaded. *)
Theorem uncancelled_run_outcome (download : download_function)
    (filenames : list string) :
  ((forall f, In f filenames -> succeeds download f) ->
   exists paths,
     Forall2 (fun f p => snd (download f) = Returns p) filenames paths /\
     run download None filenames
       = all_progress download 0 (length filenames) filenames
           ++ [FinishedSignal paths]) /\
  (forall k f e,
     filenames !! k = Some f ->
     (forall j g, j < k -> filenames !! j = Some g -> succeeds download g) ->
     snd (download f) = Raises e ->
     run download None filenames
       = all_progress download 0 (length filenames) (take (S k) filenames)
           ++ [ErrorSignal (DownloadErrorMessage e)]).
Proof.
  unfold run. split.
  - intros Hok.
    destruct (uncancelled_all_succeed download filenames 0 (length filenames)
                [] Hok) as (paths & Hpaths & Hrun).
    exists paths. split; [exact Hpaths|].
    now rewrite run_from_never_cancelled, Hrun.
  - intros k f e Hf Hok He.
    rewrite run_from_never_cancelled.
    now rewrite (uncancelled_first_failure download k filenames 0
                   (length filenames) [] f e Hf Hok He).
Qed.

(** The second of two files fails. *)
Definition second_fails : download_function := fun filename =>
  if String.eqb filename "b"
  then ([(10, 4)]%Z, Raises (Exc TimeoutC None (LibraryText "Read timed out")))
  else ([(10, 10)]%Z, Returns (AssetFetcher.MkPath "data" filename)).

Lemma uncancelled_run_outcome_witness :
  run second_fails None ["a"; "b"; "c"]
    = [ProgressSignal "a" 1 3 10 10; ProgressSignal "b" 2 3 10 4;
       ErrorSignal (DownloadErrorMessage
                      (Exc TimeoutC None (LibraryText "Read timed out")))].
Proof.
  refine (proj2 (uncancelled_run_outcome second_fails ["a"; "b"; "c"])
            1 "b" _ eq_refl _ eq_refl).
  intros j g Hj Hg. destruct j as [|j]; [|lia].
  injection Hg as <-. eexists. reflexivity.
Defined.

(** X8.  A cancellation only cuts a run short.  Whenever it arrives,
    the run either emits what it would have emitted without it, or a
    prefix of those progress signals followed by the cancellation
    error or by nothing: no progress signal is added or altered, no
    other error appears and no completion is announced after the
    cancellation was seen. *)
Theorem cancellation_only_truncates (download : download_function)
    (t : nat) (filenames : list string) :
  let full := run download None filenames in
  let got := run download (Some t) filenames in
  got = full \/
  exists ps,
    ps `prefix_of` List.filter is_progress full /\
    (got = ps \/ got = ps ++ [ErrorSignal CancelledMessage]).
Proof.
  cbn zeta. unfold run. rewrite run_from_never_cancelled.
  pose proof (uncancelled_shape download filenames 0 (length filenames) [])
    as [Hprog Hterm].
  destruct (run_from_cancel_shape download t filenames 0 (length filenames)
              [] 0) as [H|(ps & rest & Hfull & H)].
  - left. exact H.
  - right. exists ps. split; [|exact H].
    rewrite filter_app.
    assert (Hkeep : List.filter is_progress
                      (fst (uncancelled download 0 (length filenames)
                              filenames []))
                    = fst (uncancelled download 0 (length filenames)
                             filenames [])).
    { apply forallb_filter_id. apply forallb_forall. exact Hprog. }
    rewrite Hkeep, Hfull. exists (rest ++ List.filter is_progress
      [snd (uncancelled download 0 (length filenames) filenames [])]).
    now rewrite app_assoc.
Qed.

(** X9.  Whatever the download function does and whenever a
    cancellation arrives, a run emits progress signals and then at most
    one terminal signal, which is its last signal; without a
    cancellation it emits exactly one. *)
Theorem at_most_one_terminal_signal (download : download_function)
    (cancel_at : option nat) (filenames : list string) :
  exists ps tail,
    run download cancel_at filenames = ps ++ tail /\
    (forall s, In s ps -> is_progress s = true) /\
    ((tail = [] /\ cancel_at <> None) \/
     exists last, tail = [last] /\ is_terminal last = true).
Proof.
  unfold run.
  pose proof (uncancelled_shape download filenames 0 (length filenames) [])
    as [Hprog Hterm].
  destruct cancel_at as [t|].
  - destruct (run_from_cancel_shape download t filenames 0 (length filenames)
                [] 0) as [H|(ps & rest & Hfull & [H|H])].
    + eexists _, _. split; [exact H|]. split; [exact Hprog|]. right. eauto.
    + exists ps, []. rewrite app_nil_r. split; [exact H|]. split.
      * intros s Hs. apply Hprog. rewrite Hfull. apply in_app_iff. now left.
      * left. split; [reflexivity|discriminate].
    + exists ps, [ErrorSignal CancelledMessage]. split; [exact H|]. split.
      * intros s Hs. apply Hprog. rewrite Hfull. apply in_app_iff. now left.
      * right. eauto.
  - rewrite run_from_never_cancelled.
    eexists _, _. split; [reflexivity|]. split; [exact Hprog|]. right. eauto.
Qed.

End DownloadWorkerMore.

(** ** Progress reports of a download, and downloads run by the worker *)

Module AssetFetcherMore.
Import Url AssetFetcher AssetFetcherFacts.


Section WithChecks.
Context {NC : NetlocChecks}.


End WithChecks.




(** X11.  Passing a progress callback does not change the outcome of a
    download; without one nothing is reported; and a download that
    fails for another reason than the transfer of the body (a bad
    reference, a failed request, an error status, a directory that
    cannot be created, a length header that is not a number, a file
    that cannot be opened) reports nothing. *)
Theorem progress_is_only_reported_for_the_body (NC : NetlocChecks)
    (env : environment) (url tag asset dest : string) :
  snd (download_release_asset env url tag asset dest true)
    = snd (download_release_asset env url tag asset dest false) /\
  fst (download_release_asset env url tag asset dest false) = [] /\
  (forall cb e,
     snd (download_release_asset env url tag asset dest cb) = Raises e ->
     (forall resp, get_result env = inr resp -> stream_error resp = None) ->
     fst (download_release_asset env url tag asset dest cb) = []).
Proof.
  unfold download_release_asset.
  destruct (GitHubResourceManager._parse_github_repo_url url) as [[info|]|];
    [|now repeat split..].
  assert (Hcalls : forall cb,
            fst (try_block env cb (MkPath dest asset)) = [] \/
            exists resp, get_result env = inr resp /\
              (cb = true /\
               (stream_error resp = None ->
                exists p, snd (try_block env cb (MkPath dest asset))
                          = Returns p))).
  { intros cb.
    pose proof (try_block_outcome env cb (MkPath dest asset)) as Hout.
    unfold try_block, first_failure in *.
    destruct (get_result env) as [e|resp]; [now left|].
    destruct (is_error_status (status_code resp)); [now left|].
    destruct (mkdir_error env); [now left|].
    destruct (content_length resp) as [|n|e]; [| |now left];
      (destruct (open_error env); [now left|]);
      (destruct (receive _ 0 (chunks resp)) as [calls d]);
      (destruct cb; [|left; now destruct (stream_error resp)]);
      right; exists resp; (split; [reflexivity|]);
      (split; [reflexivity|]); intros Hs; rewrite Hs in *; eauto. }
  pose proof (try_block_outcome env true (MkPath dest asset)) as Ht.
  pose proof (try_block_outcome env false (MkPath dest asset)) as Hf.
  split; [|split].
  - destruct (try_block env true _) as [c1 [p1|e1]],
             (try_block env false _) as [c2 [p2|e2]];
      cbn [snd] in *; destruct (first_failure env); congruence.
  - destruct (Hcalls false) as [H|(resp & _ & [=] & _)].
    now destruct (try_block env false _) as [c [p|e]].
  - intros cb e Hraise Hstream.
    destruct (Hcalls cb) as [H|(resp & Hresp & _ & Hret)].
    + now destruct (try_block env cb _) as [c [p|e']].
    + destruct (Hret (Hstream resp Hresp)) as [p Hp].
      destruct (try_block env cb _) as [c [p'|e']]; cbn [snd] in *;
        discriminate.
Qed.

(** *** The worker running the asset fetcher *)

Section Worker.
Context {NC : NetlocChecks}.
Variable network : string -> environment.
Variables repo_url tag dest_dir : string.

Definition fetch : DownloadWorker.download_function :=
  UpdateFlow._internal_download_asset_wrapper network repo_url tag dest_dir.

Lemma fetch_invalid_reference (filename : string) :
  (forall info,
     GitHubResourceManager._parse_github_repo_url repo_url
       <> Ok (Some info)) ->
  exists text,
    fetch filename = ([], Raises (Exc ValueErrorC None text)).
Proof.
  intros Hbad. unfold fetch, UpdateFlow._internal_download_asset_wrapper,
    download_release_asset.
  destruct (GitHubResourceManager._parse_github_repo_url repo_url)
    as [[info|]|]; [now destruct (Hbad info) | eauto..].
Qed.

Lemma fetch_served (info : RepoInfo) (filename : string) :
  GitHubResourceManager._parse_github_repo_url repo_url = Ok (Some info) ->
  first_failure (network filename) = None ->
  snd (fetch filename) = Returns (MkPath dest_dir filename).
Proof.
  intros Hinfo Hok. unfold fetch, UpdateFlow._internal_download_asset_wrapper.
  destruct (download_outcome (network filename) repo_url tag filename
              dest_dir true info Hinfo) as [-> _].
  now rewrite Hok.
Qed.

End Worker.

(** X12.  A repository reference that the download's parser does not
    accept fails a batch at its first file: the worker emits one error
    signal carrying a [ValueError] and nothing else, whatever the
    network would have answered. *)
Theorem invalid_reference_fails_the_batch (NC : NetlocChecks)
    (network : string -> environment) (repo_url tag dest_dir : string)
    (first : string) (others : list string) :
  (forall info,
     GitHubResourceManager._parse_github_repo_url repo_url
       <> Ok (Some info)) ->
  exists text,
    DownloadWorker.run (fetch network repo_url tag dest_dir) None
                       (first :: others)
      = [ErrorSignal (DownloadErrorMessage (Exc ValueErrorC None text))].
Proof.
  intros Hbad.
  destruct (fetch_invalid_reference network repo_url tag dest_dir first Hbad)
    as [text Hfetch].
  exists text. unfold DownloadWorker.run. cbn [DownloadWorker.run_from].
  rewrite Hfetch. reflexivity.
Qed.

Lemma invalid_reference_fails_the_batch_witness :
  exists text,
    DownloadWorker.run
      (@fetch strict_checks
         (fun _ => MkEnvironment (inr sample_response) None None)
         "https://example.com/owner/repo" "v1.2.0" "data")
      None ["ja_jp_data.dat"; "ja_jp_data.dir"]
      = [ErrorSignal (DownloadErrorMessage (Exc ValueErrorC None text))].
Proof.
  apply (invalid_reference_fails_the_batch strict_checks).
  intros info. vm_compute. discriminate.
Defined.

(** X13.  When the reference is accepted and every requested asset is
    served without failure, the worker announces completion with the
    paths [destination/filename] of the requested files, in the order
    requested. *)
Theorem served_batch_completes (NC : NetlocChecks)
    (network : string -> environment) (repo_url tag dest_dir : string)
    (info : RepoInfo) (filenames : list string) :
  GitHubResourceManager._parse_github_repo_url repo_url = Ok (Some info) ->
  (forall f, In f filenames -> first_failure (network f) = None) ->
  let download := fetch network repo_url tag dest_dir in
  DownloadWorker.run download None filenames
    = DownloadWorker.all_progress download 0 (length filenames) filenames
        ++ [FinishedSignal (List.map (MkPath dest_dir) filenames)].
Proof.
  intros Hinfo Hserved download.
  unfold DownloadWorker.run.
  rewrite DownloadWorkerMore.run_from_never_cancelled.
  destruct (DownloadWorkerMore.uncancelled_all_succeed download filenames 0
              (length filenames) []) as (paths & Hpaths & ->).
  { intros f Hf. exists (MkPath dest_dir f).
    apply (fetch_served network repo_url tag dest_dir info f Hinfo).
    now apply Hserved. }
  cbn [fst snd app]. do 3 f_equal.
  clear -Hpaths Hinfo Hserved. subst download.
  induction Hpaths as [|f p fs ps Hp _ IH]; [reflexivity|].
  cbn [List.map]. f_equal.
  - rewrite (fetch_served network repo_url tag dest_dir info f Hinfo) in Hp
      by (apply Hserved; now left).
    congruence.
  - apply IH. intros g Hg. apply Hserved. now right.
Qed.

Lemma served_batch_completes_witness :
  DownloadWorker.run
    (@fetch strict_checks
       (fun _ => MkEnvironment (inr sample_unsized_response) None None)
       "owner/repo" "v1.2.0" "data")
    None ["ja_jp_data.dat"; "ja_jp_data.dir"]
    = [ProgressSignal "ja_jp_data.dat" 1 2 8292 8292;
       ProgressSignal "ja_jp_data.dir" 2 2 8292 8292;
       FinishedSignal [MkPath "data" "ja_jp_data.dat";
                       MkPath "data" "ja_jp_data.dir"]].
Proof.
  apply (served_batch_completes strict_checks
           (fun _ => MkEnvironment (inr sample_unsized_response) None None)
           "owner/repo" "v1.2.0" "data" (MkRepoInfo "owner" "repo")
           ["ja_jp_data.dat"; "ja_jp_data.dir"]).
  - vm_compute. reflexivity.
  - intros f _. reflexivity.
Defined.

End AssetFetcherMore.

(** ** Reading settings *)

Inductive LaunchMode := NORMAL | STEAM.

Module ConfigMore.
Import PyStr Config ConfigFacts.

(** [LaunchMode.value] and the lookup [LaunchMode(n)], which raises
    [ValueError] ([None]) for an integer that is no member. *)
Definition LaunchMode_value (mode : LaunchMode) : Z :=
  match mode with NORMAL => 0 | STEAM => 1 end.

Definition LaunchMode_of (n : Z) : option LaunchMode :=
  if (n =? 0)%Z then Some NORMAL
  else if (n =? 1)%Z then Some STEAM
  else None.

(** A value passed to or returned by the settings store: a plain
    value ([None] is [PJson JNull]) or a launch mode. *)
Inductive py_value :=
| PJson (v : json)
| PMode (mode : LaunchMode).

(** What [int(value)] does. *)
Inductive int_outcome :=
| IntOk (n : Z)
| IntValueError
| IntRaises (e : exception).

Section Reading.
(** [int] applied to a string or to a value that is neither a boolean
    nor an integer nor null, as the interpreter defines it. *)
Variable int_of_text : json -> int_outcome.

Definition py_int (value : py_value) : int_outcome :=
  match value with
  | PMode mode => IntOk (LaunchMode_value mode)
  | PJson (JBool b) => IntOk (if b then 1 else 0)%Z
  | PJson (JInt n) => IntOk n
  | PJson JNull => IntRaises (Exc (OtherErrorC "TypeError") None
                                  (LibraryText "int"))
  | PJson v => int_of_text v
  end.

Definition is_none (value : py_value) : bool :=
  match value with PJson JNull => true | _ => false end.

(** [get_config_value].  On settings that are not a mapping,
    [self.config.get] is an [AttributeError]. *)
Definition get_config_value (mgr : manager) (key : string)
    (default : py_value) : result py_value :=
  match config mgr with
  | DObject m =>
      let value :=
        match m !! key with Some v => PJson v | None => default end in
      if String.eqb key "launch_mode" then
        if is_none value then Returns default
        else
          match py_int value with
          | IntOk n =>
              match LaunchMode_of n with
              | Some mode => Returns (PMode mode)
              | None => Returns default
              end
          | IntValueError => Returns default
          | IntRaises e => Raises e
          end
      else Returns value
  | _ => Raises (Exc AttributeErrorC None (LibraryText "get"))
  end.

(** [set_config_value] for any value: a launch mode is stored as its
    integer. *)
Definition set_config_value_py (disk : nat -> write_outcome) (key : string)
    (value : py_value) (mgr : manager) (w : world)
  : option (manager * world) :=
  let actual_value :=
    match value with
    | PMode mode => JInt (LaunchMode_value mode)
    | PJson v => v
    end in
  set_config_value disk key actual_value mgr w.

Definition is_initial_config (mgr : manager) : bool :=
  _initial_config_flag mgr.

Lemma LaunchMode_of_value (mode : LaunchMode) :
  LaunchMode_of (LaunchMode_value mode) = Some mode.
Proof. now destruct mode. Qed.

Lemma get_stored_mode (m : gmap string json) (flag : bool)
    (mode : LaunchMode) (default : py_value) :
  m !! "launch_mode" = Some (JInt (LaunchMode_value mode)) ->
  get_config_value (MkManager (DObject m) flag) "launch_mode" default
    = Returns (PMode mode).
Proof.
  intros Hm. unfold get_config_value. cbn [config].
  rewrite Hm. cbn. now rewrite LaunchMode_of_value.
Qed.

End Reading.

(** The loop of [_load_config] on a document that is not a mapping: it
    runs through when the document contains every recognized key name
    and raises at the first one it does not contain. *)
Definition names_all_in (d : document) : bool :=
  forallb (fun entry : string * json =>
             match contains_key d (fst entry) with
             | Some true => true
             | _ => false
             end) known_defaults.

Lemma backfill_raised (disk : nat -> write_outcome)
    (table : list (string * json)) (w : world) :
  fold_left (backfill_step disk) table (None, w) = (None, w).
Proof. induction table as [|e table IH]; [reflexivity|]. exact IH. Qed.

Lemma step_not_object (disk : nat -> write_outcome) (d : document)
    (w : world) (key suffix name : string) :
  (forall m, d <> DObject m) ->
  strip_prefix "CONFIG_KEY_" key = Some suffix ->
  backfill_step disk (Some d, w) (key, JStr name)
    = match contains_key d name with
      | Some true => (Some d, w)
      | _ => (None, w)
      end.
Proof.
  intros Hd Hk. unfold backfill_step. rewrite Hk.
  destruct (contains_key d name) as [[|]|]; try reflexivity.
  destruct d as [m| |]; [now destruct (Hd m)|reflexivity..].
Qed.

Lemma backfill_not_object (disk : nat -> write_outcome) (d : document)
    (w : world) :
  (forall m, d <> DObject m) ->
  fold_left (backfill_step disk) AppConstants (Some d, w)
    = (if names_all_in d then Some d else None, w).
Proof.
  intros Hd. unfold AppConstants, names_all_in, known_defaults.
  cbn [fold_left forallb fst].
  repeat (rewrite step_other_entry by reflexivity).
  repeat (erewrite step_not_object by (exact Hd || reflexivity);
          destruct (contains_key d _) as [[|]|];
          rewrite ?backfill_raised; cbn [andb fold_left];
          rewrite ?backfill_raised; try reflexivity).
Qed.

(** X14.  A launch mode written to the settings is the launch mode
    read back, whatever default the reader passes and whether or not
    the write to the file succeeded; when it succeeded, it is also the
    launch mode read after the settings are loaded again. *)
Theorem launch_mode_round_trip (int_of_text : json -> int_outcome)
    (disk disk' : nat -> write_outcome) (m : gmap string json) (flag : bool)
    (w : world) (mode : LaunchMode) (default : py_value) :
  exists mgr' w',
    set_config_value_py disk "launch_mode" (PMode mode)
        (MkManager (DObject m) flag) w = Some (mgr', w') /\
    get_config_value int_of_text mgr' "launch_mode" default
      = Returns (PMode mode) /\
    (disk (writes_done w) = WriteOk ->
     get_config_value int_of_text (fst (_load_config disk' w'))
         "launch_mode" default
       = Returns (PMode mode)).
Proof.
  eexists _, _. split; [reflexivity|]. split.
  - apply get_stored_mode. apply lookup_insert_eq.
  - intros Hok. cbn [snd]. unfold _save_config. rewrite Hok.
    rewrite (load_object disk' (<["launch_mode" := JInt (LaunchMode_value mode)]> m))
      by reflexivity.
    cbn [fst]. rewrite fill_all_map. apply get_stored_mode.
    apply lookup_union_Some_l. apply lookup_insert_eq.
Qed.

(** X15.  Reading the launch mode never hands out the stored value
    itself: the result is a launch mode or the caller's default.  A
    stored integer or boolean gives [NORMAL] for 0 and [False], [STEAM]
    for 1 and [True], and the default for every other integer; a
    stored null gives the default; a missing key gives the default
    when that is a launch mode or null. *)
Theorem launch_mode_reading (int_of_text : json -> int_outcome)
    (m : gmap string json) (flag : bool) (default : py_value) :
  let read :=
    get_config_value int_of_text (MkManager (DObject m) flag)
      "launch_mode" default in
  (forall r, read = Returns r -> r = default \/ exists mode, r = PMode mode) /\
  (forall n, m !! "launch_mode" = Some (JInt n) ->
     read = Returns (if (n =? 0)%Z then PMode NORMAL
                     else if (n =? 1)%Z then PMode STEAM else default)) /\
  (forall b, m !! "launch_mode" = Some (JBool b) ->
     read = Returns (PMode (if b then STEAM else NORMAL))) /\
  (m !! "launch_mode" = Some JNull -> read = Returns default) /\
  (m !! "launch_mode" = None ->
   (default = PJson JNull \/ exists mode, default = PMode mode) ->
   read = Returns default).
Proof.
  cbn zeta. unfold get_config_value. cbn [config String.eqb Ascii.eqb].
  change (String.eqb "launch_mode" "launch_mode") with true. cbv iota.
  split; [|split; [|split; [|split]]].
  - intros r.
    destruct (is_none _); [intros [= <-]; now left|].
    destruct (py_int _ _) as [n| |e]; [|intros [= <-]; now left|discriminate].
    destruct (LaunchMode_of n) as [mode|]; intros [= <-]; eauto.
  - intros n ->. cbn. unfold LaunchMode_of.
    now destruct (n =? 0)%Z, (n =? 1)%Z.
  - intros b ->. now destruct b.
  - now intros ->.
  - intros -> [->|[mode ->]]; [reflexivity|].
    cbn. now rewrite LaunchMode_of_value.
Qed.

(** X16.  The first-run flag.  After loading, [is_initial_config] is
    true only if the file held no mapping, the defaults were taken and
    the file now holds exactly the defaults; and when the file is
    missing, unreadable or corrupt, it is true exactly when writing
    the defaults succeeded. *)
Theorem initial_flag_means_fresh_defaults (disk : nat -> write_outcome)
    (w : world) :
  let mgr := fst (_load_config disk w) in
  let w' := snd (_load_config disk w) in
  (is_initial_config mgr = true ->
   (forall m, file w <> FileJson (DObject m)) /\
   config mgr = DObject default_config /\
   file w' = FileJson (DObject default_config)) /\
  ((forall d, file w <> FileJson d) ->
   config mgr = DObject default_config /\
   (is_initial_config mgr = true <-> disk (writes_done w) = WriteOk)).
Proof.
  cbn zeta.
  assert (Hcreate : forall w0,
            let r := _create_default_config disk w0 in
            config (fst r) = DObject default_config /\
            (is_initial_config (fst r) = true ->
             file (snd r) = FileJson (DObject default_config)) /\
            (is_initial_config (fst r) = true
             <-> disk (writes_done w0) = WriteOk)).
  { intros w0. unfold _create_default_config, _save_config.
    destruct (disk (writes_done w0)); cbn; intuition discriminate. }
  split.
  - unfold _load_config. destruct (file w) as [| | |d] eqn:Hf;
      try (intros Hflag; destruct (Hcreate w) as (Hc & Hfile & _);
           split; [discriminate|]; split; [exact Hc|now apply Hfile]).
    destruct d as [m|items|v].
    + rewrite backfill_object. cbn. discriminate.
    + rewrite backfill_not_object by discriminate.
      destruct (names_all_in _); [cbn; discriminate|].
      intros Hflag; destruct (Hcreate w) as (Hc & Hfile & _).
      split; [discriminate|]. split; [exact Hc|now apply Hfile].
    + rewrite backfill_not_object by discriminate.
      destruct (names_all_in _); [cbn; discriminate|].
      intros Hflag; destruct (Hcreate w) as (Hc & Hfile & _).
      split; [discriminate|]. split; [exact Hc|now apply Hfile].
  - intros Hno. unfold _load_config.
    destruct (file w) as [| | |d] eqn:Hf;
      [| | |now destruct (Hno d)];
      destruct (Hcreate w) as (Hc & _ & Hiff); auto.
Qed.

Lemma initial_flag_means_fresh_defaults_witness :
  config (fst (_load_config always_ok (MkWorld FileCorrupt 0)))
    = DObject default_config /\
  (is_initial_config (fst (_load_config always_ok (MkWorld FileCorrupt 0)))
     = true <-> always_ok 0 = WriteOk).
Proof.
  apply (proj2 (initial_flag_means_fresh_defaults always_ok
                  (MkWorld FileCorrupt 0))).
  intros d. discriminate.
Defined.

(** X17.  Loading always ends with settings that hold every recognized
    key, with one exception: a file whose JSON document is not a
    mapping but contains every recognized key name (an array listing
    them, a string in which they all occur) is taken as it is, and
    reading a setting then raises [AttributeError]. *)
Theorem loaded_settings_hold_every_key (disk : nat -> write_outcome)
    (int_of_text : json -> int_outcome) (w : world) :
  let mgr := fst (_load_config disk w) in
  (exists m,
     config mgr = DObject m /\
     forall name d, In (name, d) known_defaults -> is_Some (m !! name)) \/
  (exists d,
     file w = FileJson d /\ (forall m, d <> DObject m) /\
     names_all_in d = true /\ config mgr = d /\
     forall key default,
       get_config_value int_of_text mgr key default
         = Raises (Exc AttributeErrorC None (LibraryText "get"))).
Proof.
  cbn zeta.
  assert (Hdefault : forall name d,
            In (name, d) known_defaults -> is_Some (default_config !! name)).
  { intros name d Hin. unfold known_defaults in Hin. simpl in Hin.
    repeat (destruct Hin as [[= <- <-]|Hin]; [eexists; reflexivity|]).
    contradiction. }
  assert (Hcreate : forall w0,
            exists m,
              config (fst (_create_default_config disk w0)) = DObject m /\
              forall name d, In (name, d) known_defaults ->
                             is_Some (m !! name)).
  { intros w0. exists default_config. split; [|exact Hdefault].
    unfold _create_default_config.
    now destruct (_save_config disk (DObject default_config) w0). }
  unfold _load_config. destruct (file w) as [| | |d] eqn:Hf;
    try (left; apply Hcreate).
  destruct d as [m|items|v].
  - left. rewrite backfill_object. cbn [fst config].
    rewrite fill_all_map. eexists. split; [reflexivity|].
    intros name d Hin. now apply (known_present m name d).
  - rewrite backfill_not_object by discriminate.
    destruct (names_all_in (DArray items)) eqn:Hall; [|left; apply Hcreate].
    right. exists (DArray items). repeat split; try discriminate; auto.
  - rewrite backfill_not_object by discriminate.
    destruct (names_all_in (DScalar v)) eqn:Hall; [|left; apply Hcreate].
    right. exists (DScalar v). repeat split; try discriminate; auto.
Qed.

(** An array that lists the recognized key names is taken as settings. *)
Example array_taken_as_settings :
  config (fst (_load_config always_ok
                 (MkWorld (FileJson (DArray (List.map (fun e => JStr (fst e))
                                                      known_defaults))) 0)))
    = DArray (List.map (fun e => JStr (fst e)) known_defaults).
Proof. vm_compute. reflexivity. Qed.

End ConfigMore.

(** ** Repository references: what the two parsers hand on *)

Module RepoMore.
Import PyStr PyStrFacts Url UrlFacts RepoParserFacts RepoReference TwoParsers.
Import AssetFetcher.

(** [_get_request_headers] *)
Definition _get_request_headers (github_token : option string)
  : list (string * string) :=
  ("Accept", "application/vnd.github.v3+json") ::
  match github_token with
  | Some token =>
      if truthy token then [("Authorization", "token " +:+ token)] else []
  | None => []
  end.

Definition BASE_URL : string := "https://github.com".

(** [f"{self.BASE_URL}/{owner}/{repo}/releases/latest"] *)
Definition target_url (repo_info : RepoInfo) : string :=
  BASE_URL +:+ "/" +:+ owner repo_info +:+ "/" +:+ repo repo_info
    +:+ "/releases/latest".

(** [isinstance(e, requests.exceptions.RequestException)], which is
    what the three [except] clauses of the connection check amount to
    ([Timeout] and [ConnectionError] are [RequestException]s).  The
    four classes this file names are; the built-in classes are not; a
    class known by its name only is one when the HTTP library derives
    it from [RequestException], which [derived] tells. *)
Definition is_request_exception (derived : string -> bool)
    (cls : exc_class) : bool :=
  match cls with
  | HTTPErrorC | TimeoutC | ConnectionErrorC | RequestExceptionC => true
  | OtherErrorC name => derived name
  | ValueErrorC | AttributeErrorC | FileNotFoundErrorC | PermissionErrorC
  | OSErrorC => false
  end.

(** The other classes that [requests.exceptions] derives from
    [RequestException]. *)
Definition requests_derived (name : string) : bool :=
  bool_decide
    (name ∈ ["InvalidJSONError"; "JSONDecodeError"; "ProxyError"; "SSLError";
             "ConnectTimeout"; "ReadTimeout"; "URLRequired";
             "TooManyRedirects"; "MissingSchema"; "InvalidSchema";
             "InvalidURL"; "InvalidHeader"; "InvalidProxyURL";
             "ChunkedEncodingError"; "ContentDecodingError";
             "StreamConsumedError"; "RetryError"; "UnrewindableBodyError"]).

(** [check_repository_connection].  [head] is what the [HEAD] request
    (no redirects followed) gives for a URL and headers: an exception
    or the status of the response.  [response.ok] is false exactly for
    the statuses for which [raise_for_status] raises. *)
Definition check_repository_connection `{NetlocChecks}
    (derived : string -> bool)
    (head : string -> list (string * string) -> exception + Z)
    (github_token : option string) (repo_url_or_path : string)
  : result bool :=
  match GitHubResourceManager._parse_github_repo_url repo_url_or_path with
  | ValueError => Raises (Exc ValueErrorC None (LibraryText "urlparse"))
  | Ok None => Returns false
  | Ok (Some repo_info) =>
      match head (target_url repo_info)
                 (_get_request_headers github_token) with
      | inr status_code =>
          if (status_code =? 302)%Z then Returns true
          else Returns (negb (is_error_status status_code))
      | inl e =>
          if is_request_exception derived (exc_cls e) then Returns false
          else Raises e
      end
  end.

Lemma split_parts_no_separator (c : ascii) (s : string) :
  forall x, In x (split c s) -> contains c x = false.
Proof.
  induction s as [|a r IH]; intros x.
  - intros [<-|[]]. reflexivity.
  - cbn [split]. destruct (eqc a c) eqn:Hac.
    + intros [<-|Hx]; [reflexivity|auto].
    + pose proof (split_not_nil c r) as Hne.
      destruct (split c r) as [|h t]; [contradiction|].
      intros [<-|Hx].
      * cbn [contains]. rewrite Hac. apply IH. now left.
      * apply IH. now right.
Qed.

Lemma take_no_separator (c : ascii) (n : nat) (s : string) :
  contains c s = false -> contains c (take n s) = false.
Proof.
  revert n. induction s as [|a r IH]; intros n; [now destruct n|].
  destruct n as [|n]; [reflexivity|]. cbn [contains take].
  intros [-> Hr]%orb_false_iff. cbn [orb]. now apply IH.
Qed.

Lemma strip_git_no_separator (c : ascii) (raw : string) :
  contains c raw = false ->
  contains c (GitHubReleaseScraper.strip_git raw) = false.
Proof.
  intros H. unfold GitHubReleaseScraper.strip_git, drop_last.
  destruct (endswith ".git" (lower raw)); [|exact H].
  now apply take_no_separator.
Qed.

Lemma rm_accepted_parts (p : ParseResult) (info : RepoInfo) :
  rm_accepted p = Some info ->
  exists rest,
    GitHubResourceManager.path_parts p = owner info :: repo info :: rest /\
    ((netloc p = "github.com") \/
     (scheme p = "" /\ netloc p = "" /\ rest = [])).
Proof.
  unfold rm_accepted.
  destruct (GitHubResourceManager.path_parts p) as [|a [|b rest]];
    cbn [at_least_two length Nat.leb Nat.eqb];
    rewrite ?andb_false_r; cbn [orb]; try discriminate.
  rewrite andb_true_r.
  destruct (String.eqb (netloc p) "github.com") eqn:Hhost; cbn [orb].
  - intros [= <-]. exists rest. split; [reflexivity|].
    left. now apply String.eqb_eq.
  - destruct (truthy (scheme p)) eqn:Hs; [discriminate|].
    destruct (truthy (netloc p)) eqn:Hn; [discriminate|].
    destruct rest as [|x rest]; [|discriminate].
    cbn [negb andb]. intros [= <-]. exists []. split; [reflexivity|].
    right. now rewrite <- !truthy_false.
Qed.

(** X18.  The names returned by either parser contain no slash, so the
    addresses built from them have the owner and the repository as two
    whole path segments. *)
Theorem repo_names_have_no_slash (NC : NetlocChecks) (s : string)
    (info : RepoInfo) :
  GitHubReleaseScraper._parse_github_repo_url s = Ok (Some info) \/
  GitHubResourceManager._parse_github_repo_url s = Ok (Some info) ->
  contains "/" (owner info) = false /\ contains "/" (repo info) = false.
Proof.
  intros [Hs|Hrm].
  - rewrite scraper_unfold in Hs.
    destruct (negb (truthy s)); [discriminate|].
    destruct (urlparse s) as [p|]; [|discriminate].
    injection Hs as Hacc.
    apply accepted_iff in Hacc as (_ & o & raw & rest & Hseg & _ & ->).
    assert (Hin : forall x, In x (segments (path p)) -> contains "/" x = false).
    { intros x [Hx _]%filter_In. now apply split_parts_no_separator in Hx. }
    rewrite Hseg in Hin. cbn [owner repo]. split.
    + apply Hin. now left.
    + apply strip_git_no_separator, Hin. right. now left.
  - rewrite rm_unfold in Hrm.
    destruct (urlparse s) as [p|]; [|discriminate].
    injection Hrm as Hacc.
    apply rm_accepted_parts in Hacc as (rest & Hparts & _).
    assert (Hin : forall x, In x (GitHubResourceManager.path_parts p) ->
                            contains "/" x = false)
      by (intros x; apply split_parts_no_separator).
    rewrite Hparts in Hin. split; apply Hin; simpl; auto.
Qed.

Lemma repo_names_have_no_slash_witness :
  contains "/" "owner" = false /\ contains "/" "repo" = false.
Proof.
  apply (repo_names_have_no_slash strict_checks
           "https://github.com/owner/repo.git/releases/tag/v1"
           (MkRepoInfo "owner" "repo")).
  left. vm_compute. reflexivity.
Defined.

(** X19.  Whatever the download's parser accepts with two non-empty
    names, the scraper's parser accepts too, with the same owner and
    the same repository up to a [.git] suffix (unless nothing is left
    of the name without it). *)
Theorem scraper_follows_resource_manager (NC : NetlocChecks) (s : string)
    (info : RepoInfo) :
  GitHubResourceManager._parse_github_repo_url s = Ok (Some info) ->
  owner info <> "" -> repo info <> "" ->
  GitHubReleaseScraper.strip_git (repo info) <> "" ->
  GitHubReleaseScraper._parse_github_repo_url s
    = Ok (Some (MkRepoInfo (owner info)
                           (GitHubReleaseScraper.strip_git (repo info)))).
Proof.
  intros Hrm Ho Hr Hgit. rewrite rm_unfold in Hrm.
  destruct (urlparse s) as [p|] eqn:Hp; [|discriminate].
  injection Hrm as Hacc.
  rewrite (scraper_of_parsed s p Hp). f_equal.
  apply rm_accepted_parts in Hacc as (rest & Hparts & Hshape).
  assert (Hseg : segments (path p)
                 = owner info :: repo info :: List.filter truthy rest).
  { rewrite <- scraper_path_parts.
    change (GitHubReleaseScraper.path_parts p)
      with (List.filter truthy (GitHubResourceManager.path_parts p)).
    rewrite Hparts. cbn [List.filter].
    now rewrite (proj2 (truthy_true _) Ho), (proj2 (truthy_true _) Hr). }
  apply accepted_iff. split.
  - destruct Hshape as [Hhost|(Hs & Hn & ->)].
    + right. split; [now rewrite Hhost|]. rewrite Hseg. simpl. lia.
    + left. repeat split; auto. now rewrite Hseg.
  - exists (owner info), (repo info), (List.filter truthy rest). auto.
Qed.

Lemma scraper_follows_resource_manager_witness :
  @GitHubReleaseScraper._parse_github_repo_url strict_checks
      "https://github.com/owner/repo.git"
    = Ok (Some (MkRepoInfo "owner" "repo")).
Proof.
  apply (scraper_follows_resource_manager strict_checks
           "https://github.com/owner/repo.git" (MkRepoInfo "owner" "repo.git"));
    [vm_compute; reflexivity | discriminate..].
Defined.

(** X20.  The connection check answers true exactly when the reference
    is accepted and the [HEAD] request is answered with a status
    outside 400..599 (the test for 302 adds nothing to that); it
    answers false when the request raises a [RequestException], of
    whatever subclass; and it raises only the URL library's
    [ValueError] or an exception of the request that is no
    [RequestException]. *)
Theorem connection_check_outcomes (NC : NetlocChecks)
    (derived : string -> bool)
    (head : string -> list (string * string) -> exception + Z)
    (token : option string) (s : string) :
  let answer := check_repository_connection derived head token s in
  (answer = Returns true <->
   exists info status,
     GitHubResourceManager._parse_github_repo_url s = Ok (Some info) /\
     head (target_url info) (_get_request_headers token) = inr status /\
     is_error_status status = false) /\
  (forall info e,
     GitHubResourceManager._parse_github_repo_url s = Ok (Some info) ->
     head (target_url info) (_get_request_headers token) = inl e ->
     is_request_exception derived (exc_cls e) = true ->
     answer = Returns false) /\
  (forall e,
     answer = Raises e ->
     GitHubResourceManager._parse_github_repo_url s = ValueError \/
     exists info,
       GitHubResourceManager._parse_github_repo_url s = Ok (Some info) /\
       head (target_url info) (_get_request_headers token) = inl e /\
       is_request_exception derived (exc_cls e) = false).
Proof.
  cbn zeta. unfold check_repository_connection.
  destruct (GitHubResourceManager._parse_github_repo_url s) as [[info|]|].
  - destruct (head (target_url info) (_get_request_headers token))
      as [e|status] eqn:Hhead.
    + destruct (is_request_exception derived (exc_cls e)) eqn:Hcls.
      * split; [|split].
        -- split; [discriminate|].
           intros (i & st & [= <-] & H & _). congruence.
        -- reflexivity.
        -- discriminate.
      * split; [|split].
        -- split; [discriminate|].
           intros (i & st & [= <-] & H & _). congruence.
        -- intros i e' [= <-] H. rewrite Hhead in H. injection H as <-.
           congruence.
        -- intros e' [= <-]. right. eauto.
    + split; [|split].
      * destruct (status =? 302)%Z eqn:H302.
        -- apply Z.eqb_eq in H302. subst status. split; [|reflexivity].
           intros _. exists info, 302%Z. auto.
        -- split.
           ++ intros [= Hok]. exists info, status.
              repeat split; auto. now apply negb_true_iff.
           ++ intros (i & st & [= <-] & H & Hst).
              rewrite Hhead in H. injection H as <-. now rewrite Hst.
      * intros i e [= <-] H. congruence.
      * destruct (status =? 302)%Z; discriminate.
  - split; [|split]; [|discriminate..].
    split; [discriminate|]. intros (i & st & H & _). discriminate.
  - split; [|split]; [|discriminate|intros e _; now left].
    split; [discriminate|]. intros (i & st & H & _). discriminate.
Qed.

(** A redirect other than 302 counts as reachable; a missing
    repository does not. *)
Example connection_check_statuses :
  @check_repository_connection strict_checks requests_derived
      (fun _ _ => inr 301%Z) None "owner/repo" = Returns true /\
  @check_repository_connection strict_checks requests_derived
      (fun _ _ => inr 404%Z) None "owner/repo" = Returns false /\
  @check_repository_connection strict_checks requests_derived
      (fun url _ => if String.eqb url
                         "https://github.com/owner/repo/releases/latest"
                    then inr 302%Z else inr 404%Z)
      None "https://github.com/owner/repo/issues/3" = Returns true.
Proof. repeat split; vm_compute; reflexivity. Qed.

(** A read timeout and a TLS failure are the HTTP library's, a key
    error is not. *)
Example connection_check_exceptions :
  let raising name : string -> list (string * string) -> exception + Z :=
    fun _ _ => inl (Exc (OtherErrorC name) None (LibraryText "request")) in
  @check_repository_connection strict_checks requests_derived
      (raising "ReadTimeout") None "owner/repo" = Returns false /\
  @check_repository_connection strict_checks requests_derived
      (raising "SSLError") None "owner/repo" = Returns false /\
  @check_repository_connection strict_checks requests_derived
      (raising "KeyError") None "owner/repo"
    = Raises (Exc (OtherErrorC "KeyError") None (LibraryText "request")).
Proof. repeat split; vm_compute; reflexivity. Qed.

End RepoMore.

(** ** The update check on a source that cannot be parsed *)

Module UpdateCheckFailure.
Import MainManager.

(** The update source as the update check meets it for the server URL
    of a descriptor: the probe is [check_repository_connection] on
    that URL; [latest] and [all] are what the two scraper calls do. *)
Definition probed_source `{Url.NetlocChecks} (derived : string -> bool)
    (head : string -> list (string * string) -> exception + Z)
    (github_token : option string) (server_url : string)
    (latest : result (option string))
    (all : result (option (list Release))) : source :=
  MkSource (RepoMore.check_repository_connection derived head github_token
              server_url)
           latest all.

(** Whatever the probe raises leaves the check, which then has
    touched nothing. *)
Lemma check_raises_with_probe `{L : VersionLib} (src : source)
    (vi : VersionInfo) (dev : bool) (e : exception) :
  check_repository_connection src = Raises e ->
  _check_single_entity_update src vi dev = (Raises e, vi).
Proof. unfold _check_single_entity_update. now intros ->. Qed.

(** A server URL with an opening bracket that is never closed, as it
    can be typed into the settings. *)
Definition unparsable_url : string := "https://[github.com/owner/repo".

(** C5.  The update check does not always end with a message and a
    descriptor reset to [current]: for the server URL
    [https://[github.com/owner/repo], which the URL library refuses,
    the probe raises [ValueError] before its own [try], and the check,
    which calls the probe outside any [try], raises it in turn.  This
    holds whatever the network would answer, in both modes and for
    every descriptor, and the descriptor is left as it was:
    [latest_available] is not reset and no message is produced. *)
Theorem update_check_raises_on_unparsable_source (L : VersionLib)
    (NC : Url.NetlocChecks) (derived : string -> bool)
    (head : string -> list (string * string) -> exception + Z)
    (github_token : option string) (latest : result (option string))
    (all : result (option (list Release))) (current latest_available : string)
    (is_developer_mode : bool) :
  let vi := MkVersionInfo current latest_available (Some unparsable_url) in
  let src := probed_source derived head github_token unparsable_url latest all in
  check_repository_connection src
    = Raises (Exc ValueErrorC None (LibraryText "urlparse")) /\
  _check_single_entity_update src vi is_developer_mode
    = (Raises (Exc ValueErrorC None (LibraryText "urlparse")), vi) /\
  _check_single_entity_update src vi is_developer_mode
    <> (Returns ServerUnreachable, set_latest vi current).
Proof.
  cbn zeta.
  assert (Hprobe : check_repository_connection
                     (probed_source derived head github_token unparsable_url
                                    latest all)
                   = Raises (Exc ValueErrorC None (LibraryText "urlparse")))
    by reflexivity.
  split; [exact Hprobe|].
  rewrite (check_raises_with_probe _ _ _ _ Hprobe).
  split; [reflexivity|discriminate].
Qed.

(** The same descriptor with a reference that parses but names no
    repository is reported as unreachable, without a request. *)
Example unaccepted_source_is_unreachable :
  let vi := MkVersionInfo "1.0.0" "1.0.0" (Some "https://gitlab.com/o/r") in
  @_check_single_entity_update pep440
      (@probed_source Url.strict_checks RepoMore.requests_derived
         (fun _ _ => inr 200%Z) None "https://gitlab.com/o/r"
         (Returns None) (Returns None))
      vi false
    = (Returns ServerUnreachable, vi).
Proof. vm_compute. reflexivity. Qed.

End UpdateCheckFailure.

(** ** Applying the translation and launching the game

    Both actions work on the local file system and start processes.
    They are modelled against an arbitrary system: every operation is
    recorded in a trace, and what the system answers may depend on the
    operations made so far. *)

Module LocalActions.
Import PyStr.

(** [Path(base) / part / ...] *)
Record fs_path := FsPath { base : string; parts : list string }.

Definition join (p : fs_path) (name : string) : fs_path :=
  FsPath (base p) (parts p ++ [name]).

Inductive fs_op :=
| Exists (p : fs_path)
| IsDir (p : fs_path)
| IsFile (p : fs_path)
| Mkdir (p : fs_path)
| Copy2 (src dst : fs_path)
| Popen (exe cwd : fs_path)
| Startfile (target : string)
| StartfileIn (target cwd_parent_of : fs_path)
| Quit.

(** The system: the answer to each operation, given the trace so far.
    The three tests can raise (what they raise propagates); the
    actions succeed or raise.  [StartfileIn target p] is
    [os.startfile(target, cwd=p.parent)] and [Quit] the request to end
    the application. *)
Record system := MkSystem {
  sys_exists : list fs_op -> fs_path -> result bool;
  sys_is_dir : list fs_op -> fs_path -> result bool;
  sys_is_file : list fs_op -> fs_path -> result bool;
  sys_mkdir : list fs_op -> fs_path -> option exception;
  sys_copy2 : list fs_op -> fs_path -> fs_path -> option exception;
  sys_popen : list fs_op -> fs_path -> fs_path -> option exception;
  sys_startfile : list fs_op -> string -> option exception;
  sys_startfile_in : list fs_op -> fs_path -> fs_path -> option exception;
  sys_quit : list fs_op -> option exception
}.

(** The keys of the two dictionaries of files: the translation data
    file, its directory file, and the two fonts. *)
Inductive file_key :=
| TranslationDat
| TranslationDir
| FontGeoMd
| FontPs2GeoMdRosaVerde.

#[global] Instance file_key_eq_dec : EqDecision file_key.
Proof. solve_decision. Defined.

(** The messages of [_status_string_for_ui] set by the two actions, by
    the completion of an application download and by the update check
    (whose final message joins the messages of the two entities). *)
Inductive ui_status :=
| Idle
| ApplyStarted
| PathNotConfigured
| SourceMissing (name : file_key) (p : fs_path)
| LocaleMissing (p : fs_path)
| FontsNotCreated (p : fs_path) (e : exception)
| Applied
| CopyFailed (e : exception)
| CopyFailedUnexpected (e : exception)
| NormalLaunchNeedsPath
| LauncherStarted
| LauncherFailed (e : exception)
| LauncherFailedUnexpected (e : exception)
| LauncherMissing (p : fs_path)
| SteamStarted
| SteamFailed (e : exception)
| InvalidLaunchMode
| AppDownloaded (new_app_version : string)
| UpdaterFailed (e : exception)
| UpdaterMissing (p : fs_path)
| CheckingForUpdates
| UpdatesChecked (app_status translation_status : MainManager.status_message).

Record state := MkSt {
  trace : list fs_op;
  _status_string_for_ui : ui_status
}.

Definition M (A : Type) : Type := state -> state * result A.

Definition ret {A} (a : A) : M A := fun s => (s, Returns a).

Definition raise {A} (e : exception) : M A := fun s => (s, Raises e).

Definition bind {A B} (m : M A) (f : A -> M B) : M B :=
  fun s =>
    match m s with
    | (s', Returns a) => f a s'
    | (s', Raises e) => (s', Raises e)
    end.

#[local] Notation "'let*' x := m 'in' k" := (bind m (fun x => k))
  (at level 10, x name, m at level 100, k at level 200).

Definition set_status (st : ui_status) : M unit :=
  fun s => (MkSt (trace s) st, Returns tt).

Definition record (op : fs_op) (s : state) : state :=
  MkSt (trace s ++ [op]) (_status_string_for_ui s).

Section System.
Variable sys : system.

(** [isinstance(e, OSError)] ([IOError] is [OSError], [shutil.Error] a
    subclass of it). *)
Variable is_os_error : exception -> bool.

Definition path_exists (p : fs_path) : M bool :=
  fun s => (record (Exists p) s, sys_exists sys (trace s) p).

Definition path_is_dir (p : fs_path) : M bool :=
  fun s => (record (IsDir p) s, sys_is_dir sys (trace s) p).

Definition path_is_file (p : fs_path) : M bool :=
  fun s => (record (IsFile p) s, sys_is_file sys (trace s) p).

(** The four actions, inside the [try] that surrounds each of them:
    they return the exception raised, if any. *)
Definition try_mkdir (p : fs_path) : M (option exception) :=
  fun s => (record (Mkdir p) s, Returns (sys_mkdir sys (trace s) p)).

Definition try_copy2 (src dst : fs_path) : M (option exception) :=
  fun s => (record (Copy2 src dst) s, Returns (sys_copy2 sys (trace s) src dst)).

Definition try_popen (exe cwd : fs_path) : M (option exception) :=
  fun s => (record (Popen exe cwd) s, Returns (sys_popen sys (trace s) exe cwd)).

Definition try_startfile (target : string) : M (option exception) :=
  fun s => (record (Startfile target) s,
            Returns (sys_startfile sys (trace s) target)).

(** *** [execute_translation_apply] *)

Fixpoint _check_source_files_exist
    (source_files_map : list (file_key * fs_path)) : M bool :=
  match source_files_map with
  | [] => ret true
  | (name, path) :: rest =>
      let* found := path_exists path in
      if negb found then
        let* _ := set_status (SourceMissing name path) in ret false
      else _check_source_files_exist rest
  end.

Definition _check_or_create_destination_dirs (locale_dir fonts_dir : fs_path)
  : M bool :=
  let* locale_found := path_is_dir locale_dir in
  if negb locale_found then
    let* _ := set_status (LocaleMissing locale_dir) in ret false
  else
    let* fonts_found := path_is_dir fonts_dir in
    if negb fonts_found then
      let* failure := try_mkdir fonts_dir in
      match failure with
      | None => ret true
      | Some e =>
          if is_os_error e then
            let* _ := set_status (FontsNotCreated fonts_dir e) in ret false
          else raise e
      end
    else ret true.

Fixpoint lookup_key (source_files_map : list (file_key * fs_path))
    (name_key : file_key) : option fs_path :=
  match source_files_map with
  | [] => None
  | (k, p) :: rest =>
      if decide (k = name_key) then Some p else lookup_key rest name_key
  end.

(** Why the loop of [_copy_translation_files] stopped. *)
Inductive copy_failure :=
| KeyMissing (name_key : file_key)
| CopyRaised (e : exception).

Fixpoint copy_loop (source_files_map destination_paths_map
                      : list (file_key * fs_path))
  : M (option copy_failure) :=
  match destination_paths_map with
  | [] => ret None
  | (name_key, dest_path) :: rest =>
      match lookup_key source_files_map name_key with
      | None => ret (Some (KeyMissing name_key))
      | Some source_path =>
          let* failure := try_copy2 source_path dest_path in
          match failure with
          | Some e => ret (Some (CopyRaised e))
          | None => copy_loop source_files_map rest
          end
      end
  end.

Definition _copy_translation_files
    (source_files_map destination_paths_map : list (file_key * fs_path))
  : M bool :=
  let* failure := copy_loop source_files_map destination_paths_map in
  match failure with
  | None => let* _ := set_status Applied in ret true
  | Some (CopyRaised e) =>
      let* _ := (if is_os_error e then set_status (CopyFailed e)
                 else set_status (CopyFailedUnexpected e)) in
      ret false
  | Some (KeyMissing k) =>
      let* _ := set_status
                  (CopyFailedUnexpected
                     (Exc (OtherErrorC "KeyError") None (LibraryText "key"))) in
      ret false
  end.

Definition source_files (data_source_dir : fs_path)
  : list (file_key * fs_path) :=
  [(TranslationDat, join data_source_dir "ja_jp_data.dat");
   (TranslationDir, join data_source_dir "ja_jp_data.dir");
   (FontGeoMd, join (join data_source_dir "fonts") "Geo-Md.ttf");
   (FontPs2GeoMdRosaVerde,
    join (join data_source_dir "fonts") "Ps2GeoMdRosaVerde.ttf")].

Definition locale_dir_dest (local_game_path : fs_path) : fs_path :=
  join local_game_path "Locale".

Definition fonts_dir_dest (local_game_path : fs_path) : fs_path :=
  join (join (join local_game_path "UI") "Resource") "Fonts".

Definition destination_paths (local_game_path : fs_path)
  : list (file_key * fs_path) :=
  [(TranslationDat, join (locale_dir_dest local_game_path) "en_us_data.dat");
   (TranslationDir, join (locale_dir_dest local_game_path) "en_us_data.dir");
   (FontGeoMd, join (fonts_dir_dest local_game_path) "Geo-Md.ttf");
   (FontPs2GeoMdRosaVerde,
    join (fonts_dir_dest local_game_path) "Ps2GeoMdRosaVerde.ttf")].

(** [execute_translation_apply], for a stored installation path that
    is a string or is missing. *)
Definition execute_translation_apply (data_dir : string)
    (local_game_path_str : option string) : M unit :=
  let* _ := set_status ApplyStarted in
  match local_game_path_str with
  | None => set_status PathNotConfigured
  | Some path_str =>
      if negb (truthy path_str) then set_status PathNotConfigured
      else
        let local_game_path := FsPath path_str [] in
        let data_source_dir := FsPath data_dir [] in
        let* sources_ok :=
          _check_source_files_exist (source_files data_source_dir) in
        if negb sources_ok then ret tt
        else
          let* dirs_ok :=
            _check_or_create_destination_dirs
              (locale_dir_dest local_game_path)
              (fonts_dir_dest local_game_path) in
          if negb dirs_ok then ret tt
          else
            let* dat_found :=
              path_exists (join (locale_dir_dest local_game_path)
                                "en_us_data.dat") in
            let* _ :=
              (if dat_found
               then let* _ :=
                      path_exists (join (locale_dir_dest local_game_path)
                                        "en_us_data.dir") in
                    ret tt
               else ret tt) in
            let* _ :=
              _copy_translation_files (source_files data_source_dir)
                                      (destination_paths local_game_path) in
            ret tt
  end.

(** *** [execute_game_launch] *)

Definition is_file_access_error (e : exception) : bool :=
  match exc_cls e with
  | FileNotFoundErrorC | PermissionErrorC => true
  | _ => false
  end.

Definition STEAM_GAME_URI : string := "steam://rungameid/218230".

(** [execute_game_launch], for the launch mode read from the settings
    (a mode or [None]) and a stored installation path that is a string
    or is missing. *)
Definition execute_game_launch (launch_mode : option LaunchMode)
    (local_game_path_str : option string) : M unit :=
  match launch_mode with
  | Some NORMAL =>
      if negb (truthy_opt local_game_path_str) then
        set_status NormalLaunchNeedsPath
      else
        let local_game_path :=
          FsPath (match local_game_path_str with Some s => s | None => "" end)
                 [] in
        let launchpad_exe_path := join local_game_path "LaunchPad.exe" in
        let* found := path_is_file launchpad_exe_path in
        if found then
          let* failure := try_popen launchpad_exe_path local_game_path in
          match failure with
          | None => set_status LauncherStarted
          | Some e =>
              if is_file_access_error e then set_status (LauncherFailed e)
              else set_status (LauncherFailedUnexpected e)
          end
        else set_status (LauncherMissing launchpad_exe_path)
  | Some STEAM =>
      let* failure := try_startfile STEAM_GAME_URI in
      match failure with
      | None => set_status SteamStarted
      | Some e => set_status (SteamFailed e)
      end
  | None => set_status InvalidLaunchMode
  end.

End System.

(** The operations of a complete application of the translation:
    the four sources are looked for, the two directories tested, the
    fonts directory created if [created], the data file to be replaced
    looked for and, if [second_look], its directory file; then the four
    copies. *)
Definition copies (data_dir path_str : string) : list fs_op :=
  List.map (fun '(k, dst) =>
              Copy2 (match lookup_key (source_files (FsPath data_dir [])) k with
                     | Some src => src
                     | None => dst
                     end) dst)
           (destination_paths (FsPath path_str [])).

Definition checks (data_dir path_str : string) (created second_look : bool)
  : list fs_op :=
  List.map (fun e => Exists (snd e)) (source_files (FsPath data_dir []))
  ++ [IsDir (locale_dir_dest (FsPath path_str []));
      IsDir (fonts_dir_dest (FsPath path_str []))]
  ++ (if created then [Mkdir (fonts_dir_dest (FsPath path_str []))] else [])
  ++ [Exists (join (locale_dir_dest (FsPath path_str [])) "en_us_data.dat")]
  ++ (if second_look
      then [Exists (join (locale_dir_dest (FsPath path_str []))
                         "en_us_data.dir")]
      else []).

Definition script (data_dir path_str : string) (created second_look : bool)
  : list fs_op :=
  checks data_dir path_str created second_look ++ copies data_dir path_str.

Definition is_copy (op : fs_op) : bool :=
  match op with Copy2 _ _ => true | _ => false end.

Definition is_spawn (op : fs_op) : bool :=
  match op with
  | Popen _ _ | Startfile _ | StartfileIn _ _ => true
  | _ => false
  end.

End LocalActions.

Module LocalActionsFacts.
Import LocalActions.

Section System.
Variable sys : system.
Variable is_os_error : exception -> bool.

(** The loop over the destinations, written out. *)
Lemma copy_loop_planned (data path : fs_path) :
  copy_loop sys (source_files data) (destination_paths path)
    = bind (try_copy2 sys (join data "ja_jp_data.dat")
                      (join (locale_dir_dest path) "en_us_data.dat"))
        (fun f1 => match f1 with
         | Some e => ret (Some (CopyRaised e))
         | None =>
    bind (try_copy2 sys (join data "ja_jp_data.dir")
                    (join (locale_dir_dest path) "en_us_data.dir"))
        (fun f2 => match f2 with
         | Some e => ret (Some (CopyRaised e))
         | None =>
    bind (try_copy2 sys (join (join data "fonts") "Geo-Md.ttf")
                    (join (fonts_dir_dest path) "Geo-Md.ttf"))
        (fun f3 => match f3 with
         | Some e => ret (Some (CopyRaised e))
         | None =>
    bind (try_copy2 sys (join (join data "fonts") "Ps2GeoMdRosaVerde.ttf")
                    (join (fonts_dir_dest path) "Ps2GeoMdRosaVerde.ttf"))
        (fun f4 => match f4 with
         | Some e => ret (Some (CopyRaised e))
         | None => ret None
         end) end) end) end).
Proof. reflexivity. Qed.

End System.

Lemma copies_planned (data_dir path_str : string) :
  copies data_dir path_str
    = [Copy2 (join (FsPath data_dir []) "ja_jp_data.dat")
             (join (locale_dir_dest (FsPath path_str [])) "en_us_data.dat");
       Copy2 (join (FsPath data_dir []) "ja_jp_data.dir")
             (join (locale_dir_dest (FsPath path_str [])) "en_us_data.dir");
       Copy2 (join (join (FsPath data_dir []) "fonts") "Geo-Md.ttf")
             (join (fonts_dir_dest (FsPath path_str [])) "Geo-Md.ttf");
       Copy2 (join (join (FsPath data_dir []) "fonts") "Ps2GeoMdRosaVerde.ttf")
             (join (fonts_dir_dest (FsPath path_str []))
                   "Ps2GeoMdRosaVerde.ttf")].
Proof. reflexivity. Qed.


(** One answer of the system, whatever it is. *)
Ltac answer :=
  match goal with
  | |- context [sys_exists ?s ?t ?p] =>
      destruct (sys_exists s t p) as [[|]|?]
  | |- context [sys_is_dir ?s ?t ?p] =>
      destruct (sys_is_dir s t p) as [[|]|?]
  | |- context [sys_is_file ?s ?t ?p] =>
      destruct (sys_is_file s t p) as [[|]|?]
  | |- context [sys_mkdir ?s ?t ?p] =>
      destruct (sys_mkdir s t p) as [?|]
  | |- context [sys_copy2 ?s ?t ?p ?q] =>
      destruct (sys_copy2 s t p q) as [?|]
  | |- context [sys_popen ?s ?t ?p ?q] =>
      destruct (sys_popen s t p q) as [?|]
  | |- context [sys_startfile ?s ?t ?p] =>
      destruct (sys_startfile s t p) as [?|]
  | f : exception -> bool |- context [?g ?e] =>
      constr_eq f g; destruct (f e)
  end; cbn [negb].

Ltac run_apply :=
  unfold execute_translation_apply, _copy_translation_files;
  rewrite ?copy_loop_planned;
  unfold script, checks; rewrite ?copies_planned;
  cbv [_check_source_files_exist source_files
       _check_or_create_destination_dirs bind ret raise set_status
       path_exists path_is_dir try_mkdir try_copy2 record trace
       _status_string_for_ui fst snd List.map].

Ltac trace_is_extended :=
  eexists; split; [rewrite <- ?app_assoc; reflexivity|].

Ltac is_prefix :=
  first [ exists true, true; eexists; cbn [app]; reflexivity
        | exists true, false; eexists; cbn [app]; reflexivity
        | exists false, true; eexists; cbn [app]; reflexivity
        | exists false, false; eexists; cbn [app]; reflexivity ].

(** X21.  Applying the translation follows one script.  Without a
    configured installation path nothing on the file system is
    touched.  With one, the operations made are, for every system, an
    initial part of: look for the four sources, test the [Locale] and
    the fonts directory, create the fonts directory (only if the test
    said it is missing), look for the data file to be replaced (and
    then for its directory file), copy the four files.  So nothing is
    created or copied before the sources were found and [Locale] was
    seen, and [Locale] is never created. *)
Theorem translation_apply_follows_script (sys : system)
    (is_os_error : exception -> bool) (data_dir : string)
    (local_game_path_str : option string) (s0 : state) :
  let out :=
    execute_translation_apply sys is_os_error data_dir local_game_path_str
      s0 in
  (truthy_opt local_game_path_str = false ->
   out = (MkSt (trace s0) PathNotConfigured, Returns tt)) /\
  (forall path_str,
     local_game_path_str = Some path_str -> PyStr.truthy path_str = true ->
     exists ops,
       trace (fst out) = trace s0 ++ ops /\
       exists created second_look,
         ops `prefix_of` script data_dir path_str created second_look).
Proof.
  destruct s0 as [t0 st0]. cbn zeta. split.
  - destruct local_game_path_str as [path_str|]; cbn [truthy_opt].
    + intros Hpath. unfold execute_translation_apply. rewrite Hpath.
      reflexivity.
    + reflexivity.
  - intros path_str -> Hpath. run_apply. rewrite Hpath. cbn [negb].
    repeat answer; trace_is_extended; is_prefix.
Qed.


Ltac with_flags tac :=
  first [ tac true true | tac true false | tac false true | tac false false ].

Ltac with_index tac := first [ tac 0 | tac 1 | tac 2 | tac 3 ].

Ltac failed_copy :=
  with_flags ltac:(fun c s => with_index ltac:(fun k =>
    solve [ exists c, s, k; split; [lia|]; split; [|reflexivity];
            cbn [take app]; rewrite <- ?app_assoc; reflexivity ])).

Ltac all_copied :=
  with_flags ltac:(fun c s =>
    solve [ exists c, s; split; [|reflexivity];
            cbn [app]; rewrite <- ?app_assoc; reflexivity ]).

(** X22.  When the status after applying the translation says that it
    is applied, the whole script was carried out: the four files were
    copied, each source to its destination, in the order data file,
    directory file, the two fonts.  When it reports a failed copy, the
    failing copy is the last operation: the files before it in that
    order were replaced and are left so, the files after it were not
    touched. *)
Theorem translation_copies_in_order (sys : system)
    (is_os_error : exception -> bool) (data_dir path_str : string)
    (s0 : state) :
  PyStr.truthy path_str = true ->
  let out :=
    execute_translation_apply sys is_os_error data_dir (Some path_str) s0 in
  (_status_string_for_ui (fst out) = Applied ->
   exists created second_look,
     trace (fst out)
       = trace s0 ++ script data_dir path_str created second_look /\
     snd out = Returns tt) /\
  (forall e,
     _status_string_for_ui (fst out) = CopyFailed e \/
     _status_string_for_ui (fst out) = CopyFailedUnexpected e ->
     exists created second_look k,
       k < 4 /\
       trace (fst out)
         = trace s0 ++ checks data_dir path_str created second_look
             ++ take (S k) (copies data_dir path_str) /\
       snd out = Returns tt).
Proof.
  intros Hpath. destruct s0 as [t0 st0]. cbn zeta.
  run_apply. rewrite Hpath. cbn [negb].
  repeat answer;
    (split; [intros H; try discriminate H; all_copied
            |intros e0 [H|H]; try discriminate H; failed_copy]).
Qed.

(** A system on which everything is in place and every action
    succeeds. *)
Definition friendly : system :=
  MkSystem (fun _ _ => Returns true) (fun _ _ => Returns true)
           (fun _ _ => Returns true) (fun _ _ => None) (fun _ _ _ => None)
           (fun _ _ _ => None) (fun _ _ => None) (fun _ _ _ => None)
           (fun _ => None).

Lemma translation_copies_in_order_witness :
  let out :=
    execute_translation_apply friendly (fun _ => true) "data"
      (Some "C:/Games/PlanetSide 2") (MkSt [] Idle) in
  exists created second_look,
    trace (fst out)
      = [] ++ script "data" "C:/Games/PlanetSide 2" created second_look /\
    snd out = Returns tt.
Proof.
  apply (proj1 (translation_copies_in_order friendly (fun _ => true) "data"
                  "C:/Games/PlanetSide 2" (MkSt [] Idle) eq_refl)).
  reflexivity.
Defined.

(** X23.  Launching the game starts at most one process.  In Steam
    mode it opens the Steam address and looks at nothing else; with no
    valid mode it does nothing; in normal mode it does nothing without
    a configured path, and otherwise tests for [LaunchPad.exe] in the
    configured folder and starts that file, in that folder, only if
    the test found it. *)
Theorem game_launch_operations (sys : system)
    (launch_mode : option LaunchMode) (local_game_path_str : option string)
    (s0 : state) :
  let out := execute_game_launch sys launch_mode local_game_path_str s0 in
  exists ops,
    trace (fst out) = trace s0 ++ ops /\
    length (List.filter is_spawn ops) <= 1 /\
    match launch_mode with
    | Some STEAM => ops = [Startfile STEAM_GAME_URI]
    | None => ops = []
    | Some NORMAL =>
        match local_game_path_str with
        | Some path_str =>
            if PyStr.truthy path_str then
              let folder := FsPath path_str [] in
              let exe := join folder "LaunchPad.exe" in
              ops = [IsFile exe] \/
              (sys_is_file sys (trace s0) exe = Returns true /\
               ops = [IsFile exe; Popen exe folder])
            else ops = []
        | None => ops = []
        end
    end.
Proof.
  destruct s0 as [t0 st0]. cbn zeta. unfold execute_game_launch.
  destruct launch_mode as [[|]|].
  - destruct local_game_path_str as [path_str|]; cbn [truthy_opt negb].
    + destruct (PyStr.truthy path_str); cbn [negb].
      * cbv [bind ret set_status path_is_file try_popen record trace
             _status_string_for_ui fst snd].
        destruct (sys_is_file sys t0 _) as [[|]|e] eqn:Hfile.
        -- destruct (sys_popen sys _ _ _) as [e|];
             [destruct (is_file_access_error e)|];
             (eexists; split; [rewrite <- ?app_assoc; reflexivity|];
              split; [cbn; lia|right; split; reflexivity]).
        -- eexists; split; [reflexivity|]. split; [cbn; lia|now left].
        -- eexists; split; [reflexivity|]. split; [cbn; lia|now left].
      * exists []. rewrite app_nil_r. split; [reflexivity|].
        split; [cbn; lia|reflexivity].
    + exists []. rewrite app_nil_r. split; [reflexivity|].
      split; [cbn; lia|reflexivity].
  - cbv [bind ret set_status try_startfile record trace
         _status_string_for_ui fst snd].
    destruct (sys_startfile sys t0 STEAM_GAME_URI);
      (eexists; split; [reflexivity|]; split; [cbn; lia|reflexivity]).
  - exists []. rewrite app_nil_r. split; [reflexivity|].
    split; [cbn; lia|reflexivity].
Qed.

End LocalActionsFacts.

(** ** Start-up version synchronisation and developer-mode changes *)

Module MainManagerMore.
Import Config ConfigMore.

#[global] Instance LaunchMode_eq_dec : EqDecision LaunchMode.
Proof. solve_decision. Defined.

#[global] Instance py_value_eq_dec : EqDecision py_value.
Proof. solve_decision. Defined.


Definition type_error : exception :=
  Exc (OtherErrorC "TypeError") None (LibraryText "type").

Section Manager.
Context `{L : VersionLib}.
Variable int_of_text : json -> int_outcome.
Variable disk : nat -> write_outcome.



(** [!=] on two values read from the settings. *)
Variable py_ne : py_value -> py_value -> bool.








End Manager.






End MainManagerMore.

(** ** A whole download session seen from the UI manager *)

Module UIManagerMore.
Import DownloadWorker UIManager.

(** The status a progress signal is shown as. *)
Definition shown (s : signal) : list status :=
  match s with
  | ProgressSignal f n t ts ds => [Downloading f n t ts ds]
  | _ => []
  end.

Lemma deliver_progress_signals (cb : option exception) (signals : list signal) :
  forall ui,
    (forall s, In s signals -> is_progress s = true) ->
    fold_left (deliver cb) signals ui
      = MkState (_is_download_in_progress ui) (_download_worker ui)
                (emitted ui ++ flat_map shown signals).
Proof.
  induction signals as [|s signals IH]; intros ui Hall.
  - cbn. rewrite app_nil_r. now destruct ui.
  - cbn [fold_left flat_map]. rewrite IH by (intros x Hx; apply Hall; now right).
    assert (Hs : is_progress s = true) by (apply Hall; now left).
    destruct s; try discriminate. cbn. now rewrite <- app_assoc.
Qed.

(** X26.  A session on an idle manager in which every file downloads
    and nothing is cancelled: the worker is started, each progress
    signal is shown once and in order, completion is reported with the
    number of files requested, and the manager is idle again (flag
    cleared, worker released), also when the completion callback
    raises; its exception is reported after the completion. *)
Theorem completed_session_resets_the_manager (download : download_function)
    (callback_error : option exception) (first : string)
    (others : list string) (ui : state) :
  _is_download_in_progress ui = false ->
  (forall f, In f (first :: others) -> succeeds download f) ->
  let filenames := first :: others in
  let session := download_session download None callback_error filenames ui in
  snd session = Started filenames /\
  _is_download_in_progress (fst session) = false /\
  _download_worker (fst session) = false /\
  emitted (fst session)
    = emitted ui ++ [PreparingDownload first]
        ++ flat_map shown
             (all_progress download 0 (length filenames) filenames)
        ++ [DownloadCompleted (length filenames)]
        ++ match callback_error with
           | Some e => [AfterDownloadFailed e]
           | None => []
           end.
Proof.
  intros Hidle Hok. cbn zeta.
  unfold download_session, start_background_download. rewrite Hidle.
  cbn [fst snd]. unfold run.
  rewrite DownloadWorkerMore.run_from_never_cancelled.
  destruct (DownloadWorkerMore.uncancelled_all_succeed download
              (first :: others) 0 (length (first :: others)) [] Hok)
    as (paths & Hpaths & ->).
  cbn [fst snd]. rewrite fold_left_app.
  rewrite (deliver_progress_signals _ (all_progress _ _ _ _)).
  2:{ intros s Hs.
      now destruct (DownloadWorkerFacts.all_progress_signals download _ _ _ _ Hs). }
  cbn [fold_left deliver _on_download_process_finished emit
       _is_download_in_progress _download_worker emitted app].
  apply Forall2_length in Hpaths. unfold _on_download_process_finished.
  destruct callback_error as [e|];
    cbn [emit _is_download_in_progress _download_worker emitted];
    rewrite <- Hpaths; repeat split; rewrite <- ?app_assoc; reflexivity.
Qed.

Lemma completed_session_resets_the_manager_witness :
  let session :=
    download_session UIManagerFacts.one_file None None ["a"; "b"] initial in
  snd session = Started ["a"; "b"] /\
  _is_download_in_progress (fst session) = false /\
  _download_worker (fst session) = false /\
  emitted (fst session)
    = emitted initial ++ [PreparingDownload "a"]
        ++ flat_map shown
             (all_progress UIManagerFacts.one_file 0 2 ["a"; "b"])
        ++ [DownloadCompleted 2] ++ [].
Proof.
  apply (completed_session_resets_the_manager UIManagerFacts.one_file None
           "a" ["b"] initial eq_refl).
  intros f _. eexists. reflexivity.
Defined.

End UIManagerMore.

(** ** File integrity check *)

Module FileIntegrityChecker.

(** What reading a file does: it cannot be opened, it is read to its
    end, or reading fails after some blocks. *)
Inductive file :=
| OpenFails (e : exception)
| Readable (content : list Byte.byte)
| ReadFails (read_before : list Byte.byte) (e : exception).

Section Hash.
(** The hash object of [hashlib.sha256]. *)
Variable hash : Type.
Variable new : hash.
Variable update : hash -> list Byte.byte -> hash.
Variable hexdigest : hash -> string.

(** [isinstance(e, OSError)]; [FileNotFoundError], [PermissionError]
    and [IOError] all are. *)
Variable is_os_error : exception -> bool.

(** The loop over [iter(lambda: f.read(4096), b"")]: blocks of 4096
    bytes are fed to the hash until a read returns nothing.  [fuel]
    bounds the number of reads. *)
Fixpoint feed (fuel : nat) (remaining : list Byte.byte) (h : hash) : hash :=
  match fuel with
  | 0 => h
  | S fuel' =>
      match remaining with
      | [] => h
      | _ :: _ =>
          feed fuel' (drop 4096 remaining) (update h (take 4096 remaining))
      end
  end.

(** [calculate_sha256]: every exception is raised again. *)
Definition calculate_sha256 (f : file) : result string :=
  match f with
  | OpenFails e => Raises e
  | Readable content =>
      Returns (hexdigest (feed (S (length content)) content new))
  | ReadFails _ e => Raises e
  end.

(** [verify_file_hash] *)
Definition verify_file_hash (f : file) (expected_sha256 : string)
  : result bool :=
  match calculate_sha256 f with
  | Returns calculated_sha256 =>
      Returns (String.eqb (PyStr.lower calculated_sha256) (PyStr.lower expected_sha256))
  | Raises e => if is_os_error e then Returns false else Raises e
  end.

Hypothesis update_nil : forall h, update h [] = h.
Hypothesis update_app :
  forall h a b, update (update h a) b = update h (a ++ b).

Lemma feed_all (fuel : nat) :
  forall remaining h,
    length remaining <= fuel -> feed fuel remaining h = update h remaining.
Proof.
  induction fuel as [|fuel IH]; intros remaining h Hlen.
  - destruct remaining; [now rewrite update_nil | simpl in Hlen; lia].
  - destruct remaining as [|b rest]; [now rewrite update_nil|].
    cbn [feed]. rewrite IH.
    + now rewrite update_app, take_drop.
    + rewrite length_drop. cbn [length] in *. lia.
Qed.

End Hash.

Lemma lower_idempotent (s : string) :
  PyStr.lower (PyStr.lower s) = PyStr.lower s.
Proof.
  induction s as [|c s IH]; [reflexivity|].
  cbn [PyStr.lower]. f_equal; [|exact IH].
  unfold PyStr.lower_char. destruct (PyStr.is_upper c) eqn:Hup; [|now rewrite Hup].
  assert (Hlow : PyStr.is_upper (ascii_of_nat (PyStr.code c + 32)) = false).
  { unfold PyStr.is_upper, PyStr.in_range, PyStr.code in *.
    rewrite nat_ascii_embedding.
    - apply andb_true_iff in Hup as [H1 H2].
      apply Nat.leb_le in H1, H2. apply andb_false_iff. right.
      apply Nat.leb_gt. lia.
    - apply andb_true_iff in Hup as [H1 H2].
      apply Nat.leb_le in H1, H2. lia. }
  now rewrite Hlow.
Qed.

(** X27.  The hash of a file does not depend on the block size it is
    read with: it is the digest of the content fed at once.  The check
    accepts exactly the expected values equal to that digest up to the
    case of the letters, so it accepts the digest itself; and a file
    that cannot be read fails the check without an exception. *)
Theorem file_hash_is_that_of_the_content (hash : Type) (new : hash)
    (update : hash -> list Byte.byte -> hash) (hexdigest : hash -> string)
    (is_os_error : exception -> bool) :
  (forall h, update h [] = h) ->
  (forall h a b, update (update h a) b = update h (a ++ b)) ->
  (forall content,
     calculate_sha256 hash new update hexdigest (Readable content)
       = Returns (hexdigest (update new content))) /\
  (forall content expected,
     verify_file_hash hash new update hexdigest is_os_error
         (Readable content) expected
       = Returns (String.eqb (PyStr.lower (hexdigest (update new content)))
                             (PyStr.lower expected))) /\
  (forall content,
     verify_file_hash hash new update hexdigest is_os_error
         (Readable content) (hexdigest (update new content))
       = Returns true /\
     verify_file_hash hash new update hexdigest is_os_error
         (Readable content) (PyStr.lower (hexdigest (update new content)))
       = Returns true) /\
  (forall e expected,
     is_os_error e = true ->
     verify_file_hash hash new update hexdigest is_os_error
         (OpenFails e) expected = Returns false).
Proof.
  intros Hnil Happ.
  assert (Hcalc : forall content,
            calculate_sha256 hash new update hexdigest (Readable content)
              = Returns (hexdigest (update new content))).
  { intros content. unfold calculate_sha256.
    now rewrite (feed_all hash update Hnil Happ) by lia. }
  split; [exact Hcalc|].
  split; [intros content expected; unfold verify_file_hash;
          now rewrite Hcalc|].
  split.
  - intros content. unfold verify_file_hash. rewrite Hcalc. split.
    + now rewrite String.eqb_refl.
    + now rewrite lower_idempotent, String.eqb_refl.
  - intros e expected He. unfold verify_file_hash. cbn. now rewrite He.
Qed.

(** A toy hash that satisfies the two laws: the bytes seen so far. *)
Lemma file_hash_is_that_of_the_content_witness :
  calculate_sha256 (list Byte.byte) [] (@app Byte.byte)
      (fun h => string_of_list_byte h) (Readable [Byte.x50; Byte.x53])
    = Returns (string_of_list_byte ([] ++ [Byte.x50; Byte.x53])).
Proof.
  apply (proj1 (file_hash_is_that_of_the_content (list Byte.byte) []
                  (@app Byte.byte) (fun h => string_of_list_byte h)
                  (fun _ => true)
                  (fun h => app_nil_r h)
                  (fun h a b => eq_sym (app_assoc h a b)))).
Defined.

End FileIntegrityChecker.

(** ** After the application files are downloaded *)

Module AppUpdate.
Import Config ConfigMore LocalActions.

(** A descriptor as the manager holds it once settings were read into
    it: [server_url] is whatever value the settings hold, which need
    not be a string. *)
Record descriptor := MkDescriptor {
  version_current : string;
  version_latest_available : string;
  version_server_url : py_value
}.

Definition set_server_url (d : descriptor) (value : py_value) : descriptor :=
  MkDescriptor (version_current d) (version_latest_available d) value.

(** What the callback and the update check work on: the settings and
    their file, the two descriptors, and the status with the trace of
    operations. *)
Record app_state := MkApp {
  app_settings : manager;
  app_files : world;
  _app_version_info : descriptor;
  _translation_version_info : descriptor;
  actions : LocalActions.state
}.

Definition with_actions (st : app_state) (a : LocalActions.state)
  : app_state :=
  MkApp (app_settings st) (app_files st) (_app_version_info st)
        (_translation_version_info st) a.

Definition with_status (st : app_state) (status : ui_status) : app_state :=
  with_actions st (MkSt (trace (actions st)) status).

Definition performed (st : app_state) (op : fs_op) : app_state :=
  with_actions st (record op (actions st)).

Definition with_app (st : app_state) (d : descriptor) : app_state :=
  MkApp (app_settings st) (app_files st) d (_translation_version_info st)
        (actions st).

Definition with_translation (st : app_state) (d : descriptor) : app_state :=
  MkApp (app_settings st) (app_files st) (_app_version_info st) d
        (actions st).

Definition DEFAULT_APP_UPDATE_SERVER_URL : string :=
  "PS2-Localization-JP/PlanetSide2-nihongo-mod-ui/".

Definition DEFAULT_TRANSLATION_UPDATE_SERVER_URL : string :=
  "PS2-Localization-JP/PlanetSide2-nihongo-mod-api/".

Section Manager.
Context `{L : VersionLib}.
Variable int_of_text : json -> int_outcome.

(** The truth value of a stored value that is neither null, a
    boolean, an integer nor a string (a float, an array, an object). *)
Variable truthy_other : string -> bool.

(** What the update source does when the first and the second check
    of [execute_check_for_updates] ask it about a server URL. *)
Variable app_source translation_source : py_value -> MainManager.source.

(** [bool(value)] *)
Definition py_truthy (value : py_value) : bool :=
  match value with
  | PJson JNull => false
  | PJson (JBool b) => b
  | PJson (JInt n) => negb (n =? 0)%Z
  | PJson (JStr s) => PyStr.truthy s
  | PJson (JOther text) => truthy_other text
  | PMode NORMAL => false
  | PMode STEAM => true
  end.

(** The descriptor as the per-entity check reads and writes it: the
    check hands [server_url] to the update source and touches
    [latest_available] only. *)
Definition info_of (d : descriptor) : VersionInfo :=
  MkVersionInfo (version_current d) (version_latest_available d)
    (match version_server_url d with
     | PJson (JStr s) => Some s
     | _ => None
     end).

Definition check_descriptor (src : MainManager.source) (d : descriptor)
    (is_developer_mode : bool)
  : result MainManager.status_message * descriptor :=
  let run :=
    MainManager._check_single_entity_update src (info_of d)
      is_developer_mode in
  (fst run,
   MkDescriptor (version_current d) (latest_available (snd run))
                (version_server_url d)).

Definition read (st : app_state) (key : string) (default : py_value)
  : result py_value :=
  get_config_value int_of_text (app_settings st) key default.

(** [execute_check_for_updates].  Every message of the per-entity
    check is a non-empty text, so the final status joins both. *)
Definition execute_check_for_updates (st : app_state)
  : app_state * result unit :=
  let st := with_status st CheckingForUpdates in
  match read st "app_server_url"
             (PJson (JStr DEFAULT_APP_UPDATE_SERVER_URL)) with
  | Raises e => (st, Raises e)
  | Returns app_url =>
  let st := with_app st (set_server_url (_app_version_info st) app_url) in
  match read st "translation_server_url"
             (PJson (JStr DEFAULT_TRANSLATION_UPDATE_SERVER_URL)) with
  | Raises e => (st, Raises e)
  | Returns translation_url =>
  let st :=
    with_translation st
      (set_server_url (_translation_version_info st) translation_url) in
  match read st "developer_mode" (PJson (JBool false)) with
  | Raises e => (st, Raises e)
  | Returns developer_mode =>
  let run :=
    check_descriptor
      (app_source (version_server_url (_app_version_info st)))
      (_app_version_info st) (py_truthy developer_mode) in
  let st := with_app st (snd run) in
  match fst run with
  | Raises e => (st, Raises e)
  | Returns app_status =>
  match read st "developer_mode" (PJson (JBool false)) with
  | Raises e => (st, Raises e)
  | Returns developer_mode =>
  let run :=
    check_descriptor
      (translation_source
         (version_server_url (_translation_version_info st)))
      (_translation_version_info st) (py_truthy developer_mode) in
  let st := with_translation st (snd run) in
  match fst run with
  | Raises e => (st, Raises e)
  | Returns trans_status =>
      (with_status st (UpdatesChecked app_status trans_status), Returns tt)
  end end end end end end.

Variable sys : system.
Variable disk : nat -> write_outcome.

(** [on_app_download_completed] for the data directory [data_dir]. *)
Definition on_app_download_completed (data_dir : string) (st : app_state)
  : app_state * result unit :=
  let new_app_version := version_latest_available (_app_version_info st) in
  if negb (PyStr.truthy new_app_version) then (st, Returns tt)
  else
    let st := with_status st (AppDownloaded new_app_version) in
    match set_config_value disk "app_version" (JStr new_app_version)
            (app_settings st) (app_files st) with
    | None => (st, Raises MainManagerMore.type_error)
    | Some (mgr', w') =>
        let st :=
          MkApp mgr' w'
                (MkDescriptor new_app_version
                   (version_latest_available (_app_version_info st))
                   (version_server_url (_app_version_info st)))
                (_translation_version_info st) (actions st) in
        let updater_bat_path := join (FsPath data_dir []) "updater.bat" in
        let found := sys_is_file sys (trace (actions st)) updater_bat_path in
        let st := performed st (IsFile updater_bat_path) in
        match found with
        | Raises e => (st, Raises e)
        | Returns found =>
            let st :=
              if found then
                let started :=
                  sys_startfile_in sys (trace (actions st)) updater_bat_path
                                   (FsPath data_dir []) in
                let st :=
                  performed st (StartfileIn updater_bat_path
                                            (FsPath data_dir [])) in
                match started with
                | Some e => with_status st (UpdaterFailed e)
                | None =>
                    let quit := sys_quit sys (trace (actions st)) in
                    let st := performed st Quit in
                    match quit with
                    | Some e => with_status st (UpdaterFailed e)
                    | None => st
                    end
                end
              else with_status st (UpdaterMissing updater_bat_path) in
            execute_check_for_updates st
        end
    end.

(** The update check writes neither the settings nor a current
    version, and performs none of the recorded operations. *)
Lemma check_keeps (st : app_state) :
  let out := execute_check_for_updates st in
  app_settings (fst out) = app_settings st /\
  version_current (_app_version_info (fst out))
    = version_current (_app_version_info st) /\
  trace (actions (fst out)) = trace (actions st).
Proof.
  cbn zeta. unfold execute_check_for_updates, read.
  cbv [with_status with_actions with_app with_translation set_server_url
       check_descriptor app_settings app_files _app_version_info
       _translation_version_info actions].
  destruct st as [mgr w app tr [t0 st0]]. cbn [trace _status_string_for_ui].
  repeat (match goal with
          | |- context [match ?x with Returns _ => _ | Raises _ => _ end] =>
              destruct x
          end; cbn [fst snd version_current version_server_url
                    version_latest_available trace]);
    auto.
Qed.

End Manager.

(** X28.  Once the application files are downloaded the new version is
    recorded before the updater is looked for: for settings that are a
    mapping and a non-empty latest tag, whatever happens afterwards
    (the updater is missing, cannot be started, the test for it
    raises, the closing update check raises or finds another tag), the
    tag is stored as the application version and is the descriptor's
    current version when the callback ends.  The application is asked
    to quit only after the updater was found and started.  When the
    test for the updater raises, the callback raises with it; in every
    other case it ends with the update check, which starts from a
    state in which no update is pending. *)
Theorem new_version_is_recorded_before_the_updater_runs (L : VersionLib)
    (int_of_text : json -> int_outcome) (truthy_other : string -> bool)
    (app_source translation_source : py_value -> MainManager.source)
    (sys : system) (disk : nat -> write_outcome) (data_dir : string)
    (m : gmap string json) (flag : bool) (w : world)
    (app translation : descriptor) (a : LocalActions.state) :
  PyStr.truthy (version_latest_available app) = true ->
  let check :=
    execute_check_for_updates int_of_text truthy_other app_source
      translation_source in
  let out :=
    on_app_download_completed int_of_text truthy_other app_source
      translation_source sys disk data_dir
      (MkApp (MkManager (DObject m) flag) w app translation a) in
  let updater := join (FsPath data_dir []) "updater.bat" in
  let tag := version_latest_available app in
  stored (app_settings (fst out)) "app_version" = Some (JStr tag) /\
  version_current (_app_version_info (fst out)) = tag /\
  (exists ops,
     trace (actions (fst out)) = trace a ++ ops /\
     (In Quit ops ->
      exists more,
        ops = IsFile updater :: StartfileIn updater (FsPath data_dir [])
                :: Quit :: more)) /\
  (forall e,
     sys_is_file sys (trace a) updater = Raises e ->
     snd out = Raises e /\
     version_latest_available (_app_version_info (fst out)) = tag) /\
  (forall found,
     sys_is_file sys (trace a) updater = Returns found ->
     exists before,
       out = check before /\
       stored (app_settings before) "app_version" = Some (JStr tag) /\
       version_current (_app_version_info before) = tag /\
       version_latest_available (_app_version_info before) = tag /\
       VersionInfoM.is_update_available (info_of (_app_version_info before))
         = false).
Proof.
  intros Htag. destruct a as [t0 st0]. cbn zeta.
  unfold on_app_download_completed.
  cbn [_app_version_info]. rewrite Htag. cbn [negb].
  unfold set_config_value.
  cbv [with_status performed with_actions record set_item].
  cbn [app_settings app_files _app_version_info _translation_version_info
       actions config trace _status_string_for_ui _initial_config_flag].
  assert (Hno : forall url,
            VersionInfoM.is_update_available
              (info_of (MkDescriptor (version_latest_available app)
                                     (version_latest_available app) url))
            = false).
  { intros url. unfold VersionInfoM.is_update_available, info_of.
    cbn [latest_available current version_current version_latest_available].
    destruct (parse (version_latest_available app)); [|reflexivity].
    apply bool_decide_eq_false. tauto. }
  assert (Hkeep : forall before : app_state,
            stored (app_settings before) "app_version"
              = Some (JStr (version_latest_available app)) ->
            version_current (_app_version_info before)
              = version_latest_available app ->
            stored (app_settings
                      (fst (execute_check_for_updates int_of_text truthy_other
                              app_source translation_source before)))
                   "app_version"
              = Some (JStr (version_latest_available app)) /\
            version_current
              (_app_version_info
                 (fst (execute_check_for_updates int_of_text truthy_other
                         app_source translation_source before)))
              = version_latest_available app).
  { intros before Hs Hc.
    destruct (check_keeps int_of_text truthy_other app_source
                translation_source before) as (-> & -> & _). auto. }
  assert (Htrace : forall before : app_state,
            trace (actions
                     (fst (execute_check_for_updates int_of_text truthy_other
                             app_source translation_source before)))
            = trace (actions before)).
  { intros before.
    now destruct (check_keeps int_of_text truthy_other app_source
                    translation_source before) as (_ & _ & ->). }
  destruct app as [cur tag url].
  cbn [version_latest_available version_server_url version_current] in *.
  destruct (sys_is_file sys t0 _) as [[|]|e];
    [destruct (sys_startfile_in sys _ _ _) as [e|];
       [|destruct (sys_quit sys _) as [e|]]| |].
  5:{ cbn [fst snd app_settings _app_version_info actions trace
           version_current version_latest_available].
      split; [apply lookup_insert_eq|]. split; [reflexivity|].
      split.
      - eexists. split; [reflexivity|].
        intros [H|[]]. discriminate.
      - split; [intros e' [= <-]; auto | discriminate]. }
  all: match goal with
       | |- context [execute_check_for_updates _ _ _ _ ?b] =>
           destruct (Hkeep b (lookup_insert_eq _ _ _) eq_refl) as [Hs Hc];
           pose proof (Htrace b) as Ht
       end;
       (split; [exact Hs|]); (split; [exact Hc|]);
       (split;
        [rewrite Ht; cbn [actions trace];
         eexists; split; [rewrite <- ?app_assoc; reflexivity|];
         cbn [app In];
         first [ intros _; eexists; reflexivity
               | intros Hin; exfalso;
                 repeat (destruct Hin as [Hin|Hin]; [discriminate Hin|]);
                 exact Hin ]
        |]);
       (split; [discriminate|]);
       intros found _; eexists; (split; [reflexivity|]);
       cbn [app_settings _app_version_info version_current
            version_latest_available];
       (split; [apply lookup_insert_eq|]);
       (split; [reflexivity|]); (split; [reflexivity|]); apply Hno.
Qed.

(** The updater is missing: the version is recorded all the same. *)
Definition no_updater : system :=
  MkSystem (fun _ _ => Returns true) (fun _ _ => Returns true)
           (fun _ _ => Returns false) (fun _ _ => None) (fun _ _ _ => None)
           (fun _ _ _ => None) (fun _ _ => None) (fun _ _ _ => None)
           (fun _ => None).

(** An update source that announces [v1.3.0] for every server URL. *)
Definition newer_source : py_value -> MainManager.source :=
  fun _ => MainManager.MkSource (Returns true) (Returns (Some "v1.3.0"))
                                (Returns None).

Lemma new_version_is_recorded_before_the_updater_runs_witness :
  let out :=
    @on_app_download_completed pep440 (fun _ => IntValueError)
      (fun _ => true) newer_source newer_source no_updater always_ok "data"
      (MkApp (MkManager (DObject default_config) false) (MkWorld FileMissing 0)
             (MkDescriptor "1.0.0" "v1.2.0" (PJson (JStr "owner/repo")))
             (MkDescriptor "0.0.0" "0.0.0" (PJson (JStr "owner/data")))
             (MkSt [] Idle)) in
  stored (app_settings (fst out)) "app_version" = Some (JStr "v1.2.0") /\
  version_current (_app_version_info (fst out)) = "v1.2.0" /\
  version_latest_available (_app_version_info (fst out)) = "v1.3.0".
Proof.
  split; [|split].
  - apply (new_version_is_recorded_before_the_updater_runs pep440
             (fun _ => IntValueError) (fun _ => true) newer_source
             newer_source no_updater always_ok "data" default_config false
             (MkWorld FileMissing 0)
             (MkDescriptor "1.0.0" "v1.2.0" (PJson (JStr "owner/repo")))
             (MkDescriptor "0.0.0" "0.0.0" (PJson (JStr "owner/data")))
             (MkSt [] Idle) eq_refl).
  - reflexivity.
  - vm_compute. reflexivity.
Defined.

End AppUpdate.
